(** * B3 batch pipeline: the Glue ETL job ([glue/etl_job.py])

    A shallow embedding of the transformation stages of the job and of the
    control flow of its [main], with the properties of the stages proved
    against the definitions.

    Conventions of the embedding.
    - A DataFrame is the list of its rows, in the order in which the engine
      exposes them; two lists that are permutations of each other are the
      same dataset seen in two row orders.
    - A nullable column value is an [option]; [None] is SQL [NULL].
    - A [long] is an integer ([Z]) of the range of 64 bits, and the sum of
      longs wraps around as the engine's does in its default mode.
    - A [double] is an exact rational ([Qc]): rounding, infinities and NaN
      are outside the model.  What holds of exact sums only (that a sum of
      doubles does not depend on the order of the rows, that a mean lies
      between the extremes) is therefore not stated of the code below.
    - The order in which the engine lists the groups of an aggregation is
      its own; the lists below fix one (first appearance), and what is
      stated of the aggregated rows is stated up to that order.
    - Arithmetic on columns follows the default (non-ANSI) SQL mode of the
      engine: an operand that is [NULL] gives [NULL], and so does a division
      whose divisor is zero. *)

From Stdlib Require Import String Ascii.
From Stdlib Require Import List ZArith QArith Qcanon Bool Lia Permutation Sorted.
From Stdlib Require Floats.SpecFloat.
Import ListNotations.

Local Open Scope Qc_scope.
Local Open Scope nat_scope.

(** ** Column values and the engine's aggregate functions *)

Module Spark.

Abbreviation double := Qc.
Abbreviation long := Z.

(** The values of a column that are not [NULL], in row order. *)
Fixpoint non_null {A : Type} (l : list (option A)) : list A :=
  match l with
  | [] => []
  | None :: l' => non_null l'
  | Some x :: l' => x :: non_null l'
  end.

Definition isNotNull {A : Type} (c : option A) : option bool :=
  match c with Some _ => Some true | None => Some false end.

(** Three-valued conjunction ([&] on boolean columns). *)
Definition and3 (a b : option bool) : option bool :=
  match a, b with
  | Some false, _ | _, Some false => Some false
  | Some true, Some true => Some true
  | _, _ => None
  end.

(** [F.when(cond, v).otherwise(w)]: [v] only where [cond] is true. *)
Definition when_otherwise {A : Type} (cond : option bool) (v w : A) : A :=
  match cond with Some true => v | _ => w end.

Definition lift2 {A B C : Type} (f : A -> B -> C)
    (a : option A) (b : option B) : option C :=
  match a, b with Some x, Some y => Some (f x y) | _, _ => None end.

Definition sub (a b : option double) : option double := lift2 Qcminus a b.
Definition mul (a b : option double) : option double := lift2 Qcmult a b.

(** [a / b]: [NULL] when an operand is [NULL] or the divisor is zero. *)
Definition div (a b : option double) : option double :=
  match a, b with
  | Some x, Some y => if Qc_eq_bool y 0%Qc then None else Some (x / y)%Qc
  | _, _ => None
  end.

Definition Qcleb (x y : Qc) : bool := Qle_bool (this x) (this y).

Definition gt (a b : option double) : option bool :=
  lift2 (fun x y => negb (Qcleb x y)) a b.

Definition greatest (x y : Qc) : Qc := if Qcleb x y then y else x.
Definition least (x y : Qc) : Qc := if Qcleb x y then x else y.

(** An aggregate that folds the non-null values into a buffer that starts
    [NULL]: [F.sum], [F.max] and [F.min] are instances. *)
Definition agg_step {A : Type} (op : A -> A -> A)
    (buf : option A) (v : option A) : option A :=
  match v with
  | None => buf
  | Some x => match buf with None => Some x | Some b => Some (op b x) end
  end.

Definition aggregate {A : Type} (op : A -> A -> A)
    (l : list (option A)) : option A :=
  fold_left (agg_step op) l None.

Definition sum_double : list (option double) -> option double :=
  aggregate Qcplus.

(** The values of a [long]: the integers of 64 bits, two's complement. *)
Definition is_long (z : Z) : Prop := (- 2 ^ 63 <= z < 2 ^ 63)%Z.

(** The integer of 64 bits that an integer is reduced to. *)
Definition wrap64 (z : Z) : long := ((z + 2 ^ 63) mod 2 ^ 64 - 2 ^ 63)%Z.

(** [+] on longs in the default (non-ANSI) mode: no error on overflow, the
    result wraps around. *)
Definition add_long (a b : long) : long := wrap64 (a + b).

(** [F.sum] on a long column: the buffer starts [NULL] and a value [x]
    that is not [NULL] makes it [coalesce(buffer, 0) + x]. *)
Definition sum_long_step (buf : option long) (v : option long) : option long :=
  match v with
  | None => buf
  | Some x => Some (add_long (match buf with Some b => b | None => 0%Z end) x)
  end.

Definition sum_long (l : list (option long)) : option long :=
  fold_left sum_long_step l None.
Definition max : list (option double) -> option double :=
  aggregate greatest.
Definition min : list (option double) -> option double :=
  aggregate least.

(** [F.avg]: a (sum, count) buffer over the non-null values, [NULL] when
    the count is zero. *)
Definition avg_step (buf : Qc * nat) (v : option double) : Qc * nat :=
  match v with
  | None => buf
  | Some x => ((fst buf + x)%Qc, S (snd buf))
  end.

Definition of_count (n : nat) : Qc := Q2Qc (inject_Z (Z.of_nat n)).

Definition avg (l : list (option double)) : option double :=
  let buf := fold_left avg_step l (0%Qc, 0) in
  match snd buf with
  | 0 => None
  | S _ => Some (fst buf / of_count (snd buf))%Qc
  end.

(** [F.count('*')]. *)
Definition count {A : Type} (rows : list A) : Z := Z.of_nat (length rows).

(** [F.first(c)] and [F.last(c)] (nulls are not skipped): the value of the
    column in the first, respectively the last, row of the group. *)
Definition first {A B : Type} (c : A -> option B) (rows : list A) : option B :=
  match rows with [] => None | r :: _ => c r end.

Definition last {A B : Type} (c : A -> option B) (rows : list A) : option B :=
  match rev rows with [] => None | r :: _ => c r end.

(** Grouping keys, in order of first appearance. *)
Fixpoint distinct {K : Type} (eqb : K -> K -> bool) (l : list K) : list K :=
  match l with
  | [] => []
  | k :: l' => k :: filter (fun k' => negb (eqb k k')) (distinct eqb l')
  end.

(** Rows of a partition paired with their position. *)
Definition indexed {A : Type} (part : list A) : list (nat * A) :=
  combine (seq 0 (length part)) part.

(** The frame [rowsBetween(lo, hi)] of the row at position [i]: the rows of
    the partition whose position [j] has [i + lo <= j <= i + hi]. *)
Definition rowsBetween {A : Type} (lo hi : Z) (part : list A) (i : nat)
    : list A :=
  map snd
    (filter (fun p => (Z.of_nat i + lo <=? Z.of_nat (fst p))%Z
                      && (Z.of_nat (fst p) <=? Z.of_nat i + hi)%Z)
            (indexed part)).

(** [F.lag(c, k)]: the column in the row [k] positions before, [NULL] when
    there is none. *)
Definition lag {A B : Type} (c : A -> option B) (k : nat) (part : list A)
    (i : nat) : option B :=
  if i <? k then None
  else match nth_error part (i - k) with Some r => c r | None => None end.

End Spark.

(** ** The doubles of the engine

    What the exact rationals of [Spark.double] leave out: the engine adds
    and divides doubles in binary64, rounding each result, so that a sum
    taken in another order of the rows can be another value.  The sum and
    the mean below are the folds of [Spark.sum_double] and [Spark.avg] on
    such values; they serve to show which properties of the exact sums are
    not properties of the code. *)

Module Binary64.

Abbreviation double := SpecFloat.spec_float.

Definition add (x y : double) : double := SpecFloat.SFadd 53 1024 x y.
Definition div (x y : double) : double := SpecFloat.SFdiv 53 1024 x y.

Definition of_count (n : nat) : double :=
  SpecFloat.binary_normalize 53 1024 (Z.of_nat n) 0 false.

Definition sum_double : list (option double) -> option double :=
  Spark.aggregate add.

Definition avg_step (buf : double * nat) (v : option double) : double * nat :=
  match v with
  | None => buf
  | Some x => (add (fst buf) x, S (snd buf))
  end.

Definition avg (l : list (option double)) : option double :=
  let buf := fold_left avg_step l (SpecFloat.S754_zero false, 0) in
  match snd buf with
  | 0 => None
  | S _ => Some (div (fst buf) (of_count (snd buf)))
  end.

(** The doubles nearest to 0.1, 0.2 and 0.3. *)
Definition tenth : double := SpecFloat.S754_finite false 7205759403792794 (-56).
Definition fifth : double := SpecFloat.S754_finite false 7205759403792794 (-55).
Definition three_tenths : double :=
  SpecFloat.S754_finite false 5404319552844595 (-54).

End Binary64.

(** ** Data model *)

(** A calendar date.  The raw files carry it as the text [YYYY-MM-DD], whose
    order is the order of the (year, month, day) triples. *)
Record Date := mkDate { year : Z; month : Z; day : Z }.

Definition date_eqb (a b : Date) : bool :=
  (year a =? year b)%Z && (month a =? month b)%Z && (day a =? day b)%Z.

Definition date_leb (a b : Date) : bool :=
  (year a <? year b)%Z
  || ((year a =? year b)%Z
      && ((month a <? month b)%Z
          || ((month a =? month b)%Z && (day a <=? day b)%Z))).

Definition opt_eqb {A : Type} (eqb : A -> A -> bool) (a b : option A) : bool :=
  match a, b with
  | None, None => true
  | Some x, Some y => eqb x y
  | _, _ => false
  end.

Definition ticker_eqb : option string -> option string -> bool :=
  opt_eqb String.eqb.

Definition data_eqb : option Date -> option Date -> bool := opt_eqb date_eqb.

(** Ascending order of a nullable date column: nulls first. *)
Definition data_leb (a b : option Date) : bool :=
  match a, b with
  | None, _ => true
  | Some _, None => false
  | Some x, Some y => date_leb x y
  end.

Definition Key : Type := option string * option Date.

Definition key_eqb (k1 k2 : Key) : bool :=
  ticker_eqb (fst k1) (fst k2) && data_eqb (snd k1) (snd k2).

(** A raw record, under the canonical column names. *)
Module Raw.
Record Row := mkRow {
  ticker : option string;
  data : option Date;
  preco_abertura : option Spark.double;
  preco_maximo : option Spark.double;
  preco_minimo : option Spark.double;
  preco_fechamento : option Spark.double;
  volume_negociado : option Spark.long;
  dividendos : option Spark.double;
  ticker_completo : option string
}.

Definition key (r : Row) : Key := (ticker r, data r).
End Raw.

(** A row of the daily aggregation (one per ticker and date). *)
Record DailySummary := mkDailySummary {
  ticker : option string;
  data : option Date;
  volume_total_diario : option Spark.long;
  preco_medio_fechamento : option Spark.double;
  contagem_registros : Z;
  preco_abertura : option Spark.double;
  preco_maximo : option Spark.double;
  preco_minimo : option Spark.double;
  preco_fechamento : option Spark.double;
  dividendos : option Spark.double;
  ticker_completo : option string
}.

Definition key (r : DailySummary) : Key := (ticker r, data r).

(** A daily row with the window metrics. *)
Record MetricsRow := mkMetricsRow {
  summary : DailySummary;
  media_movel_7d : option Spark.double;
  variacao_percentual_diaria : option Spark.double;
  maxima_periodo : option Spark.double;
  minima_periodo : option Spark.double
}.

(** ... with the partition columns. *)
Record PartitionedRow := mkPartitionedRow {
  metrics : MetricsRow;
  data_particao : option string;
  ano : option Z;
  mes : option Z;
  dia : option Z
}.

(** ... with the quality columns: the row that is written. *)
Record EnrichedRow := mkEnrichedRow {
  partitioned : PartitionedRow;
  data_processamento : Z;
  dados_validos : bool
}.

Definition enriched_summary (r : EnrichedRow) : DailySummary :=
  summary (metrics (partitioned r)).

(** ** Daily Aggregator: [calculate_aggregations] *)

(** The rows of the group of a key, in the order the engine exposes them. *)
Definition group (k : Key) (df : list Raw.Row) : list Raw.Row :=
  filter (fun r => key_eqb (Raw.key r) k) df.

(** [groupBy('ticker', 'data')]: one group per distinct key.  The engine
    lists the groups in an order of its own; here they come in the order in
    which their keys first appear. *)
Definition groupBy (df : list Raw.Row) : list (Key * list Raw.Row) :=
  map (fun k => (k, group k df)) (Spark.distinct key_eqb (map Raw.key df)).

Definition agg (g : Key * list Raw.Row) : DailySummary :=
  let rows := snd g in
  {| ticker := fst (fst g);
     data := snd (fst g);
     volume_total_diario := Spark.sum_long (map Raw.volume_negociado rows);
     preco_medio_fechamento := Spark.avg (map Raw.preco_fechamento rows);
     contagem_registros := Spark.count rows;
     preco_abertura := Spark.first Raw.preco_abertura rows;
     preco_maximo := Spark.max (map Raw.preco_maximo rows);
     preco_minimo := Spark.min (map Raw.preco_minimo rows);
     preco_fechamento := Spark.last Raw.preco_fechamento rows;
     dividendos := Spark.sum_double (map Raw.dividendos rows);
     ticker_completo := Spark.first Raw.ticker_completo rows |}.

Definition calculate_aggregations (df : list Raw.Row) : list DailySummary :=
  map agg (groupBy df).

(** A well-formed raw row: the four prices are present and
    [low <= open, close <= high]. *)
Definition well_formed (r : Raw.Row) : bool :=
  match Raw.preco_minimo r, Raw.preco_abertura r,
        Raw.preco_fechamento r, Raw.preco_maximo r with
  | Some lo, Some op, Some cl, Some hi =>
      Spark.Qcleb lo op && Spark.Qcleb op hi
      && Spark.Qcleb lo cl && Spark.Qcleb cl hi
  | _, _, _, _ => false
  end.

(** ** Window Metrics Engine: [calculate_date_based_metrics] *)

(** [orderBy('data')] inside a partition: a stable insertion sort. *)
Fixpoint insert_by_data (r : DailySummary) (l : list DailySummary)
    : list DailySummary :=
  match l with
  | [] => [r]
  | x :: l' =>
      if data_leb (data r) (data x) then r :: l else x :: insert_by_data r l'
  end.

Definition orderBy_data (l : list DailySummary) : list DailySummary :=
  fold_right insert_by_data [] l.

(** [partitionBy('ticker').orderBy('data')]: the date-ascending sequence of
    the rows of one ticker. *)
Definition ticker_sequence (t : option string) (df : list DailySummary)
    : list DailySummary :=
  orderBy_data (filter (fun r => ticker_eqb (ticker r) t) df).

Definition hundred : Qc := Q2Qc (inject_Z 100).

(** The four [withColumn] steps on the row at position [i] of a partition:
    [window_7d] is [rowsBetween(-6, 0)], [window_ticker] feeds [F.lag] and
    [window_all] is the whole partition. *)
Definition metrics_at (part : list DailySummary) (i : nat) (r : DailySummary)
    : MetricsRow :=
  let preco_fechamento_anterior := Spark.lag preco_fechamento 1 part i in
  {| summary := r;
     media_movel_7d :=
       Spark.avg (map preco_fechamento (Spark.rowsBetween (-6) 0 part i));
     variacao_percentual_diaria :=
       Spark.when_otherwise (Spark.isNotNull preco_fechamento_anterior)
         (Spark.mul
            (Spark.div (Spark.sub (preco_fechamento r) preco_fechamento_anterior)
                       preco_fechamento_anterior)
            (Some hundred))
         (Some 0%Qc);
     maxima_periodo := Spark.max (map preco_maximo part);
     minima_periodo := Spark.min (map preco_minimo part) |}.

Definition partition_metrics (part : list DailySummary) : list MetricsRow :=
  map (fun ir => metrics_at part (fst ir) (snd ir)) (Spark.indexed part).

Definition calculate_date_based_metrics (df : list DailySummary)
    : list MetricsRow :=
  flat_map (fun t => partition_metrics (ticker_sequence t df))
           (Spark.distinct ticker_eqb (map ticker df)).

(** Two consecutive rows of a date-ascending sequence. *)
Definition ascending (a b : DailySummary) : Prop :=
  data_leb (data a) (data b) = true.

(** The rows of a ticker in the input of the window stage, as the input
    has them. *)
Definition input_rows_of_ticker (t : option string) (df : list DailySummary)
    : list DailySummary :=
  filter (fun r => ticker_eqb (ticker r) t) df.

(** [s] is a date-ascending sequence of the rows of the ticker [t] in
    [df]: it holds these rows, each as often as [df] does, and no row of it
    has a later date than a row after it. *)
Definition date_ascending_sequence_of (t : option string)
    (df : list DailySummary) (s : list DailySummary) : Prop :=
  StronglySorted ascending s /\ Permutation s (input_rows_of_ticker t df).

(** The output rows of one ticker, in output order. *)
Definition rows_of_ticker (t : option string) (out : list MetricsRow)
    : list MetricsRow :=
  filter (fun m => ticker_eqb (ticker (summary m)) t) out.

(** ** Partition columns: [add_partition_columns] *)

Definition digit (n : nat) : ascii := ascii_of_nat (48 + n mod 10).

(** [n] in decimal, on [width] digits, padded with zeros. *)
Fixpoint pad (width n : nat) : string :=
  match width with
  | 0 => EmptyString
  | S w => append (pad w (n / 10)) (String (digit n) EmptyString)
  end.

(** [F.date_format(d, 'yyyy-MM-dd')]. *)
Definition date_format (d : Date) : string :=
  append (pad 4 (Z.to_nat (year d)))
    (append "-" (append (pad 2 (Z.to_nat (month d)))
       (append "-" (pad 2 (Z.to_nat (day d)))))).

Definition leap_year (y : Z) : bool :=
  (y mod 4 =? 0)%Z && (negb (y mod 100 =? 0)%Z || (y mod 400 =? 0)%Z).

Definition days_in_month (y m : Z) : Z :=
  if (m =? 2)%Z then (if leap_year y then 29 else 28)%Z
  else if (m =? 4)%Z || (m =? 6)%Z || (m =? 9)%Z || (m =? 11)%Z then 30%Z
  else 31%Z.

(** A date of the calendar, of the years 0001 to 9999. *)
Definition valid_date (d : Date) : bool :=
  (1 <=? year d)%Z && (year d <=? 9999)%Z
  && (1 <=? month d)%Z && (month d <=? 12)%Z
  && (1 <=? day d)%Z && (day d <=? days_in_month (year d) (month d))%Z.

Definition valid_data (d : option Date) : bool :=
  match d with Some x => valid_date x | None => true end.

(** The cast that [F.date_format], [F.year], [F.month] and [F.dayofmonth]
    apply to the column [data]: [NULL] for what is no date of the calendar
    (the thirtieth of February). *)
Definition cast_date (d : option Date) : option Date :=
  match d with
  | Some x => if valid_date x then Some x else None
  | None => None
  end.

Definition add_partition_columns (df : list MetricsRow) : list PartitionedRow :=
  map (fun m =>
         let d := cast_date (data (summary m)) in
         {| metrics := m;
            data_particao := option_map date_format d;
            ano := option_map year d;
            mes := option_map month d;
            dia := option_map day d |}) df.

(** ** Quality Annotator: [add_quality_columns] *)

Definition is_valid (s : DailySummary) : bool :=
  Spark.when_otherwise
    (Spark.and3
       (Spark.and3 (Spark.isNotNull (preco_fechamento s))
                   (Spark.isNotNull (volume_total_diario s)))
       (Spark.gt (preco_fechamento s) (Some 0%Qc)))
    true false.

(** [now] is the value of [F.current_timestamp()] in the run. *)
Definition add_quality_columns (now : Z) (df : list PartitionedRow)
    : list EnrichedRow :=
  map (fun p =>
         {| partitioned := p;
            data_processamento := now;
            dados_validos := is_valid (summary (metrics p)) |}) df.

(** The stages of [main] between the read and the write. *)
Definition transform (now : Z) (df : list Raw.Row) : list EnrichedRow :=
  add_quality_columns now
    (add_partition_columns
       (calculate_date_based_metrics (calculate_aggregations df))).

(** The output row of a key, if there is one. *)
Definition row_of_key (k : Key) (out : list EnrichedRow) : option EnrichedRow :=
  find (fun r => key_eqb (key (enriched_summary r)) k) out.

(** What [add_partition_columns] and [add_quality_columns] make of a row
    of metrics in a run at time [now]. *)
Definition enrich (now : Z) (m : MetricsRow) : EnrichedRow :=
  {| partitioned :=
       {| metrics := m;
          data_particao :=
            option_map date_format (cast_date (data (summary m)));
          ano := option_map year (cast_date (data (summary m)));
          mes := option_map month (cast_date (data (summary m)));
          dia := option_map day (cast_date (data (summary m))) |};
     data_processamento := now;
     dados_validos := is_valid (summary m) |}.

(** Two output rows agree on the fields that do not depend on the order of
    the rows inside a group, nor on the time of the run: the key, the
    total volume (a sum of integers), the count, the extremes of the day
    and of the period, and the partition columns.  The mean close and the
    sum of the dividends are sums of doubles, which the engine adds in the
    order of the rows: they are not among these fields. *)
Definition agree_order_independent (r1 r2 : EnrichedRow) : Prop :=
  let s1 := enriched_summary r1 in
  let s2 := enriched_summary r2 in
  ticker s1 = ticker s2
  /\ data s1 = data s2
  /\ volume_total_diario s1 = volume_total_diario s2
  /\ contagem_registros s1 = contagem_registros s2
  /\ preco_maximo s1 = preco_maximo s2
  /\ preco_minimo s1 = preco_minimo s2
  /\ maxima_periodo (metrics (partitioned r1))
     = maxima_periodo (metrics (partitioned r2))
  /\ minima_periodo (metrics (partitioned r1))
     = minima_periodo (metrics (partitioned r2))
  /\ data_particao (partitioned r1) = data_particao (partitioned r2)
  /\ ano (partitioned r1) = ano (partitioned r2)
  /\ mes (partitioned r1) = mes (partitioned r2)
  /\ dia (partitioned r1) = dia (partitioned r2).

(** Two output rows agree on every field but the representative picks
    ([preco_abertura], [preco_fechamento], [ticker_completo]). *)
Definition agree_non_representative (r1 r2 : EnrichedRow) : Prop :=
  agree_order_independent r1 r2
  /\ preco_medio_fechamento (enriched_summary r1)
     = preco_medio_fechamento (enriched_summary r2)
  /\ dividendos (enriched_summary r1) = dividendos (enriched_summary r2)
  /\ media_movel_7d (metrics (partitioned r1))
     = media_movel_7d (metrics (partitioned r2))
  /\ variacao_percentual_diaria (metrics (partitioned r1))
     = variacao_percentual_diaria (metrics (partitioned r2))
  /\ data_processamento r1 = data_processamento r2
  /\ dados_validos r1 = dados_validos r2.

(** ** Schema Normalizer: [rename_columns] *)

Module Normalizer.

(** A DataFrame as its column names and its rows; a rename leaves the rows
    alone. *)
Record DataFrame (R : Type) := mkDataFrame {
  columns : list string;
  rows : list R
}.
Arguments mkDataFrame {R} _ _.
Arguments columns {R} _.
Arguments rows {R} _.

Definition column_mapping : list (string * string) :=
  [ ("Fechamento", "preco_fechamento");
    ("Volume", "volume_negociado");
    ("Abertura", "preco_abertura");
    ("Maxima", "preco_maximo");
    ("Minima", "preco_minimo");
    ("Data", "data");
    ("Ticker", "ticker");
    ("TickerCompleto", "ticker_completo");
    ("Dividendos", "dividendos");
    ("Desdobramentos", "desdobramentos");
    ("Ano", "ano");
    ("Mes", "mes");
    ("Dia", "dia") ]%string.

(** [df.withColumnRenamed(old, new)]: every column called [old] is called
    [new] afterwards; a no-op when there is none.  Names are compared as
    [old_name in df.columns] compares them, letter for letter: a frame read
    from storage has no two columns that differ by case only. *)
Definition withColumnRenamed {R : Type} (old_name new_name : string)
    (df : DataFrame R) : DataFrame R :=
  {| columns := map (fun c => if String.eqb c old_name then new_name else c)
                    (columns df);
     rows := rows df |}.

(** One iteration of the loop over the table. *)
Definition rename_step {R : Type} (df : DataFrame R) (entry : string * string)
    : DataFrame R :=
  if existsb (String.eqb (fst entry)) (columns df)
  then withColumnRenamed (fst entry) (snd entry) df
  else df.

(** The loop, over a table given in the order of iteration. *)
Definition rename_with {R : Type} (table : list (string * string))
    (df : DataFrame R) : DataFrame R :=
  fold_left rename_step table df.

Definition rename_columns {R : Type} (df : DataFrame R) : DataFrame R :=
  rename_with column_mapping df.

(** The canonical name of a field: the entry of the table for it when it
    is a known source name, the name itself otherwise. *)
Fixpoint canonical_in (table : list (string * string)) (c : string) : string :=
  match table with
  | [] => c
  | (old_name, new_name) :: table' =>
      if String.eqb c old_name then new_name else canonical_in table' c
  end.

Definition canonical_name : string -> string := canonical_in column_mapping.

(** A rename table whose source names are distinct and whose canonical
    names are not source names. *)
Definition clean (table : list (string * string)) : Prop :=
  NoDup (map fst table)
  /\ forall e, In e table -> ~ In (snd e) (map fst table).

End Normalizer.

(** ** The job: [main] and the calls to the outside *)

Module Job.

Import Normalizer.

(** An exception, by its message. *)
Definition exn : Type := string.

Inductive result (A : Type) : Type :=
| Ok (a : A)
| Raise (e : exn).
Arguments Ok {A} _.
Arguments Raise {A} _.

(** What the job prints. *)
Inductive event : Type :=
| ReadSpecific (n : Z)
| ReadSpecificError (e : exn)
| ReadRawFolder (n : Z)
| Written
| CatalogRegistered
| CatalogWarning (e : exn)
| Success (total : Z)
| Failure (e : exn).

(** The outside world during one run: the outcome of each call that leaves
    the job ([None] for a call that returns normally). *)
Record World := mkWorld {
  read_input : result (DataFrame Raw.Row);
  read_raw_folder : result (DataFrame Raw.Row);
  write_parquet : option exn;
  write_catalog : option exn;
  collect_statistics : option exn;
  job_commit : option exn;
  current_timestamp : Z
}.

(** Computations that print and may raise. *)
Definition M (A : Type) : Type := list event -> list event * result A.

Definition ret {A : Type} (a : A) : M A := fun out => (out, Ok a).

Definition raise {A : Type} (e : exn) : M A := fun out => (out, Raise e).

Definition bind {A B : Type} (m : M A) (f : A -> M B) : M B :=
  fun out =>
    match m out with
    | (out', Ok a) => f a out'
    | (out', Raise e) => (out', Raise e)
    end.

Definition print (ev : event) : M unit := fun out => (out ++ [ev], Ok tt).

Definition of_result {A : Type} (r : result A) : M A := fun out => (out, r).

Definition call (outcome : option exn) : M unit :=
  match outcome with None => ret tt | Some e => raise e end.

(** [try: m except Exception as e: handler e]. *)
Definition try_except {A : Type} (m : M A) (handler : exn -> M A) : M A :=
  fun out =>
    match m out with
    | (out', Raise e) => handler e out'
    | r => r
    end.

(** [try: m finally: cleanup]: an exception of [cleanup] replaces the
    outcome of [m]. *)
Definition try_finally {A : Type} (m : M A) (cleanup : M unit) : M A :=
  fun out =>
    match m out with
    | (out', r) =>
        match cleanup out' with
        | (out'', Ok _) => (out'', r)
        | (out'', Raise e) => (out'', Raise e)
        end
    end.

Notation "x <- m ;; k" := (bind m (fun x => k))
  (at level 61, m at next level, right associativity).
Notation "m ;;; k" := (bind m (fun _ => k))
  (at level 61, right associativity).

Definition read_raw_data (w : World) : M (DataFrame Raw.Row) :=
  try_except
    (df <- of_result (read_input w) ;;
     print (ReadSpecific (Spark.count (rows df))) ;;;
     ret df)
    (fun e =>
       print (ReadSpecificError e) ;;;
       df <- of_result (read_raw_folder w) ;;
       print (ReadRawFolder (Spark.count (rows df))) ;;;
       ret df).

(** The columns that [calculate_aggregations] names. *)
Definition aggregated_columns : list string :=
  [ "ticker"; "data"; "volume_negociado"; "preco_fechamento";
    "preco_abertura"; "preco_maximo"; "preco_minimo"; "dividendos";
    "ticker_completo" ]%string.

(** The small letter of a capital letter [A] to [Z]. *)
Definition lower_ascii (c : ascii) : ascii :=
  let n := nat_of_ascii c in
  if (65 <=? n) && (n <=? 90) then ascii_of_nat (n + 32) else c.

Fixpoint lower (s : string) : string :=
  match s with
  | EmptyString => EmptyString
  | String c s' => String (lower_ascii c) (lower s')
  end.

(** Two names are the same to the engine: it compares the names of columns
    without regard to the case of the letters (the default of
    [spark.sql.caseSensitive]). *)
Definition same_name (a b : string) : bool := String.eqb (lower a) (lower b).

(** The engine resolves the name [c] in a frame when exactly one column of
    the frame has that name; it refuses a name that no column has, and a
    name that two columns have (an ambiguous reference). *)
Definition resolves {R : Type} (df : DataFrame R) (c : string) : bool :=
  match filter (same_name c) (columns df) with
  | [_] => true
  | _ => false
  end.

(** The aggregation is analysed when it is built: the engine refuses it
    unless every column that it names resolves. *)
Definition aggregate_frame (df : DataFrame Raw.Row) : M (list DailySummary) :=
  if forallb (resolves df) aggregated_columns
  then ret (calculate_aggregations (rows df))
  else raise "AnalysisException: cannot resolve column"%string.

Definition write_to_refined (w : World) (df : list EnrichedRow) : M unit :=
  call (write_parquet w) ;;; print Written.

Definition register_in_catalog (w : World) (df : list EnrichedRow) : M unit :=
  try_except
    (call (write_catalog w) ;;; print CatalogRegistered)
    (fun e => print (CatalogWarning e)).

Definition create_summary_statistics (w : World) (df : list EnrichedRow)
    : M Z :=
  call (collect_statistics w) ;;; ret (Spark.count df).

Definition main (w : World) : M unit :=
  try_finally
    (try_except
       (raw_df <- read_raw_data w ;;
        let renamed_df := rename_columns raw_df in
        agg_df <- aggregate_frame renamed_df ;;
        let metrics_df := calculate_date_based_metrics agg_df in
        let partitioned_df := add_partition_columns metrics_df in
        let final_df :=
          add_quality_columns (current_timestamp w) partitioned_df in
        write_to_refined w final_df ;;;
        register_in_catalog w final_df ;;;
        total_records <- create_summary_statistics w final_df ;;
        print (Success total_records))
       (fun e => print (Failure e) ;;; raise e))
    (call (job_commit w)).

(** The run of the job from an empty output. *)
Definition run (w : World) : list event * result unit := main w [].

Definition outcome (w : World) : result unit := snd (run w).
Definition printed (w : World) : list event := fst (run w).

Definition reports_success (w : World) : Prop :=
  outcome w = Ok tt /\ exists total, In (Success total) (printed w).

(** The run gets as far as the write: the read (or its fallback) returns
    and the columns of the aggregation resolve in the frame. *)
Definition reaches_write (w : World) : Prop :=
  exists df out,
    read_raw_data w [] = (out, Ok df)
    /\ forallb (resolves (rename_columns df)) aggregated_columns = true.

Definition with_catalog (c : option exn) (w : World) : World :=
  {| read_input := read_input w;
     read_raw_folder := read_raw_folder w;
     write_parquet := write_parquet w;
     write_catalog := c;
     collect_statistics := collect_statistics w;
     job_commit := job_commit w;
     current_timestamp := current_timestamp w |}.

End Job.

(** ** The vocabulary of the specification *)

Module Stat.

Definition total (l : list Qc) : Qc := fold_right Qcplus 0%Qc l.

Definition totalZ (l : list Z) : Z := fold_right Z.add 0%Z l.

(** The arithmetic mean of a list of values; there is none of no value. *)
Definition mean (l : list Qc) : option Qc :=
  match l with
  | [] => None
  | _ :: _ => Some (total l / Spark.of_count (length l))%Qc
  end.

(** The elements at positions [lo] through [hi] (both included). *)
Definition slice {A : Type} (lo hi : nat) (l : list A) : list A :=
  firstn (hi + 1 - lo) (skipn lo l).

(** [m] is the maximum of the values [l] (no maximum of no value). *)
Definition is_maximum (m : option Qc) (l : list Qc) : Prop :=
  match m with
  | None => l = []
  | Some x => In x l /\ Forall (fun y => (y <= x)%Qc) l
  end.

Definition is_minimum (m : option Qc) (l : list Qc) : Prop :=
  match m with
  | None => l = []
  | Some x => In x l /\ Forall (fun y => (x <= y)%Qc) l
  end.

(** [(close - previous) / previous * 100] in the arithmetic of the
    engine. *)
Definition pct_change (close previous : option Qc) : option Qc :=
  Spark.mul (Spark.div (Spark.sub close previous) previous) (Some hundred).

(** The sum of the values that are present; [NULL] when none is. *)
Definition sum_present (l : list (option Qc)) : option Qc :=
  match Spark.non_null l with [] => None | vs => Some (total vs) end.

Definition sumZ_present (l : list (option Z)) : option Z :=
  match Spark.non_null l with [] => None | vs => Some (totalZ vs) end.

(** The same sum as a value of 64 bits: the sum itself when it is one. *)
Definition sum64_present (l : list (option Z)) : option Z :=
  option_map Spark.wrap64 (sumZ_present l).

(** The volume of a set of raw rows: the sum of the volumes present. *)
Definition volume_of (rows : list Raw.Row) : Z :=
  totalZ (Spark.non_null (map Raw.volume_negociado rows)).

End Stat.

(** ** Sample data *)

Module Sample.

Import Normalizer Job.

Definition cents (n : Z) : Qc := Q2Qc (n # 100).

(** A daily row of a ticker in January 2024 whose prices are all [close]
    (in cents); no close makes the prices null. *)
Definition daily (t : string) (d : Z) (close : option Z) : DailySummary :=
  {| ticker := Some t;
     data := Some (mkDate 2024 1 d);
     volume_total_diario := Some 1000%Z;
     preco_medio_fechamento := option_map cents close;
     contagem_registros := 1;
     preco_abertura := option_map cents close;
     preco_maximo := option_map cents close;
     preco_minimo := option_map cents close;
     preco_fechamento := option_map cents close;
     dividendos := Some 0%Qc;
     ticker_completo := Some (append t ".SA") |}.

(** Eight trading days of [XYZ4], with a gap in the calendar after the
    fifth, given out of order and mixed with three days of [ABCD3], the
    second of which has no close. *)
Definition days : list DailySummary :=
  [ daily "XYZ4" 3 (Some 980%Z);
    daily "ABCD3" 2 None;
    daily "XYZ4" 1 (Some 1000%Z);
    daily "XYZ4" 2 (Some 1050%Z);
    daily "ABCD3" 3 (Some 1200%Z);
    daily "XYZ4" 10 (Some 1110%Z);
    daily "XYZ4" 4 (Some 1100%Z);
    daily "XYZ4" 5 (Some 1090%Z);
    daily "ABCD3" 1 (Some 1000%Z);
    daily "XYZ4" 8 (Some 1095%Z);
    daily "XYZ4" 9 (Some 1120%Z) ]%string.

Definition xyz4 : option string := Some "XYZ4"%string.
Definition abcd3 : option string := Some "ABCD3"%string.

Definition raw (t : string) (d : Z) (op hi lo cl : Z) (vol : Z) : Raw.Row :=
  {| Raw.ticker := Some t;
     Raw.data := Some (mkDate 2024 1 d);
     Raw.preco_abertura := Some (cents op);
     Raw.preco_maximo := Some (cents hi);
     Raw.preco_minimo := Some (cents lo);
     Raw.preco_fechamento := Some (cents cl);
     Raw.volume_negociado := Some vol;
     Raw.dividendos := Some 0%Qc;
     Raw.ticker_completo := Some (append t ".SA") |}.

(** Two records of [PETR4] for the same day, the second closing at zero,
    and one record of [VALE3]. *)
Definition petr4_morning : Raw.Row := raw "PETR4" 2 1000 1200 900 1100 500.
Definition petr4_evening : Raw.Row := raw "PETR4" 2 0 1300 0 0 700.
Definition vale3 : Raw.Row := raw "VALE3" 2 6000 6100 5900 6050 300.

Definition petr4_key : Key := (Some "PETR4"%string, Some (mkDate 2024 1 2)).

Definition records : list Raw.Row := [petr4_morning; petr4_evening; vale3].

(** The same records, exposed in another order. *)
Definition records_reordered : list Raw.Row :=
  [petr4_evening; petr4_morning; vale3].

(** Two records of one day whose volumes are longs and add up to [2^63],
    one more than the greatest long. *)
Definition overflowing : list Raw.Row :=
  [ raw "PETR4" 2 1000 1200 900 1100 9223372036854775807;
    raw "PETR4" 2 1100 1200 900 1150 1 ].

Definition raw_columns : list string :=
  [ "Data"; "Ticker"; "TickerCompleto"; "Nome"; "Abertura"; "Maxima";
    "Minima"; "Fechamento"; "Volume"; "Dividendos"; "Desdobramentos";
    "Participacao_IBOV"; "Ano"; "Mes"; "Dia" ]%string.

Definition raw_frame : DataFrame Raw.Row :=
  {| columns := raw_columns; rows := records |}.

(** A run in which every call to the outside returns. *)
Definition calm : World :=
  {| read_input := Ok raw_frame;
     read_raw_folder := Ok raw_frame;
     write_parquet := None;
     write_catalog := None;
     collect_statistics := None;
     job_commit := None;
     current_timestamp := 1730000000 |}.

(** A run in which the write and the registration return and the
    statistics that follow raise. *)
Definition statistics_fail : World :=
  {| read_input := Ok raw_frame;
     read_raw_folder := Ok raw_frame;
     write_parquet := None;
     write_catalog := None;
     collect_statistics := Some "Job aborted due to stage failure"%string;
     job_commit := None;
     current_timestamp := 1730000000 |}.

End Sample.

(** ** Further definitions *)

(** What the aggregation makes of a key that has one record: the record
    itself, counted once, its close being the mean of the closes. *)
Definition of_record (r : Raw.Row) : DailySummary :=
  {| ticker := Raw.ticker r;
     data := Raw.data r;
     volume_total_diario := Raw.volume_negociado r;
     preco_medio_fechamento := Raw.preco_fechamento r;
     contagem_registros := 1;
     preco_abertura := Raw.preco_abertura r;
     preco_maximo := Raw.preco_maximo r;
     preco_minimo := Raw.preco_minimo r;
     preco_fechamento := Raw.preco_fechamento r;
     dividendos := Raw.dividendos r;
     ticker_completo := Raw.ticker_completo r |}.

(** The volume of a record is a value of its column, a long. *)
Definition long_volume (r : Raw.Row) : Prop :=
  match Raw.volume_negociado r with
  | Some v => Spark.is_long v
  | None => True
  end.

(** The two columns that the write partitions by
    ([partitionBy('data_particao', 'ticker')]), in a row. *)
Definition partition_of (r : EnrichedRow) : option string * option string :=
  (data_particao (partitioned r), ticker (enriched_summary r)).

(** The outside world of a run in which the first read gives [r]. *)
Definition with_read_input (r : Job.result (Normalizer.DataFrame Raw.Row))
    (w : Job.World) : Job.World :=
  {| Job.read_input := r;
     Job.read_raw_folder := Job.read_raw_folder w;
     Job.write_parquet := Job.write_parquet w;
     Job.write_catalog := Job.write_catalog w;
     Job.collect_statistics := Job.collect_statistics w;
     Job.job_commit := Job.job_commit w;
     Job.current_timestamp := Job.current_timestamp w |}.

(** The error of the engine when the aggregation names a column that does
    not resolve in the frame. *)
Definition analysis_exception : Job.exn :=
  "AnalysisException: cannot resolve column"%string.

(** What the [finally] of [main] makes of the outcome of its body. *)
Definition after_commit (w : Job.World) (printed : list Job.event)
    (r : Job.result unit) : list Job.event * Job.result unit :=
  match Job.job_commit w with
  | None => (printed, r)
  | Some e => (printed, Job.Raise e)
  end.

(** The body of [main] from the write on, for [total] rows. *)
Definition after_aggregation (w : Job.World) (out : list Job.event)
    (total : Z) : list Job.event * Job.result unit :=
  match Job.write_parquet w with
  | Some e => after_commit w (out ++ [Job.Failure e]) (Job.Raise e)
  | None =>
      let noted :=
        match Job.write_catalog w with
        | None => Job.CatalogRegistered
        | Some e => Job.CatalogWarning e
        end in
      match Job.collect_statistics w with
      | Some e =>
          after_commit w (out ++ [Job.Written; noted; Job.Failure e])
            (Job.Raise e)
      | None =>
          after_commit w (out ++ [Job.Written; noted; Job.Success total])
            (Job.Ok tt)
      end
  end.

(** The columns that the aggregation names resolve in the frame, once it
    is renamed. *)
Definition schema_ok (df : Normalizer.DataFrame Raw.Row) : bool :=
  forallb (Job.resolves (Normalizer.rename_columns df))
          Job.aggregated_columns.

(** The column [n] of a file stands for the column [c] of the aggregation:
    its name is [c], whatever the case of its letters, or is the source
    name that the rename table maps to [c]. *)
Definition stands_for (c n : string) : bool :=
  Job.same_name c n
  || existsb (fun e => String.eqb n (fst e) && String.eqb (snd e) c)
             Normalizer.column_mapping.

(** The names of the columns of a frame that is read from storage: no two
    of them differ by the case of their letters only. *)
Definition case_distinct (names : list string) : Prop :=
  NoDup (map Job.lower names).

(** A success, respectively a failure, is among what a run printed. *)
Definition printed_success (w : Job.World) : Prop :=
  exists total, In (Job.Success total) (Job.printed w).

Definition printed_failure (w : Job.World) : Prop :=
  exists e, In (Job.Failure e) (Job.printed w).

(** More sample data: records with one record per ticker and day, a frame
    whose volume column is missing, and two more runs. *)
Module Sample2.

Import Normalizer Job Sample.

Definition single_records : list Raw.Row := [petr4_morning; vale3].
Definition single_records_reordered : list Raw.Row := [vale3; petr4_morning].

Definition frame_without_volume : DataFrame Raw.Row :=
  {| columns :=
       [ "Data"; "Ticker"; "TickerCompleto"; "Abertura"; "Maxima"; "Minima";
         "Fechamento"; "Dividendos" ]%string;
     rows := records |}.

(** A frame whose ticker column is written in capitals, and a frame that
    has its volume under both the source name and the canonical name. *)
Definition frame_in_capitals : DataFrame Raw.Row :=
  {| columns :=
       [ "Data"; "TICKER"; "TickerCompleto"; "Abertura"; "Maxima"; "Minima";
         "Fechamento"; "Volume"; "Dividendos" ]%string;
     rows := records |}.

Definition frame_with_two_volumes : DataFrame Raw.Row :=
  {| columns :=
       [ "Data"; "Ticker"; "TickerCompleto"; "Abertura"; "Maxima"; "Minima";
         "Fechamento"; "Volume"; "volume_negociado"; "Dividendos" ]%string;
     rows := records |}.

(** A run whose input file cannot be read, the raw folder can. *)
Definition file_missing : World :=
  {| read_input := Raise "Path does not exist"%string;
     read_raw_folder := Ok raw_frame;
     write_parquet := None;
     write_catalog := None;
     collect_statistics := None;
     job_commit := None;
     current_timestamp := 1730000000 |}.

(** A run on a frame that has no volume column. *)
Definition drifted : World :=
  {| read_input := Ok frame_without_volume;
     read_raw_folder := Ok raw_frame;
     write_parquet := None;
     write_catalog := None;
     collect_statistics := None;
     job_commit := None;
     current_timestamp := 1730000000 |}.

End Sample2.

(** ** The trigger of the job: [lambda/trigger_glue_job.py] *)

Module Trigger.

(** *** Text operations of the handler *)

(** [s.startswith(p)]. *)
Definition startswith (s p : string) : bool := String.prefix p s.

(** [s.endswith(p)]. *)
Definition endswith (s p : string) : bool :=
  (String.length p <=? String.length s)
  && String.eqb
       (substring (String.length s - String.length p) (String.length p) s) p.

(** [c in s], for a character. *)
Fixpoint contains (c : ascii) (s : string) : bool :=
  match s with
  | EmptyString => false
  | String x s' => Ascii.eqb x c || contains c s'
  end.

(** [s.split(c)]: the pieces of [s] between the occurrences of [c]. *)
Fixpoint split (c : ascii) (s : string) : list string :=
  match s with
  | EmptyString => [EmptyString]
  | String x s' =>
      if Ascii.eqb x c then EmptyString :: split c s'
      else match split c s' with
           | [] => [String x EmptyString]
           | piece :: pieces => String x piece :: pieces
           end
  end.

(** [s.split(c, 1)] for an [s] that holds [c]: what stands before the first
    [c] and what stands after it. *)
Fixpoint split_first (c : ascii) (s : string) : option (string * string) :=
  match s with
  | EmptyString => None
  | String x s' =>
      if Ascii.eqb x c then Some (EmptyString, s')
      else match split_first c s' with
           | Some (before, after) => Some (String x before, after)
           | None => None
           end
  end.

(** *** Data *)

(** A record of the S3 event, each field with the default that the
    handler's [.get] gives it when it is absent; the key is as the event
    carries it, before [unquote_plus]. *)
Record S3Record := mkS3Record {
  eventName : string;
  bucket_name : string;
  object_key : string
}.

(** The environment of the function. *)
Record Config := mkConfig {
  GLUE_JOB_NAME : string;
  OUTPUT_BUCKET : string;
  OUTPUT_PREFIX : string;
  DATABASE_NAME : string
}.

(** The dictionary that [extract_partition_info] fills: its keys are among
    [ano], [mes] and [dia]. *)
Record PartitionInfo := mkPartitionInfo {
  ano : option string;
  mes : option string;
  dia : option string
}.

Definition no_partition : PartitionInfo :=
  {| ano := None; mes := None; dia := None |}.

(** The truth value of the dictionary: false when it is empty. *)
Definition nonempty (info : PartitionInfo) : bool :=
  match ano info, mes info, dia info with
  | None, None, None => false
  | _, _, _ => true
  end.

(** [partition_info[key] = value], for the keys that the loop keeps. *)
Definition assign (info : PartitionInfo) (key value : string)
    : PartitionInfo :=
  if String.eqb key "ano" then
    {| ano := Some value; mes := mes info; dia := dia info |}
  else if String.eqb key "mes" then
    {| ano := ano info; mes := Some value; dia := dia info |}
  else if String.eqb key "dia" then
    {| ano := ano info; mes := mes info; dia := Some value |}
  else info.

(** The body of the loop over the parts of the key. *)
Definition scan_part (info : PartitionInfo) (part : string) : PartitionInfo :=
  if contains "=" part then
    match split_first "=" part with
    | Some (key, value) => assign info key value
    | None => info
    end
  else info.

Definition extract_partition_info (object_key : string)
    : option PartitionInfo :=
  let partition_info := fold_left scan_part (split "/" object_key) no_partition in
  if nonempty partition_info then Some partition_info else None.

(** The arguments of a run of the job, in the order of the dictionary. *)
Definition Arguments : Type := list (string * string).

Fixpoint lookup (name : string) (arguments : Arguments) : option string :=
  match arguments with
  | [] => None
  | (n, v) :: rest => if String.eqb n name then Some v else lookup name rest
  end.

(** [str(partition_info.get(key, ''))]. *)
Definition text_of (value : option string) : string :=
  match value with Some v => v | None => EmptyString end.

Definition job_arguments (cfg : Config) (bucket key : string) : Arguments :=
  let output_bucket :=
    if String.eqb (OUTPUT_BUCKET cfg) "" then bucket else OUTPUT_BUCKET cfg in
  [ ("--input_bucket", bucket);
    ("--input_key", key);
    ("--output_bucket", output_bucket);
    ("--output_prefix", OUTPUT_PREFIX cfg);
    ("--database_name", DATABASE_NAME cfg);
    ("--source_file", append "s3://" (append bucket (append "/" key))) ]%string
  ++ match extract_partition_info key with
     | Some info =>
         [ ("--ano", text_of (ano info));
           ("--mes", text_of (mes info));
           ("--dia", text_of (dia info)) ]%string
     | None => []
     end.

(** A call of [start_job_run]: the name of the job and its arguments. *)
Definition Call : Type := string * Arguments.

(** What the Glue service answers to a call. *)
Inductive answer : Type :=
| RunStarted (job_run_id : string)
| EntityNotFoundException (message : string)
| ConcurrentRunsExceededException (message : string)
| OtherException (message : string).

Inductive result (A : Type) : Type :=
| Ok (a : A)
| Raise (e : string).
Arguments Ok {A} _.
Arguments Raise {A} _.

Record JobStart := mkJobStart {
  job_name : string;
  job_run_id : option string;
  status : string
}.

Definition start_glue_job (reply : answer) (name : string) : result JobStart :=
  match reply with
  | RunStarted id =>
      Ok {| job_name := name; job_run_id := Some id; status := "STARTED" |}
  | EntityNotFoundException e => Raise e
  | ConcurrentRunsExceededException _ =>
      Ok {| job_name := name; job_run_id := None;
            status := "ALREADY_RUNNING" |}
  | OtherException e => Raise e
  end.

Record Response := mkResponse {
  statusCode : Z;
  message : string;
  glue_job : string
}.

Section Handler.

(** [urllib.parse.unquote_plus], and the Glue service, whose answer to a
    call may depend on the calls made before. *)
Variable unquote_plus : string -> string.
Variable glue : list Call -> Call -> answer.
Variable cfg : Config.

(** The two tests that let a record through to the job. *)
Definition is_creation (r : S3Record) : bool :=
  startswith (eventName r) "ObjectCreated".

Definition is_raw_parquet (key : string) : bool :=
  startswith key "raw/" && endswith key ".parquet".

Definition call_of (r : S3Record) : Call :=
  (GLUE_JOB_NAME cfg,
   job_arguments cfg (bucket_name r) (unquote_plus (object_key r))).

(** The loop over the records: the calls made so far, and the exception
    that ended the loop if one did. *)
Fixpoint process (records : list S3Record) (calls : list Call)
    : list Call * option string :=
  match records with
  | [] => (calls, None)
  | record :: rest =>
      if negb (is_creation record) then process rest calls
      else
        let object_key := unquote_plus (object_key record) in
        if negb (startswith object_key "raw/")
           || negb (endswith object_key ".parquet")
        then process rest calls
        else
          let call := call_of record in
          match start_glue_job (glue calls call) (GLUE_JOB_NAME cfg) with
          | Ok _ => process rest (calls ++ [call])
          | Raise e => (calls ++ [call], Some e)
          end
  end.

(** The handler, for the records of an event: the calls it made to the
    service, and its response or the exception it raised. *)
Definition lambda_handler (records : list S3Record)
    : list Call * result Response :=
  match process records [] with
  | (calls, None) =>
      (calls,
       Ok {| statusCode := 200;
             message := "Processamento concluído com sucesso";
             glue_job := GLUE_JOB_NAME cfg |})
  | (calls, Some e) => (calls, Raise e)
  end.

(** A record that the handler hands to the job. *)
Definition eligible (r : S3Record) : bool :=
  is_creation r && is_raw_parquet (unquote_plus (object_key r)).

(** A call whose answer makes [start_glue_job] raise. *)
Definition raises (reply : answer) : option string :=
  match reply with
  | EntityNotFoundException e | OtherException e => Some e
  | RunStarted _ | ConcurrentRunsExceededException _ => None
  end.

End Handler.

End Trigger.

(** Sample data for the trigger. *)
Module TriggerSample.

Import Trigger.

Definition environment : Config :=
  {| GLUE_JOB_NAME := "b3-etl-job";
     OUTPUT_BUCKET := "";
     OUTPUT_PREFIX := "refined";
     DATABASE_NAME := "b3_database" |}.

Definition daily_file : S3Record :=
  mkS3Record "ObjectCreated:Put" "b3-data"
             "raw/ano=2024/mes=01/dia=05/dados_b3_2024-01-05.parquet".
Definition removal : S3Record :=
  mkS3Record "ObjectRemoved:Delete" "b3-data" "raw/old.parquet".
Definition note : S3Record :=
  mkS3Record "ObjectCreated:Put" "b3-data" "raw/notes.txt".
Definition complete_file : S3Record :=
  mkS3Record "ObjectCreated:Put" "b3-data" "raw/dados_completos.parquet".

Definition event : list S3Record :=
  [daily_file; removal; note; complete_file].

(** What the job writes: two objects of the refined dataset. *)
Definition written_objects : list S3Record :=
  [ mkS3Record "ObjectCreated:Put" "b3-data"
      "refined/data_particao=2024-01-02/ticker=PETR4/part-00000.snappy.parquet";
    mkS3Record "ObjectCreated:Put" "b3-data"
      "refined/data_particao=2024-01-02/ticker=VALE3/part-00000.snappy.parquet" ].

(** A decoder for keys that have nothing to decode. *)
Definition plain (key : string) : string := key.

(** A service that starts every run. *)
Definition willing (history : list Call) (c : Call) : answer :=
  RunStarted "jr_0001".

(** A service that does not know the job when it is asked to run it on the
    file of all the days. *)
Definition unwilling (history : list Call) (c : Call) : answer :=
  match lookup "--input_key" (snd c) with
  | Some key =>
      if String.eqb key "raw/dados_completos.parquet"
      then EntityNotFoundException "Job not found"
      else RunStarted "jr_0001"
  | None => RunStarted "jr_0001"
  end.

End TriggerSample.

(** ** The arguments of the job, as the job resolves them *)

Module JobConfig.

(** The options that the job asks [getResolvedOptions] for, beside the name
    that the service gives it. *)
Record Options := mkOptions {
  input_bucket : string;
  input_key : string;
  output_bucket : string;
  output_prefix : string;
  database_name : string
}.

(** [getResolvedOptions]: every option must be among the arguments of the
    run. *)
Definition getResolvedOptions (arguments : Trigger.Arguments)
    : option Options :=
  match Trigger.lookup "--input_bucket" arguments,
        Trigger.lookup "--input_key" arguments,
        Trigger.lookup "--output_bucket" arguments,
        Trigger.lookup "--output_prefix" arguments,
        Trigger.lookup "--database_name" arguments with
  | Some ib, Some ik, Some ob, Some op, Some db =>
      Some {| input_bucket := ib; input_key := ik; output_bucket := ob;
              output_prefix := op; database_name := db |}
  | _, _, _, _, _ => None
  end.

Definition INPUT_PATH (args : Options) : string :=
  append "s3://" (append (input_bucket args) (append "/" (input_key args))).

Definition RAW_PATH (args : Options) : string :=
  append "s3://" (append (input_bucket args) "/raw/").

Definition OUTPUT_PATH (args : Options) : string :=
  append "s3://"
    (append (output_bucket args) (append "/" (append (output_prefix args) "/"))).

End JobConfig.

(** * Properties *)

(** ** The aggregate functions compute what their names say *)

Module SparkFacts.

Import Spark.

Lemma fold_agg_step_some {A : Type} (op : A -> A -> A) (l : list (option A)) :
  forall b, fold_left (agg_step op) l (Some b)
            = Some (fold_left op (non_null l) b).
Proof.
  induction l as [|[x|] l IH]; intro b; simpl; auto.
Qed.

Lemma aggregate_non_null {A : Type} (op : A -> A -> A) (l : list (option A)) :
  aggregate op l
  = match non_null l with
    | [] => None
    | x :: xs => Some (fold_left op xs x)
    end.
Proof.
  unfold aggregate.
  induction l as [|[x|] l IH]; simpl; auto.
  apply fold_agg_step_some.
Qed.

Lemma fold_plus_total (xs : list Qc) :
  forall x, fold_left Qcplus xs x = (x + Stat.total xs)%Qc.
Proof.
  induction xs as [|y xs IH]; intro x; simpl.
  - ring.
  - rewrite IH. ring.
Qed.

Lemma fold_add_totalZ (xs : list Z) :
  forall x, fold_left Z.add xs x = (x + Stat.totalZ xs)%Z.
Proof.
  induction xs as [|y xs IH]; intro x; simpl.
  - lia.
  - rewrite IH. lia.
Qed.

Lemma sum_double_present (l : list (option double)) :
  sum_double l = Stat.sum_present l.
Proof.
  unfold sum_double, Stat.sum_present. rewrite aggregate_non_null.
  destruct (non_null l) as [|x xs]; auto.
  rewrite fold_plus_total. reflexivity.
Qed.

Lemma wrap64_long (z : Z) : is_long z -> wrap64 z = z.
Proof.
  unfold is_long, wrap64. intro H. rewrite Z.mod_small; lia.
Qed.

Lemma wrap64_is_long (z : Z) : is_long (wrap64 z).
Proof.
  unfold is_long, wrap64.
  pose proof (Z.mod_pos_bound (z + 2 ^ 63) (2 ^ 64)) as H. lia.
Qed.

Lemma wrap64_add (a b : Z) : wrap64 (wrap64 a + b) = wrap64 (a + b).
Proof.
  unfold wrap64. f_equal.
  replace ((a + 2 ^ 63) mod 2 ^ 64 - 2 ^ 63 + b + 2 ^ 63)%Z
    with ((a + 2 ^ 63) mod 2 ^ 64 + b)%Z by lia.
  rewrite Zplus_mod_idemp_l. f_equal. lia.
Qed.

(** The buffer of the sum, once it holds the sum of [s] reduced to 64
    bits. *)
Lemma fold_sum_long_step (l : list (option long)) :
  forall s,
    fold_left sum_long_step l (Some (wrap64 s))
    = Some (wrap64 (s + Stat.totalZ (non_null l))).
Proof.
  induction l as [|[x|] l IH]; intro s; simpl.
  - now rewrite Z.add_0_r.
  - unfold add_long. rewrite wrap64_add, IH. do 2 f_equal. lia.
  - apply IH.
Qed.

(** The sum of a long column is the sum of the values that are present,
    reduced to 64 bits. *)
Lemma sum_long_present (l : list (option long)) :
  sum_long l = Stat.sum64_present l.
Proof.
  unfold sum_long, Stat.sum64_present, Stat.sumZ_present.
  induction l as [|[x|] l IH]; simpl; auto.
  unfold add_long. rewrite fold_sum_long_step. simpl. do 2 f_equal.
Qed.

Lemma fold_avg_step (l : list (option double)) :
  forall s n,
    fold_left avg_step l (s, n)
    = ((s + Stat.total (non_null l))%Qc, n + length (non_null l)).
Proof.
  induction l as [|[x|] l IH]; intros s n; simpl.
  - f_equal; [ring | lia].
  - rewrite IH. f_equal; [ring | lia].
  - apply IH.
Qed.

Lemma avg_mean (l : list (option double)) :
  avg l = Stat.mean (non_null l).
Proof.
  unfold avg. rewrite fold_avg_step. simpl.
  destruct (non_null l) as [|x xs]; simpl; auto.
  f_equal. f_equal. ring.
Qed.

Lemma Qcleb_le (x y : Qc) : Qcleb x y = true <-> (x <= y)%Qc.
Proof. unfold Qcleb, Qcle. apply Qle_bool_iff. Qed.

Lemma Qcleb_gt (x y : Qc) : Qcleb x y = false -> (y <= x)%Qc.
Proof.
  intro H. apply Qcnot_lt_le. intro Hlt.
  apply Qclt_le_weak, Qcleb_le in Hlt. congruence.
Qed.

Lemma fold_greatest (xs : list Qc) :
  forall x, Stat.is_maximum (Some (fold_left greatest xs x)) (x :: xs).
Proof.
  induction xs as [|y xs IH]; intro x; simpl.
  - split; [auto | repeat constructor; apply Qcle_refl].
  - destruct (IH (greatest x y)) as [Hin Hall].
    inversion Hall as [|? ? Hg Hxs]; subst.
    assert (Hx : (x <= greatest x y)%Qc).
    { unfold greatest. destruct (Qcleb x y) eqn:E.
      - now apply Qcleb_le. - apply Qcle_refl. }
    assert (Hy : (y <= greatest x y)%Qc).
    { unfold greatest. destruct (Qcleb x y) eqn:E.
      - apply Qcle_refl. - now apply Qcleb_gt. }
    split.
    + destruct Hin as [Hin|Hin]; [|now right; right].
      rewrite <- Hin. unfold greatest. destruct (Qcleb x y); simpl; auto.
    + constructor; [eapply Qcle_trans; eauto|].
      constructor; [eapply Qcle_trans; eauto|assumption].
Qed.

Lemma fold_least (xs : list Qc) :
  forall x, Stat.is_minimum (Some (fold_left least xs x)) (x :: xs).
Proof.
  induction xs as [|y xs IH]; intro x; simpl.
  - split; [auto | repeat constructor; apply Qcle_refl].
  - destruct (IH (least x y)) as [Hin Hall].
    inversion Hall as [|? ? Hg Hxs]; subst.
    assert (Hx : (least x y <= x)%Qc).
    { unfold least. destruct (Qcleb x y) eqn:E.
      - apply Qcle_refl. - now apply Qcleb_gt. }
    assert (Hy : (least x y <= y)%Qc).
    { unfold least. destruct (Qcleb x y) eqn:E.
      - now apply Qcleb_le. - apply Qcle_refl. }
    split.
    + destruct Hin as [Hin|Hin]; [|now right; right].
      rewrite <- Hin. unfold least. destruct (Qcleb x y); simpl; auto.
    + constructor; [eapply Qcle_trans; eauto|].
      constructor; [eapply Qcle_trans; eauto|assumption].
Qed.

Lemma max_is_maximum (l : list (option double)) :
  Stat.is_maximum (max l) (non_null l).
Proof.
  unfold max. rewrite aggregate_non_null.
  destruct (non_null l) as [|x xs]; simpl; auto.
  apply fold_greatest.
Qed.

Lemma min_is_minimum (l : list (option double)) :
  Stat.is_minimum (min l) (non_null l).
Proof.
  unfold min. rewrite aggregate_non_null.
  destruct (non_null l) as [|x xs]; simpl; auto.
  apply fold_least.
Qed.

End SparkFacts.

(** ** Lists: grouping keys, frames and positions *)

Module ListFacts.

Import Spark.

Section Distinct.

Context {K : Type} (eqb : K -> K -> bool).
Hypothesis eqb_eq : forall a b, eqb a b = true <-> a = b.

Lemma distinct_In (l : list K) (k : K) :
  In k (distinct eqb l) <-> In k l.
Proof.
  induction l as [|x l IH]; simpl; [tauto|].
  rewrite filter_In, IH. split.
  - intros [H|[H _]]; auto.
  - intros [H|H]; auto.
    destruct (eqb x k) eqn:E.
    + left. now apply eqb_eq.
    + right. auto.
Qed.

Lemma distinct_NoDup (l : list K) : NoDup (distinct eqb l).
Proof.
  induction l as [|x l IH]; simpl; constructor.
  - rewrite filter_In. intros [_ H].
    assert (E : eqb x x = true) by now apply eqb_eq.
    rewrite E in H. discriminate.
  - now apply NoDup_filter.
Qed.

Context {A : Type} (key_of : A -> K) (f : K -> list A).
Hypothesis f_keys : forall k x, In x (f k) -> key_of x = k.

Lemma filter_own (t : K) :
  filter (fun x => eqb (key_of x) t) (f t) = f t.
Proof.
  apply forallb_filter_id, forallb_forall. intros x Hx.
  apply eqb_eq. now apply f_keys.
Qed.

Lemma filter_other (t k : K) :
  k <> t -> filter (fun x => eqb (key_of x) t) (f k) = [].
Proof.
  intro Hne.
  assert (H : forall l, (forall x, In x l -> key_of x = k) ->
                        filter (fun x => eqb (key_of x) t) l = []).
  { induction l as [|x l IH]; intro Hl; simpl; auto.
    destruct (eqb (key_of x) t) eqn:E.
    - apply eqb_eq in E. rewrite (Hl x) in E by now left. contradiction.
    - apply IH. intros y Hy. apply Hl. now right. }
  apply H, f_keys.
Qed.

Lemma filter_flat_map_other (t : K) (ks : list K) :
  ~ In t ks -> filter (fun x => eqb (key_of x) t) (flat_map f ks) = [].
Proof.
  induction ks as [|k ks IH]; simpl; intro Hn; auto.
  rewrite filter_app.
  rewrite filter_other by (intro E; apply Hn; now left).
  rewrite IH by (intro E; apply Hn; now right).
  reflexivity.
Qed.

Lemma filter_flat_map_own (t : K) (ks : list K) :
  NoDup ks -> In t ks ->
  filter (fun x => eqb (key_of x) t) (flat_map f ks) = f t.
Proof.
  induction ks as [|k ks IH]; simpl; intros Hnd Hin; [contradiction|].
  inversion Hnd as [|? ? Hk Hks]; subst.
  rewrite filter_app. destruct Hin as [->|Hin].
  - rewrite filter_own, filter_flat_map_other by assumption.
    apply app_nil_r.
  - rewrite filter_other by (intros ->; contradiction).
    now rewrite IH.
Qed.

End Distinct.

(** The rows whose position is between [a] and [b], when the positions
    start at [s]. *)
Lemma filter_positions {A : Type} (a b : nat) (l : list A) :
  forall s,
    map snd (filter (fun p => (a <=? fst p) && (fst p <=? b))
                    (combine (seq s (length l)) l))
    = firstn (S b - Nat.max a s) (skipn (a - s) l).
Proof.
  induction l as [|x l IH]; intro s.
  - simpl. now rewrite skipn_nil, firstn_nil.
  - cbn [length seq combine filter fst].
    destruct (Nat.leb_spec a s) as [Ha|Ha];
      destruct (Nat.leb_spec s b) as [Hb|Hb]; cbn [andb map snd];
      rewrite (IH (S s)).
    + replace (a - s) with 0 by lia. replace (a - S s) with 0 by lia.
      replace (S b - Nat.max a s) with (S (b - s)) by lia.
      replace (S b - Nat.max a (S s)) with (b - s) by lia.
      reflexivity.
    + replace (S b - Nat.max a s) with 0 by lia.
      replace (S b - Nat.max a (S s)) with 0 by lia.
      reflexivity.
    + replace (a - s) with (S (a - S s)) by lia.
      replace (Nat.max a (S s)) with (Nat.max a s) by lia.
      reflexivity.
    + replace (S b - Nat.max a s) with 0 by lia.
      replace (S b - Nat.max a (S s)) with 0 by lia.
      reflexivity.
Qed.

(** The frame of [window_7d] is the positions [max(0, i-6)] to [i]. *)
Lemma rowsBetween_7d {A : Type} (part : list A) (i : nat) :
  rowsBetween (-6) 0 part i = Stat.slice (Nat.max 0 (i - 6)) i part.
Proof.
  unfold rowsBetween, indexed, Stat.slice.
  rewrite (filter_ext _ (fun p => (i - 6 <=? fst p) && (fst p <=? i))).
  - rewrite filter_positions, Nat.sub_0_r, Nat.max_0_r, Nat.max_0_l.
    f_equal. lia.
  - intros [j r]. cbn [fst]. f_equal.
    + destruct (Nat.leb_spec (i - 6) j), (Z.leb_spec (Z.of_nat i + -6) (Z.of_nat j));
        auto; lia.
    + destruct (Nat.leb_spec j i), (Z.leb_spec (Z.of_nat j) (Z.of_nat i + 0));
        auto; lia.
Qed.

Lemma slice_map {A B : Type} (g : A -> B) (lo hi : nat) (l : list A) :
  map g (Stat.slice lo hi l) = Stat.slice lo hi (map g l).
Proof. unfold Stat.slice. now rewrite skipn_map, firstn_map. Qed.

Lemma nth_error_indexed {A B : Type} (g : nat * A -> B) (l : list A) :
  forall s i,
    nth_error (map g (combine (seq s (length l)) l)) i
    = option_map (fun r => g (s + i, r)) (nth_error l i).
Proof.
  induction l as [|x l IH]; intros s [|i]; simpl; auto.
  - now rewrite Nat.add_0_r.
  - rewrite IH. now rewrite Nat.add_succ_r.
Qed.

Lemma filter_perm {A : Type} (p : A -> bool) (l l' : list A) :
  Permutation l l' -> Permutation (filter p l) (filter p l').
Proof.
  induction 1 as [|x l l' Hp IH|x y l|l l' l'' H1 IH1 H2 IH2]; simpl.
  - constructor.
  - destruct (p x); auto.
  - destruct (p x), (p y); auto. apply perm_swap.
  - now transitivity (filter p l').
Qed.

Lemma non_null_perm {A : Type} (l l' : list (option A)) :
  Permutation l l' -> Permutation (Spark.non_null l) (Spark.non_null l').
Proof.
  induction 1 as [|[x|] l l' Hp IH|[x|] [y|] l|l l' l'' H1 IH1 H2 IH2];
    simpl; auto.
  - apply perm_swap.
  - now transitivity (Spark.non_null l').
Qed.

End ListFacts.

(** ** Keys and the order of dates *)

Module KeyFacts.

Lemma ticker_eqb_eq (a b : option string) : ticker_eqb a b = true <-> a = b.
Proof.
  destruct a as [x|], b as [y|]; simpl; try (split; congruence).
  rewrite String.eqb_eq. split; congruence.
Qed.

Lemma date_eqb_eq (a b : Date) : date_eqb a b = true <-> a = b.
Proof.
  destruct a as [y1 m1 d1], b as [y2 m2 d2]. unfold date_eqb. simpl.
  rewrite !andb_true_iff, !Z.eqb_eq. split.
  - intros [[-> ->] ->]. reflexivity.
  - intro H. injection H as -> -> ->. auto.
Qed.

Lemma data_eqb_eq (a b : option Date) : data_eqb a b = true <-> a = b.
Proof.
  destruct a as [x|], b as [y|]; simpl; try (split; congruence).
  rewrite date_eqb_eq. split; congruence.
Qed.

Lemma key_eqb_eq (a b : Key) : key_eqb a b = true <-> a = b.
Proof.
  destruct a as [t1 d1], b as [t2 d2]. unfold key_eqb. simpl.
  rewrite andb_true_iff, ticker_eqb_eq, data_eqb_eq. split.
  - intros [-> ->]. reflexivity.
  - intro H. injection H as -> ->. auto.
Qed.

Lemma ticker_eq_dec (a b : option string) : {a = b} + {a <> b}.
Proof. decide equality. apply string_dec. Qed.

Lemma date_leb_total (a b : Date) : date_leb a b = false -> date_leb b a = true.
Proof.
  unfold date_leb. destruct a as [y1 m1 d1], b as [y2 m2 d2]. simpl.
  intro H.
  destruct (Z.ltb_spec y1 y2), (Z.eqb_spec y1 y2), (Z.ltb_spec m1 m2),
    (Z.eqb_spec m1 m2), (Z.leb_spec d1 d2); simpl in H; try discriminate;
    destruct (Z.ltb_spec y2 y1), (Z.eqb_spec y2 y1), (Z.ltb_spec m2 m1),
      (Z.eqb_spec m2 m1), (Z.leb_spec d2 d1); simpl; auto; lia.
Qed.

Lemma data_leb_total (a b : option Date) :
  data_leb a b = false -> data_leb b a = true.
Proof.
  destruct a as [x|], b as [y|]; simpl; auto; try discriminate.
  apply date_leb_total.
Qed.

Lemma date_leb_trans (a b c : Date) :
  date_leb a b = true -> date_leb b c = true -> date_leb a c = true.
Proof.
  unfold date_leb. destruct a as [y1 m1 d1], b as [y2 m2 d2], c as [y3 m3 d3].
  cbn [year month day].
  rewrite !orb_true_iff, !andb_true_iff, !orb_true_iff, !andb_true_iff,
    !Z.ltb_lt, !Z.eqb_eq, !Z.leb_le.
  intros H1 H2. lia.
Qed.

Lemma data_leb_trans (a b c : option Date) :
  data_leb a b = true -> data_leb b c = true -> data_leb a c = true.
Proof.
  destruct a as [x|], b as [y|], c as [z|]; simpl; auto; try discriminate.
  apply date_leb_trans.
Qed.

End KeyFacts.

(** ** The date-ascending sequence of a ticker *)

Module SequenceFacts.

Import KeyFacts.

Lemma insert_by_data_perm (r : DailySummary) (l : list DailySummary) :
  Permutation (insert_by_data r l) (r :: l).
Proof.
  induction l as [|x l IH]; simpl; auto.
  destruct (data_leb (data r) (data x)); auto.
  rewrite IH. apply perm_swap.
Qed.

Lemma orderBy_data_perm (l : list DailySummary) :
  Permutation (orderBy_data l) l.
Proof.
  induction l as [|x l IH]; simpl; auto.
  rewrite insert_by_data_perm. now constructor.
Qed.

Lemma insert_by_data_sorted (r : DailySummary) (l : list DailySummary) :
  Sorted ascending l -> Sorted ascending (insert_by_data r l).
Proof.
  induction l as [|x l IH]; simpl; intro Hs.
  - repeat constructor.
  - destruct (data_leb (data r) (data x)) eqn:E.
    + constructor; auto.
    + inversion Hs as [|? ? Hl Hhd]; subst.
      constructor; auto.
      destruct l as [|y l]; simpl.
      * constructor. now apply data_leb_total.
      * destruct (data_leb (data r) (data y)).
        -- constructor. now apply data_leb_total.
        -- inversion Hhd; subst. now constructor.
Qed.

(** The sequence of a ticker is in ascending order of date... *)
Lemma ticker_sequence_sorted (t : option string) (df : list DailySummary) :
  Sorted ascending (ticker_sequence t df).
Proof.
  unfold ticker_sequence, orderBy_data.
  induction (filter _ df) as [|x l IH]; simpl.
  - constructor.
  - now apply insert_by_data_sorted.
Qed.

(** ... and holds exactly the rows of the ticker. *)
Lemma ticker_sequence_perm (t : option string) (df : list DailySummary) :
  Permutation (ticker_sequence t df)
              (filter (fun r => ticker_eqb (ticker r) t) df).
Proof. apply orderBy_data_perm. Qed.

(** The sequence of a ticker is a date-ascending sequence of its rows. *)
Lemma ticker_sequence_ascending (t : option string) (df : list DailySummary) :
  date_ascending_sequence_of t df (ticker_sequence t df).
Proof.
  split; [|apply ticker_sequence_perm].
  apply Sorted_StronglySorted; [|apply ticker_sequence_sorted].
  intros a b c. unfold ascending. apply data_leb_trans.
Qed.

Lemma ticker_sequence_In (t : option string) (df : list DailySummary)
    (r : DailySummary) :
  In r (ticker_sequence t df) <-> In r df /\ ticker r = t.
Proof.
  rewrite <- ticker_eqb_eq.
  rewrite <- (filter_In (fun r => ticker_eqb (ticker r) t)).
  split; intro H.
  - eapply Permutation_in; [apply ticker_sequence_perm | exact H].
  - eapply Permutation_in;
      [apply Permutation_sym, ticker_sequence_perm | exact H].
Qed.

End SequenceFacts.

(** ** Window Metrics Engine *)

Module WindowFacts.

Import KeyFacts SequenceFacts ListFacts.

Lemma partition_metrics_nth (part : list DailySummary) (i : nat) :
  nth_error (partition_metrics part) i
  = option_map (metrics_at part i) (nth_error part i).
Proof.
  unfold partition_metrics, Spark.indexed.
  now rewrite (nth_error_indexed
                 (fun ir => metrics_at part (fst ir) (snd ir)) part 0 i).
Qed.

Lemma partition_metrics_In (part : list DailySummary) (m : MetricsRow) :
  In m (partition_metrics part) ->
  exists i, nth_error part i = Some (summary m) /\ m = metrics_at part i (summary m).
Proof.
  intro H. apply In_nth_error in H as [i Hi].
  rewrite partition_metrics_nth in Hi.
  destruct (nth_error part i) as [r|] eqn:E; simpl in Hi; [|discriminate].
  injection Hi as <-. exists i. simpl. auto.
Qed.

Lemma partition_metrics_ticker (t : option string) (df : list DailySummary)
    (m : MetricsRow) :
  In m (partition_metrics (ticker_sequence t df)) -> ticker (summary m) = t.
Proof.
  intro H. apply partition_metrics_In in H as [i [Hi _]].
  apply nth_error_In in Hi. now apply ticker_sequence_In in Hi.
Qed.

(** The output rows of a ticker are the rows computed from its
    date-ascending sequence, position by position. *)
Lemma rows_of_ticker_sequence (t : option string) (df : list DailySummary) :
  rows_of_ticker t (calculate_date_based_metrics df)
  = partition_metrics (ticker_sequence t df).
Proof.
  unfold rows_of_ticker, calculate_date_based_metrics.
  set (f := fun t' => partition_metrics (ticker_sequence t' df)).
  set (ks := Spark.distinct ticker_eqb (map ticker df)).
  assert (Hf : forall k x, In x (f k) -> ticker (summary x) = k)
    by (intros k x; apply partition_metrics_ticker).
  destruct (in_dec ticker_eq_dec t ks) as [Hin|Hout].
  - apply (filter_flat_map_own ticker_eqb ticker_eqb_eq
             (fun m => ticker (summary m)) f Hf t ks); auto.
    apply distinct_NoDup, ticker_eqb_eq.
  - rewrite (filter_flat_map_other ticker_eqb ticker_eqb_eq
               (fun m => ticker (summary m)) f Hf t ks Hout).
    unfold f. destruct (ticker_sequence t df) as [|r l] eqn:E; auto.
    exfalso. apply Hout. unfold ks.
    apply (distinct_In ticker_eqb ticker_eqb_eq).
    assert (Hr : In r (ticker_sequence t df)) by (rewrite E; now left).
    apply ticker_sequence_In in Hr as [Hr <-]. now apply in_map.
Qed.

Lemma row_at_position (t : option string) (df : list DailySummary)
    (i : nat) (r : DailySummary) :
  nth_error (ticker_sequence t df) i = Some r ->
  nth_error (rows_of_ticker t (calculate_date_based_metrics df)) i
  = Some (metrics_at (ticker_sequence t df) i r).
Proof.
  intro H. now rewrite rows_of_ticker_sequence, partition_metrics_nth, H.
Qed.

Lemma lag_previous {A B : Type} (c : A -> option B) (part : list A)
    (i : nat) (p : A) :
  0 < i -> nth_error part (i - 1) = Some p -> Spark.lag c 1 part i = c p.
Proof.
  intros Hi Hp. unfold Spark.lag.
  destruct (Nat.ltb_spec i 1); [lia|]. now rewrite Hp.
Qed.

(** C1: the sequence of a ticker holds the rows of the ticker in the
    input, in ascending order of date, and for every position [i] of it
    the output has a row at position [i] of that ticker, for the summary at
    that position, whose [media_movel_7d] is the arithmetic mean of the
    closes (those that are present) at the positions [max(0, i-6)] through
    [i] of the sequence: a window of rows, whatever the dates. *)
Theorem moving_average_is_row_window_mean
    (df : list DailySummary) (t : option string) (i : nat) :
  i < length (ticker_sequence t df) ->
  date_ascending_sequence_of t df (ticker_sequence t df)
  /\ exists m r,
       nth_error (rows_of_ticker t (calculate_date_based_metrics df)) i
       = Some m
       /\ nth_error (ticker_sequence t df) i = Some r
       /\ summary m = r
       /\ media_movel_7d m
          = Stat.mean
              (Spark.non_null
                 (Stat.slice (Nat.max 0 (i - 6)) i
                    (map preco_fechamento (ticker_sequence t df)))).
Proof.
  intro Hi. split; [apply ticker_sequence_ascending|].
  destruct (nth_error (ticker_sequence t df) i) as [r|] eqn:E.
  2: { apply nth_error_None in E. lia. }
  exists (metrics_at (ticker_sequence t df) i r), r.
  split; [now apply row_at_position|].
  repeat split. simpl.
  now rewrite SparkFacts.avg_mean, rowsBetween_7d, slice_map.
Qed.

Lemma variacao_first (part : list DailySummary) (r : DailySummary) :
  variacao_percentual_diaria (metrics_at part 0 r) = Some 0%Qc.
Proof. reflexivity. Qed.

Lemma variacao_previous (part : list DailySummary) (i : nat)
    (r p : DailySummary) :
  0 < i -> nth_error part (i - 1) = Some p ->
  variacao_percentual_diaria (metrics_at part i r)
  = match preco_fechamento p with
    | Some c => Stat.pct_change (preco_fechamento r) (Some c)
    | None => Some 0%Qc
    end.
Proof.
  intros Hi Hp. unfold metrics_at. cbn [variacao_percentual_diaria].
  rewrite (lag_previous preco_fechamento part i p Hi Hp).
  destruct (preco_fechamento p); reflexivity.
Qed.

(** C2, as the code has it: the sequence of a ticker holds the rows of
    the ticker in the input, in ascending order of date, and for every
    position [i] of it [variacao_percentual_diaria] of the row at [i] is
    [0.0] at [i = 0] and, at [i > 0] when the close at [i-1] is not null,
    it is [(close[i] - close[i-1]) / close[i-1] * 100]; no guard stands
    before the division, so a close of zero at [i-1] leaves the value to
    the engine's division, which gives [NULL]. *)
Theorem pct_change_of_previous_close
    (df : list DailySummary) (t : option string) (i : nat) :
  i < length (ticker_sequence t df) ->
  date_ascending_sequence_of t df (ticker_sequence t df)
  /\ exists m r,
       nth_error (rows_of_ticker t (calculate_date_based_metrics df)) i
       = Some m
       /\ nth_error (ticker_sequence t df) i = Some r
       /\ summary m = r
       /\ (i = 0 -> variacao_percentual_diaria m = Some 0%Qc)
       /\ (forall p previous,
             0 < i ->
             nth_error (ticker_sequence t df) (i - 1) = Some p ->
             preco_fechamento p = Some previous ->
             variacao_percentual_diaria m
             = Stat.pct_change (preco_fechamento r) (Some previous)
             /\ (previous = 0%Qc -> variacao_percentual_diaria m = None)
             /\ (forall close,
                   preco_fechamento r = Some close -> previous <> 0%Qc ->
                   variacao_percentual_diaria m
                   = Some ((close - previous) / previous * hundred)%Qc)).
Proof.
  intro Hi. split; [apply ticker_sequence_ascending|].
  destruct (nth_error (ticker_sequence t df) i) as [r|] eqn:E.
  2: { apply nth_error_None in E. lia. }
  exists (metrics_at (ticker_sequence t df) i r), r.
  split; [now apply row_at_position|].
  split; [reflexivity|]. split; [reflexivity|]. split.
  - intros ->. apply variacao_first.
  - intros p previous Hpos Hp Hc.
    rewrite (variacao_previous _ i r p Hpos Hp), Hc.
    split; [reflexivity|]. split.
    + intros ->. unfold Stat.pct_change.
      destruct (preco_fechamento r); reflexivity.
    + intros close Hclose Hnz. rewrite Hclose.
      unfold Stat.pct_change, Spark.sub, Spark.div, Spark.mul, Spark.lift2.
      destruct (Qc_eq_bool previous 0) eqn:Ez; [|reflexivity].
      apply Qc_eq_bool_correct in Ez. contradiction.
Qed.

(** C10: the sequence of a ticker holds the rows of the ticker in the
    input, in ascending order of date, and for every row whose previous
    close in that sequence is null, because the row is the first of its
    ticker or because the close of the row before is null,
    [variacao_percentual_diaria] is [0.0]. *)
Theorem pct_change_zero_when_previous_close_null
    (df : list DailySummary) (t : option string) (i : nat) :
  i < length (ticker_sequence t df) ->
  (i = 0
   \/ exists p, nth_error (ticker_sequence t df) (i - 1) = Some p
                /\ preco_fechamento p = None) ->
  date_ascending_sequence_of t df (ticker_sequence t df)
  /\ exists m r,
       nth_error (rows_of_ticker t (calculate_date_based_metrics df)) i
       = Some m
       /\ nth_error (ticker_sequence t df) i = Some r
       /\ summary m = r
       /\ variacao_percentual_diaria m = Some 0%Qc.
Proof.
  intros Hi Hprev. split; [apply ticker_sequence_ascending|].
  destruct (nth_error (ticker_sequence t df) i) as [r|] eqn:E.
  2: { apply nth_error_None in E. lia. }
  exists (metrics_at (ticker_sequence t df) i r), r.
  split; [now apply row_at_position|].
  split; [reflexivity|]. split; [reflexivity|].
  destruct i as [|i]; [apply variacao_first|].
  destruct Hprev as [Hz|[p [Hp Hnull]]]; [discriminate|].
  rewrite (variacao_previous _ (S i) r p (Nat.lt_0_succ i) Hp), Hnull.
  reflexivity.
Qed.

Lemma is_maximum_perm (m : option Qc) (l l' : list Qc) :
  Permutation l l' -> Stat.is_maximum m l -> Stat.is_maximum m l'.
Proof.
  intro Hp. destruct m as [x|]; simpl.
  - intros [Hin Hall]. split.
    + eapply Permutation_in; eassumption.
    + eapply Permutation_Forall; eassumption.
  - intros ->. now apply Permutation_nil.
Qed.

Lemma is_minimum_perm (m : option Qc) (l l' : list Qc) :
  Permutation l l' -> Stat.is_minimum m l -> Stat.is_minimum m l'.
Proof.
  intro Hp. destruct m as [x|]; simpl.
  - intros [Hin Hall]. split.
    + eapply Permutation_in; eassumption.
    + eapply Permutation_Forall; eassumption.
  - intros ->. now apply Permutation_nil.
Qed.

(** The values present in a column are the same over the sequence of a
    ticker and over the rows of the ticker in the input. *)
Lemma column_of_sequence_perm (c : DailySummary -> option Qc)
    (t : option string) (df : list DailySummary) :
  Permutation (Spark.non_null (map c (ticker_sequence t df)))
              (Spark.non_null (map c (input_rows_of_ticker t df))).
Proof. apply non_null_perm, Permutation_map, ticker_sequence_perm. Qed.

(** The output rows of a ticker are for the rows of its sequence, one for
    each and in that order. *)
Lemma summaries_of_ticker_rows (df : list DailySummary) (t : option string) :
  map summary (rows_of_ticker t (calculate_date_based_metrics df))
  = ticker_sequence t df.
Proof.
  rewrite rows_of_ticker_sequence. apply nth_error_ext. intro i.
  rewrite nth_error_map, partition_metrics_nth.
  destruct (nth_error (ticker_sequence t df) i); reflexivity.
Qed.

(** C3: for every ticker, every output row of the ticker carries one and
    the same [maxima_periodo] and [minima_periodo], the maximum of
    [preco_maximo] and the minimum of [preco_minimo] over all the rows of
    the ticker in the input (the values that are present), and the output
    rows of the ticker are these rows, one output row for each, in
    ascending order of date. *)
Theorem period_extremes_over_full_sequence
    (df : list DailySummary) (t : option string) :
  exists hi lo,
    Stat.is_maximum hi
      (Spark.non_null (map preco_maximo (input_rows_of_ticker t df)))
    /\ Stat.is_minimum lo
         (Spark.non_null (map preco_minimo (input_rows_of_ticker t df)))
    /\ Forall (fun m => maxima_periodo m = hi /\ minima_periodo m = lo)
              (rows_of_ticker t (calculate_date_based_metrics df))
    /\ date_ascending_sequence_of t df
         (map summary (rows_of_ticker t (calculate_date_based_metrics df))).
Proof.
  exists (Spark.max (map preco_maximo (ticker_sequence t df))),
         (Spark.min (map preco_minimo (ticker_sequence t df))).
  split.
  { eapply is_maximum_perm;
      [apply column_of_sequence_perm | apply SparkFacts.max_is_maximum]. }
  split.
  { eapply is_minimum_perm;
      [apply column_of_sequence_perm | apply SparkFacts.min_is_minimum]. }
  rewrite summaries_of_ticker_rows.
  split; [|apply ticker_sequence_ascending].
  rewrite rows_of_ticker_sequence.
  apply Forall_forall. intros m Hm.
  apply partition_metrics_In in Hm as [i [_ ->]]. split; reflexivity.
Qed.

End WindowFacts.

(** ** Daily Aggregator *)

Module AggregatorFacts.

Import KeyFacts ListFacts.
Import Stat.

Lemma output_keys (df : list Raw.Row) :
  map key (calculate_aggregations df)
  = Spark.distinct key_eqb (map Raw.key df).
Proof.
  unfold calculate_aggregations, groupBy. rewrite !map_map.
  induction (Spark.distinct key_eqb (map Raw.key df)) as [|[t d] ks IH];
    simpl; [reflexivity|].
  now rewrite IH.
Qed.

Lemma output_row (df : list Raw.Row) (s : DailySummary) :
  In s (calculate_aggregations df) <->
  In (key s) (map Raw.key df) /\ s = agg (key s, group (key s) df).
Proof.
  unfold calculate_aggregations, groupBy. rewrite map_map, in_map_iff.
  split.
  - intros [[t d] [<- Hk]].
    change (key (agg (t, d, group (t, d) df))) with (t, d).
    apply (proj1 (distinct_In key_eqb key_eqb_eq _ _)) in Hk.
    split; [assumption | reflexivity].
  - intros [Hk Hs]. exists (key s). split; [now symmetry|].
    now apply (distinct_In key_eqb key_eqb_eq).
Qed.

Lemma group_In (k : Key) (df : list Raw.Row) (r : Raw.Row) :
  In r (group k df) <-> In r df /\ Raw.key r = k.
Proof. unfold group. now rewrite filter_In, key_eqb_eq. Qed.

Lemma group_nonempty (k : Key) (df : list Raw.Row) :
  In k (map Raw.key df) -> group k df <> [].
Proof.
  rewrite in_map_iff. intros [r [Hk Hr]] E.
  assert (H : In r (group k df)) by now apply group_In.
  rewrite E in H. contradiction.
Qed.

(** The total of a group whose sum is a value of 64 bits is that sum. *)
Lemma sum_long_fits (rows : list Raw.Row) :
  Spark.is_long (volume_of rows) ->
  Spark.sum_long (map Raw.volume_negociado rows)
  = sumZ_present (map Raw.volume_negociado rows).
Proof.
  intro Hfit. rewrite SparkFacts.sum_long_present.
  unfold sum64_present, sumZ_present, volume_of in *.
  destruct (Spark.non_null (map Raw.volume_negociado rows)); [reflexivity|].
  cbn [option_map]. f_equal. now apply SparkFacts.wrap64_long.
Qed.

Lemma total_of_totals (df : list Raw.Row) (ks : list Key) :
  (forall k, In k ks -> Spark.is_long (volume_of (group k df))) ->
  Stat.totalZ
    (Spark.non_null
       (map (fun k => Spark.sum_long (map Raw.volume_negociado (group k df)))
            ks))
  = Stat.totalZ (map (fun k => volume_of (group k df)) ks).
Proof.
  induction ks as [|k ks IH]; intro Hfit; [reflexivity|].
  cbn [map]. rewrite sum_long_fits by (apply Hfit; now left).
  unfold sumZ_present, volume_of at 1. unfold totalZ in *.
  destruct (Spark.non_null (map Raw.volume_negociado (group k df)));
    cbn [Spark.non_null fold_right]; rewrite IH;
    try reflexivity; intros k' Hk'; apply Hfit; now right.
Qed.

Lemma volume_of_cons (r : Raw.Row) (rows : list Raw.Row) :
  volume_of (r :: rows)
  = (match Raw.volume_negociado r with Some v => v | None => 0 end
     + volume_of rows)%Z.
Proof. unfold volume_of. simpl. destruct (Raw.volume_negociado r); reflexivity. Qed.

Lemma groups_without (r : Raw.Row) (df : list Raw.Row) (ks : list Key) :
  ~ In (Raw.key r) ks ->
  map (fun k => volume_of (group k (r :: df))) ks
  = map (fun k => volume_of (group k df)) ks.
Proof.
  intro Hn. apply map_ext_in. intros k Hk. unfold group. simpl.
  destruct (key_eqb (Raw.key r) k) eqn:E; [|reflexivity].
  apply key_eqb_eq in E. subst. contradiction.
Qed.

Lemma total_with_row (r : Raw.Row) (df : list Raw.Row) (ks : list Key) :
  NoDup ks -> In (Raw.key r) ks ->
  Stat.totalZ (map (fun k => volume_of (group k (r :: df))) ks)
  = (match Raw.volume_negociado r with Some v => v | None => 0 end
     + Stat.totalZ (map (fun k => volume_of (group k df)) ks))%Z.
Proof.
  induction ks as [|k ks IH]; intros Hnd Hin; [contradiction|].
  inversion Hnd as [|? ? Hk Hks]; subst.
  cbn [map Stat.totalZ fold_right].
  change (fold_right Z.add 0%Z ?l) with (Stat.totalZ l).
  destruct Hin as [->|Hin].
  - rewrite (groups_without r df ks Hk).
    unfold group at 1. cbn [filter].
    assert (E : key_eqb (Raw.key r) (Raw.key r) = true)
      by now apply key_eqb_eq.
    rewrite E, volume_of_cons. fold (group (Raw.key r) df). lia.
  - rewrite (IH Hks Hin). unfold group at 1. cbn [filter].
    destruct (key_eqb (Raw.key r) k) eqn:E.
    + apply key_eqb_eq in E. subst. contradiction.
    + fold (group k df). lia.
Qed.

(** Summing group by group, over keys that cover the rows, is summing
    over the rows. *)
Lemma total_over_groups (ks : list Key) (df : list Raw.Row) :
  NoDup ks -> (forall r, In r df -> In (Raw.key r) ks) ->
  Stat.totalZ (map (fun k => volume_of (group k df)) ks) = volume_of df.
Proof.
  intro Hnd. induction df as [|r df IH]; intro Hcover.
  - unfold group. simpl. induction ks as [|k ks IHk]; simpl; auto.
    inversion Hnd; subst. now rewrite IHk.
  - rewrite total_with_row, volume_of_cons, IH; auto.
    + intros r' Hr'. apply Hcover. now right.
    + apply Hcover. now left.
Qed.

(** C4, as the code has it: for every collection of normalized rows, the
    aggregation has exactly one row per distinct (ticker, date) key of the
    input; the row of a key has, over the rows of the key (which are never
    none), the sum of the volumes as a value of 64 bits (the sum reduced
    modulo [2^64], which is the sum itself whenever that is a value of 64
    bits), the mean of the closes, the number of rows, the maximum high,
    the minimum low and the sum of the dividends (sums, mean and extremes
    of the values that are present); and when the sum of every group is a
    value of 64 bits, the total volumes of all the groups add up to the
    volumes of all the raw rows. *)
Theorem daily_aggregation_per_key (df : list Raw.Row) :
  NoDup (map key (calculate_aggregations df))
  /\ (forall k, In k (map key (calculate_aggregations df))
                <-> In k (map Raw.key df))
  /\ Forall
       (fun s =>
          let rows := group (key s) df in
          rows <> []
          /\ volume_total_diario s
             = sum64_present (map Raw.volume_negociado rows)
          /\ (Spark.is_long (volume_of rows) ->
              volume_total_diario s
              = sumZ_present (map Raw.volume_negociado rows))
          /\ preco_medio_fechamento s
             = mean (Spark.non_null (map Raw.preco_fechamento rows))
          /\ contagem_registros s = Z.of_nat (length rows)
          /\ is_maximum (preco_maximo s)
               (Spark.non_null (map Raw.preco_maximo rows))
          /\ is_minimum (preco_minimo s)
               (Spark.non_null (map Raw.preco_minimo rows))
          /\ dividendos s = sum_present (map Raw.dividendos rows))
       (calculate_aggregations df)
  /\ ((forall k, In k (map Raw.key df) ->
                 Spark.is_long (volume_of (group k df))) ->
      totalZ (Spark.non_null
                (map volume_total_diario (calculate_aggregations df)))
      = volume_of df).
Proof.
  split; [|split; [|split]].
  - rewrite output_keys. apply distinct_NoDup, key_eqb_eq.
  - intro k. rewrite output_keys. apply distinct_In, key_eqb_eq.
  - apply Forall_forall. intros s Hs.
    apply output_row in Hs as [Hk Hs]. cbv zeta.
    split; [now apply group_nonempty|].
    rewrite (f_equal volume_total_diario Hs),
      (f_equal preco_medio_fechamento Hs), (f_equal contagem_registros Hs),
      (f_equal preco_maximo Hs), (f_equal preco_minimo Hs),
      (f_equal dividendos Hs).
    cbn [agg volume_total_diario preco_medio_fechamento contagem_registros
         preco_maximo preco_minimo dividendos snd].
    split; [apply SparkFacts.sum_long_present|].
    split; [apply sum_long_fits|].
    split; [apply SparkFacts.avg_mean|].
    split; [reflexivity|].
    split; [apply SparkFacts.max_is_maximum|].
    split; [apply SparkFacts.min_is_minimum|].
    apply SparkFacts.sum_double_present.
  - intro Hfit. unfold calculate_aggregations, groupBy. rewrite !map_map.
    change (totalZ
              (Spark.non_null
                 (map (fun k => Spark.sum_long
                                  (map Raw.volume_negociado (group k df)))
                      (Spark.distinct key_eqb (map Raw.key df))))
            = volume_of df).
    rewrite total_of_totals
      by (intros k Hk; apply Hfit;
          now apply (proj1 (distinct_In key_eqb key_eqb_eq _ _))).
    apply total_over_groups.
    + apply distinct_NoDup, key_eqb_eq.
    + intros r Hr. apply (distinct_In key_eqb key_eqb_eq).
      now apply in_map.
Qed.

Lemma non_null_In {A : Type} (l : list (option A)) (x : A) :
  In x (Spark.non_null l) <-> In (Some x) l.
Proof.
  induction l as [|[y|] l IH]; simpl; [tauto| |].
  - rewrite IH. split; intros [H|H]; auto; left; congruence.
  - rewrite IH. split; [auto|]. intros [H|H]; [discriminate|auto].
Qed.

Lemma column_In {A : Type} (c : Raw.Row -> option A) (rows : list Raw.Row)
    (r : Raw.Row) (v : A) :
  In r rows -> c r = Some v -> In v (Spark.non_null (map c rows)).
Proof.
  intros Hr Hv. apply non_null_In. rewrite <- Hv. now apply in_map.
Qed.

Lemma maximum_bound (m : option Qc) (l : list Qc) (x : Qc) :
  is_maximum m l -> In x l -> exists hi, m = Some hi /\ (x <= hi)%Qc.
Proof.
  destruct m as [hi|]; simpl.
  - intros [_ Hall] Hx. exists hi. split; auto.
    rewrite Forall_forall in Hall. now apply Hall.
  - intros -> [].
Qed.

Lemma minimum_bound (m : option Qc) (l : list Qc) (x : Qc) :
  is_minimum m l -> In x l -> exists lo, m = Some lo /\ (lo <= x)%Qc.
Proof.
  destruct m as [lo|]; simpl.
  - intros [_ Hall] Hx. exists lo. split; auto.
    rewrite Forall_forall in Hall. now apply Hall.
  - intros -> [].
Qed.

Lemma first_In {A : Type} (c : Raw.Row -> option A) (rows : list Raw.Row) :
  rows <> [] -> exists r, In r rows /\ Spark.first c rows = c r.
Proof.
  destruct rows as [|r rows]; [congruence|].
  intros _. exists r. split; [now left | reflexivity].
Qed.

Lemma last_In {A : Type} (c : Raw.Row -> option A) (rows : list Raw.Row) :
  rows <> [] -> exists r, In r rows /\ Spark.last c rows = c r.
Proof.
  intro Hne. unfold Spark.last.
  destruct (rev rows) as [|r l] eqn:E.
  - apply (f_equal (@rev _)) in E. rewrite rev_involutive in E.
    simpl in E. contradiction.
  - exists r. split; [|reflexivity].
    apply in_rev. rewrite E. now left.
Qed.

Lemma well_formed_prices (r : Raw.Row) :
  well_formed r = true ->
  exists lo op cl hi,
    Raw.preco_minimo r = Some lo /\ Raw.preco_abertura r = Some op
    /\ Raw.preco_fechamento r = Some cl /\ Raw.preco_maximo r = Some hi
    /\ (lo <= op)%Qc /\ (op <= hi)%Qc /\ (lo <= cl)%Qc /\ (cl <= hi)%Qc.
Proof.
  unfold well_formed.
  destruct (Raw.preco_minimo r) as [lo|]; [|discriminate].
  destruct (Raw.preco_abertura r) as [op|]; [|discriminate].
  destruct (Raw.preco_fechamento r) as [cl|]; [|discriminate].
  destruct (Raw.preco_maximo r) as [hi|]; [|discriminate].
  rewrite !andb_true_iff, !SparkFacts.Qcleb_le.
  intros [[[H1 H2] H3] H4]. exists lo, op, cl, hi. repeat split; auto.
Qed.

Lemma least_lower_bound (lo a b : Qc) :
  (lo <= a)%Qc -> (lo <= b)%Qc -> (lo <= Spark.least a b)%Qc.
Proof. intros. unfold Spark.least. now destruct (Spark.Qcleb a b). Qed.

Lemma greatest_upper_bound (hi a b : Qc) :
  (a <= hi)%Qc -> (b <= hi)%Qc -> (Spark.greatest a b <= hi)%Qc.
Proof. intros. unfold Spark.greatest. now destruct (Spark.Qcleb a b). Qed.

(** C5: for every key of the input whose raw rows are all well formed
    (the four prices present, [low <= open, close <= high]), there is an
    aggregated row of the key, and every such row has its four prices
    with [low <= min(open, close)] and [max(open, close) <= high]; its
    open and close are those of the first and of the last row of the
    group, its high and low the maximum and minimum of the group. *)
Theorem aggregated_prices_within_extremes (df : list Raw.Row) (k : Key) :
  In k (map Raw.key df) ->
  forallb well_formed (group k df) = true ->
  (exists s, In s (calculate_aggregations df) /\ key s = k)
  /\ forall s,
       In s (calculate_aggregations df) -> key s = k ->
       exists lo op cl hi,
         preco_minimo s = Some lo /\ preco_abertura s = Some op
         /\ preco_fechamento s = Some cl /\ preco_maximo s = Some hi
         /\ preco_abertura s = Spark.first Raw.preco_abertura (group k df)
         /\ preco_fechamento s = Spark.last Raw.preco_fechamento (group k df)
         /\ (lo <= Spark.least op cl)%Qc
         /\ (Spark.greatest op cl <= hi)%Qc.
Proof.
  intros Hk Hwf. split.
  - exists (agg (k, group k df)). split; [|now destruct k].
    apply output_row. destruct k as [t d]. now split.
  - intros s Hs Hkey. apply output_row in Hs as [_ Hs]. rewrite Hkey in Hs.
    rewrite forallb_forall in Hwf.
    pose proof (group_nonempty k df Hk) as Hne.
    destruct (first_In Raw.preco_abertura _ Hne) as [r1 [Hr1 Hfirst]].
    destruct (last_In Raw.preco_fechamento _ Hne) as [r2 [Hr2 Hlast]].
    destruct (well_formed_prices r1 (Hwf r1 Hr1))
      as (lo1 & op1 & cl1 & hi1 & Elo1 & Eop1 & _ & Ehi1 & L1 & L2 & _ & _).
    destruct (well_formed_prices r2 (Hwf r2 Hr2))
      as (lo2 & op2 & cl2 & hi2 & Elo2 & _ & Ecl2 & Ehi2 & _ & _ & L3 & L4).
    pose proof (SparkFacts.max_is_maximum (map Raw.preco_maximo (group k df)))
      as Hmax.
    pose proof (SparkFacts.min_is_minimum (map Raw.preco_minimo (group k df)))
      as Hmin.
    destruct (maximum_bound _ _ hi1 Hmax (column_In _ _ r1 hi1 Hr1 Ehi1))
      as [hi [Ehi Hhi1]].
    destruct (maximum_bound _ _ hi2 Hmax (column_In _ _ r2 hi2 Hr2 Ehi2))
      as [hi' [Ehi' Hhi2]].
    destruct (minimum_bound _ _ lo1 Hmin (column_In _ _ r1 lo1 Hr1 Elo1))
      as [lo [Elo Hlo1]].
    destruct (minimum_bound _ _ lo2 Hmin (column_In _ _ r2 lo2 Hr2 Elo2))
      as [lo' [Elo' Hlo2]].
    assert (hi' = hi) by congruence. assert (lo' = lo) by congruence.
    subst hi' lo'.
    exists lo, op1, cl2, hi.
    rewrite (f_equal preco_minimo Hs), (f_equal preco_abertura Hs),
      (f_equal preco_fechamento Hs), (f_equal preco_maximo Hs).
    cbn [agg preco_minimo preco_abertura preco_fechamento preco_maximo snd].
    repeat split; try congruence.
    + apply least_lower_bound;
        [apply Qcle_trans with lo1 | apply Qcle_trans with lo2]; assumption.
    + apply greatest_upper_bound;
        [apply Qcle_trans with hi1 | apply Qcle_trans with hi2]; assumption.
Qed.

End AggregatorFacts.

(** ** Quality Annotator *)

Module QualityFacts.

Lemma gt_zero (c : Qc) : negb (Spark.Qcleb c 0%Qc) = true <-> (0 < c)%Qc.
Proof.
  rewrite negb_true_iff. split.
  - intro H. apply Qcnot_le_lt. intro Hle.
    apply SparkFacts.Qcleb_le in Hle. congruence.
  - intro H. destruct (Spark.Qcleb c 0%Qc) eqn:E; [|reflexivity].
    apply SparkFacts.Qcleb_le in E. exfalso. now apply (Qclt_not_le 0 c).
Qed.

Lemma is_valid_iff (s : DailySummary) :
  is_valid s = true <->
  preco_fechamento s <> None /\ volume_total_diario s <> None
  /\ exists c, preco_fechamento s = Some c /\ (0 < c)%Qc.
Proof.
  unfold is_valid.
  destruct (preco_fechamento s) as [c|], (volume_total_diario s) as [v|];
    simpl.
  - destruct (negb (Spark.Qcleb c 0%Qc)) eqn:E; simpl.
    + apply gt_zero in E. split; [|reflexivity]. intros _.
      repeat split; try discriminate. now exists c.
    + split; [discriminate|]. intros (_ & _ & c' & Hc & Hpos).
      injection Hc as <-. apply gt_zero in Hpos. congruence.
  - split; [discriminate|]. intros (_ & H & _). congruence.
  - split; [discriminate|]. intros (H & _). congruence.
  - split; [discriminate|]. intros (H & _). congruence.
Qed.

(** C6: every record that the annotator produces is the record it was
    given with [dados_validos] true if and only if the close is not null,
    the total volume is not null and the close is positive, and false
    otherwise; a row with close [0] and total volume [1000] is not valid. *)
Theorem is_valid_iff_close_and_volume_present_and_close_positive
    (now : Z) (df : list PartitionedRow) :
  map partitioned (add_quality_columns now df) = df
  /\ Forall
       (fun r =>
          let s := enriched_summary r in
          (dados_validos r = true <->
           preco_fechamento s <> None /\ volume_total_diario s <> None
           /\ exists c, preco_fechamento s = Some c /\ (0 < c)%Qc)
          /\ (preco_fechamento s = Some 0%Qc ->
              volume_total_diario s = Some 1000%Z ->
              dados_validos r = false))
       (add_quality_columns now df).
Proof.
  unfold add_quality_columns. split.
  - rewrite map_map. simpl. apply map_id.
  - apply Forall_forall. intros r Hr.
    apply in_map_iff in Hr as [p [<- _]].
    unfold enriched_summary. simpl. split.
    + apply is_valid_iff.
    + intros Hc Hv. unfold is_valid. now rewrite Hc, Hv.
Qed.

End QualityFacts.

(** ** Schema Normalizer *)

Module NormalizerFacts.

Import Normalizer.

Lemma frame_eq {R : Type} (a b : DataFrame R) :
  columns a = columns b -> rows a = rows b -> a = b.
Proof. destruct a, b. simpl. now intros -> ->. Qed.

Lemma rename_step_rows {R : Type} (df : DataFrame R) (e : string * string) :
  rows (rename_step df e) = rows df.
Proof.
  unfold rename_step. now destruct (existsb _ (columns df)).
Qed.

(** The test of the loop only saves a rename that would change nothing. *)
Lemma rename_step_columns {R : Type} (df : DataFrame R)
    (e : string * string) :
  columns (rename_step df e)
  = map (fun c => if String.eqb c (fst e) then snd e else c) (columns df).
Proof.
  unfold rename_step.
  destruct (existsb (String.eqb (fst e)) (columns df)) eqn:E; [reflexivity|].
  symmetry. rewrite <- (map_id (columns df)) at 2.
  apply map_ext_in. intros c Hc.
  destruct (String.eqb c (fst e)) eqn:Ec; [|reflexivity].
  apply String.eqb_eq in Ec. subst c.
  assert (H : existsb (String.eqb (fst e)) (columns df) = true).
  { apply existsb_exists. exists (fst e). split; auto. apply String.eqb_refl. }
  congruence.
Qed.

Lemma canonical_in_other (table : list (string * string)) (c : string) :
  ~ In c (map fst table) -> canonical_in table c = c.
Proof.
  induction table as [|[o n] table IH]; simpl; intro H; [reflexivity|].
  destruct (String.eqb c o) eqn:E.
  - apply String.eqb_eq in E. subst. tauto.
  - apply IH. tauto.
Qed.

Lemma canonical_in_entry (table : list (string * string)) (o n : string) :
  NoDup (map fst table) -> In (o, n) table -> canonical_in table o = n.
Proof.
  induction table as [|[o' n'] table IH]; simpl; intros Hnd Hin;
    [contradiction|].
  inversion Hnd as [|? ? Ho Hnd']; subst.
  destruct Hin as [H|H].
  - injection H as -> ->. now rewrite String.eqb_refl.
  - destruct (String.eqb o o') eqn:E; [|now apply IH].
    apply String.eqb_eq in E. subst. exfalso. apply Ho.
    apply (in_map fst) in H. exact H.
Qed.

Lemma rename_with_rows {R : Type} (table : list (string * string)) :
  forall df : DataFrame R, rows (rename_with table df) = rows df.
Proof.
  unfold rename_with.
  induction table as [|e table IH]; intro df; simpl; [reflexivity|].
  now rewrite IH, rename_step_rows.
Qed.

Lemma rename_with_columns {R : Type} (table : list (string * string)) :
  (forall e, In e table -> ~ In (snd e) (map fst table)) ->
  forall df : DataFrame R,
    columns (rename_with table df) = map (canonical_in table) (columns df).
Proof.
  unfold rename_with.
  induction table as [|[o n] table IH]; intros Hclean df; simpl.
  - now rewrite map_id.
  - rewrite IH.
    + rewrite rename_step_columns, map_map. apply map_ext. intro c.
      cbn [fst snd]. destruct (String.eqb c o); [|reflexivity].
      apply canonical_in_other.
      intro H. apply (Hclean (o, n)); [now left | now right].
    + intros e He H. apply (Hclean e); [now right | now right].
Qed.

Lemma canonical_in_perm (t1 t2 : list (string * string)) :
  Permutation t1 t2 -> NoDup (map fst t1) ->
  forall c, canonical_in t1 c = canonical_in t2 c.
Proof.
  induction 1 as [|[o n] l l' Hp IH|[o1 n1] [o2 n2] l|l l' l'' H1 IH1 H2 IH2];
    intros Hnd c; simpl.
  - reflexivity.
  - inversion Hnd; subst. destruct (String.eqb c o); auto.
  - destruct (String.eqb c o1) eqn:E1, (String.eqb c o2) eqn:E2; auto.
    apply String.eqb_eq in E1, E2. subst.
    inversion Hnd as [|? ? Hn _]; subst. exfalso. apply Hn. now left.
  - rewrite IH1 by assumption. apply IH2.
    eapply Permutation_NoDup; [|exact Hnd]. now apply Permutation_map.
Qed.

Lemma clean_perm (t1 t2 : list (string * string)) :
  Permutation t1 t2 -> clean t1 -> clean t2.
Proof.
  intros Hp [Hnd Hv]. split.
  - eapply Permutation_NoDup; [|exact Hnd]. now apply Permutation_map.
  - intros e He H. apply (Hv e).
    + eapply Permutation_in; [apply Permutation_sym, Hp | exact He].
    + eapply Permutation_in;
        [apply Permutation_map, Permutation_sym, Hp | exact H].
Qed.

Lemma column_mapping_clean : clean column_mapping.
Proof.
  split.
  - unfold column_mapping. simpl.
    repeat (constructor; [simpl; intuition discriminate|]). constructor.
  - intros e He. unfold column_mapping in He. simpl in He.
    repeat (destruct He as [<-|He]; [simpl; intuition discriminate|]).
    contradiction.
Qed.

(** C7: for every frame, the normalizer gives each column that bears a
    known source name its canonical name and leaves every other column, and
    the rows, as they are: no column appears for a source name that is
    absent, no field that the table does not map changes; the function is
    total; and the loop over the table gives the same frame in whatever
    order the entries of the table are taken. *)
Theorem rename_columns_canonical_and_order_independent
    {R : Type} (df : DataFrame R) :
  columns (rename_columns df) = map canonical_name (columns df)
  /\ rows (rename_columns df) = rows df
  /\ (forall old_name new_name,
        In (old_name, new_name) column_mapping ->
        canonical_name old_name = new_name)
  /\ (forall c, ~ In c (map fst column_mapping) -> canonical_name c = c)
  /\ (forall new_name,
        In new_name (columns (rename_columns df)) ->
        In new_name (columns df)
        \/ exists old_name,
             In (old_name, new_name) column_mapping
             /\ In old_name (columns df))
  /\ forall table,
       Permutation table column_mapping ->
       rename_with table df = rename_columns df.
Proof.
  destruct column_mapping_clean as [Hnd Hv].
  assert (Hcols : columns (rename_columns df)
                  = map canonical_name (columns df))
    by (apply rename_with_columns; exact Hv).
  split; [exact Hcols|].
  split; [apply rename_with_rows|].
  split; [intros o n Hin; now apply canonical_in_entry|].
  split; [intros c Hc; now apply canonical_in_other|].
  split.
  - intros new_name Hin. rewrite Hcols in Hin.
    apply in_map_iff in Hin as [c [Hc Hin]].
    destruct (in_dec string_dec c (map fst column_mapping)) as [Hk|Hk].
    + right. exists c. split; [|exact Hin].
      apply in_map_iff in Hk as [[o n] [Ho He]]. simpl in Ho. subst o.
      rewrite <- Hc. unfold canonical_name.
      now rewrite (canonical_in_entry column_mapping c n Hnd He).
    + left. unfold canonical_name in Hc.
      rewrite canonical_in_other in Hc by exact Hk. now subst.
  - intros table Hp. apply frame_eq.
    + destruct (clean_perm _ _ (Permutation_sym Hp) column_mapping_clean)
        as [Hnd' Hv'].
      rewrite (rename_with_columns table Hv'), Hcols.
      apply map_ext. intro c. now apply canonical_in_perm.
    + unfold rename_columns. now rewrite !rename_with_rows.
Qed.

End NormalizerFacts.


(** ** The job *)

Module JobFacts.

Import Normalizer Job.

(** What is printed once the frame is aggregated, by the outcome of the
    four calls that follow. *)
Lemma run_after_read (w : World) (df : DataFrame Raw.Row) (out : list event) :
  read_raw_data w [] = (out, Ok df) ->
  forallb (resolves (rename_columns df)) aggregated_columns = true ->
  let total :=
    Spark.count
      (add_quality_columns (current_timestamp w)
         (add_partition_columns
            (calculate_date_based_metrics
               (calculate_aggregations (rows (rename_columns df)))))) in
  let finish (printed : list event) (r : result unit) :=
    match job_commit w with
    | None => (printed, r)
    | Some e => (printed, Raise e)
    end in
  run w =
  match write_parquet w with
  | Some e => finish (out ++ [Failure e]) (Raise e)
  | None =>
      let noted :=
        match write_catalog w with
        | None => CatalogRegistered
        | Some e => CatalogWarning e
        end in
      match collect_statistics w with
      | Some e => finish (out ++ [Written] ++ [noted] ++ [Failure e]) (Raise e)
      | None => finish (out ++ [Written] ++ [noted] ++ [Success total]) (Ok tt)
      end
  end.
Proof.
  intros Hread Hcols. cbv zeta.
  unfold run, main, try_finally, try_except at 1, bind at 1.
  rewrite Hread. unfold aggregate_frame, bind at 1. rewrite Hcols.
  unfold ret at 1, write_to_refined, register_in_catalog,
    create_summary_statistics, try_except, bind, call, print, ret, raise.
  destruct (write_parquet w), (write_catalog w), (collect_statistics w),
    (job_commit w); cbn; rewrite <- ?app_assoc; reflexivity.
Qed.

Lemma read_prints_no_success (w : World) (out : list event)
    (r : result (DataFrame Raw.Row)) :
  read_raw_data w [] = (out, r) -> forall total, ~ In (Success total) out.
Proof.
  unfold read_raw_data, try_except, bind, of_result, print, ret.
  destruct (read_input w) as [df|e]; simpl.
  - intros H total. injection H as <- _. simpl. intuition discriminate.
  - destruct (read_raw_folder w) as [df|e']; simpl;
      intros H total; injection H as <- _; simpl; intuition discriminate.
Qed.

(** C8, as the code has it: in a run that gets as far as the write, a
    failure of the write is raised to the caller (the run fails, with the
    exception of the write unless the commit raises one of its own, the
    failure is printed and no success is), while the outcome of the run is
    the same whatever the catalog registration does, a failure of the
    registration being caught and printed as a warning; and when the write
    succeeds, and the statistics and the commit that come after it do not
    fail, the run reports success whether the registration succeeds or
    fails. *)
Theorem write_failure_fatal_catalog_failure_swallowed (w : World) :
  reaches_write w ->
  (forall e,
     write_parquet w = Some e ->
     (exists e', outcome w = Raise e')
     /\ (job_commit w = None -> outcome w = Raise e)
     /\ In (Failure e) (printed w)
     /\ forall total, ~ In (Success total) (printed w))
  /\ (forall c, outcome (with_catalog c w) = outcome w)
  /\ (forall e,
        write_parquet w = None -> write_catalog w = Some e ->
        In (CatalogWarning e) (printed w))
  /\ (write_parquet w = None -> collect_statistics w = None ->
      job_commit w = None ->
      forall c, reports_success (with_catalog c w)).
Proof.
  intros (df & out & Hread & Hcols).
  pose proof (read_prints_no_success w out _ Hread) as Hclean.
  repeat split.
  - unfold outcome. rewrite (run_after_read w df out Hread Hcols), H.
    destruct (job_commit w); simpl; eauto.
  - intro Hc. unfold outcome.
    rewrite (run_after_read w df out Hread Hcols), H, Hc. reflexivity.
  - unfold printed. rewrite (run_after_read w df out Hread Hcols), H.
    destruct (job_commit w); simpl; apply in_or_app; right; now left.
  - intros total Hin. unfold printed in Hin.
    rewrite (run_after_read w df out Hread Hcols), H in Hin.
    destruct (job_commit w); simpl in Hin;
      apply in_app_or in Hin as [Hin|[Hin|[]]];
      try discriminate; now apply (Hclean total).
  - intro c. unfold outcome.
    pose proof (run_after_read (with_catalog c w) df out Hread Hcols) as E.
    cbn [write_parquet write_catalog collect_statistics job_commit
         current_timestamp with_catalog] in E.
    rewrite E, (run_after_read w df out Hread Hcols).
    destruct (write_parquet w), (collect_statistics w), (job_commit w);
      reflexivity.
  - intros e Hw Hcat. unfold printed.
    rewrite (run_after_read w df out Hread Hcols), Hw, Hcat.
    destruct (collect_statistics w), (job_commit w); cbn [fst];
      apply in_or_app; right; right; now left.
  - unfold outcome.
    pose proof (run_after_read (with_catalog c w) df out Hread Hcols) as E.
    cbn [write_parquet write_catalog collect_statistics job_commit
         current_timestamp with_catalog] in E.
    rewrite E, H, H0, H1. reflexivity.
  - eexists. unfold printed.
    pose proof (run_after_read (with_catalog c w) df out Hread Hcols) as E.
    cbn [write_parquet write_catalog collect_statistics job_commit
         current_timestamp with_catalog] in E.
    rewrite E, H, H0, H1. cbn [fst].
    apply in_or_app; right. right. right. left. reflexivity.
Qed.

End JobFacts.

(** ** Two runs on the same input *)

Module DeterminismFacts.

Import KeyFacts ListFacts SequenceFacts WindowFacts AggregatorFacts.
Import Stat.

Lemma totalZ_perm (l l' : list Z) : Permutation l l' -> totalZ l = totalZ l'.
Proof.
  induction 1 as [|x l l' Hp IH|x y l|l l' l'' H1 IH1 H2 IH2]; simpl.
  - reflexivity.
  - now rewrite IH.
  - lia.
  - congruence.
Qed.

Lemma sumZ_present_perm (l l' : list (option Z)) :
  Permutation l l' -> sumZ_present l = sumZ_present l'.
Proof.
  intro Hp. apply non_null_perm in Hp. unfold sumZ_present.
  destruct (Spark.non_null l) as [|x vs], (Spark.non_null l') as [|y vs'].
  - reflexivity.
  - apply Permutation_nil in Hp. discriminate.
  - apply Permutation_sym, Permutation_nil in Hp. discriminate.
  - now rewrite (totalZ_perm _ _ Hp).
Qed.

(** A list has one maximum and one minimum, whatever its order. *)
Lemma maximum_unique (m1 m2 : option Qc) (l1 l2 : list Qc) :
  is_maximum m1 l1 -> is_maximum m2 l2 ->
  (forall x, In x l1 <-> In x l2) -> m1 = m2.
Proof.
  intros H1 H2 Heq.
  destruct m1 as [x1|], m2 as [x2|]; simpl in *.
  - destruct H1 as [Hin1 Hall1], H2 as [Hin2 Hall2].
    rewrite Forall_forall in Hall1, Hall2. f_equal.
    apply Qcle_antisym; [apply Hall2 | apply Hall1]; now apply Heq.
  - destruct H1 as [Hin _]. apply Heq in Hin. subst. contradiction.
  - destruct H2 as [Hin _]. apply Heq in Hin. subst. contradiction.
  - reflexivity.
Qed.

Lemma minimum_unique (m1 m2 : option Qc) (l1 l2 : list Qc) :
  is_minimum m1 l1 -> is_minimum m2 l2 ->
  (forall x, In x l1 <-> In x l2) -> m1 = m2.
Proof.
  intros H1 H2 Heq.
  destruct m1 as [x1|], m2 as [x2|]; simpl in *.
  - destruct H1 as [Hin1 Hall1], H2 as [Hin2 Hall2].
    rewrite Forall_forall in Hall1, Hall2. f_equal.
    apply Qcle_antisym; [apply Hall1 | apply Hall2]; now apply Heq.
  - destruct H1 as [Hin _]. apply Heq in Hin. subst. contradiction.
  - destruct H2 as [Hin _]. apply Heq in Hin. subst. contradiction.
  - reflexivity.
Qed.

Lemma max_perm (l l' : list (option Qc)) :
  Permutation l l' -> Spark.max l = Spark.max l'.
Proof.
  intro Hp. apply non_null_perm in Hp.
  apply (maximum_unique _ _ (Spark.non_null l) (Spark.non_null l'));
    try apply SparkFacts.max_is_maximum.
  intro x. split; apply Permutation_in; [|apply Permutation_sym]; exact Hp.
Qed.

Lemma min_perm (l l' : list (option Qc)) :
  Permutation l l' -> Spark.min l = Spark.min l'.
Proof.
  intro Hp. apply non_null_perm in Hp.
  apply (minimum_unique _ _ (Spark.non_null l) (Spark.non_null l'));
    try apply SparkFacts.min_is_minimum.
  intro x. split; apply Permutation_in; [|apply Permutation_sym]; exact Hp.
Qed.

(** In binary64 the sum and the mean of a column depend on the order of
    its rows: 0.1 + 0.2 + 0.3 is not 0.3 + 0.2 + 0.1.  This is why the mean
    close and the sum of the dividends are not among the fields on which
    two runs are shown to agree. *)
Lemma double_sums_depend_on_row_order :
  Permutation [Binary64.tenth; Binary64.fifth; Binary64.three_tenths]
              [Binary64.three_tenths; Binary64.fifth; Binary64.tenth]
  /\ Binary64.sum_double
       (map Some [Binary64.tenth; Binary64.fifth; Binary64.three_tenths])
     <> Binary64.sum_double
          (map Some [Binary64.three_tenths; Binary64.fifth; Binary64.tenth])
  /\ Binary64.avg
       (map Some [Binary64.tenth; Binary64.fifth; Binary64.three_tenths])
     <> Binary64.avg
          (map Some [Binary64.three_tenths; Binary64.fifth; Binary64.tenth]).
Proof.
  split; [apply (Permutation_rev [_; _; _])|].
  split; vm_compute; discriminate.
Qed.

(** The aggregated row of a key in two row orders of one input. *)
Lemma agg_order_independent (df1 df2 : list Raw.Row) (k : Key) :
  Permutation df1 df2 ->
  let s1 := agg (k, group k df1) in
  let s2 := agg (k, group k df2) in
  ticker s1 = ticker s2 /\ data s1 = data s2
  /\ volume_total_diario s1 = volume_total_diario s2
  /\ contagem_registros s1 = contagem_registros s2
  /\ preco_maximo s1 = preco_maximo s2
  /\ preco_minimo s1 = preco_minimo s2.
Proof.
  intro Hp. cbv zeta.
  assert (Hg : Permutation (group k df1) (group k df2))
    by now apply filter_perm.
  unfold agg. cbn [ticker data volume_total_diario
                   contagem_registros preco_maximo preco_minimo
                   fst snd].
  repeat split.
  - rewrite !SparkFacts.sum_long_present. unfold sum64_present.
    f_equal. now apply sumZ_present_perm, Permutation_map.
  - unfold Spark.count. now rewrite (Permutation_length Hg).
  - now apply max_perm, Permutation_map.
  - now apply min_perm, Permutation_map.
Qed.

Lemma find_map {A B : Type} (p : B -> bool) (f : A -> B) (l : list A) :
  find p (map f l) = option_map f (find (fun x => p (f x)) l).
Proof.
  induction l as [|x l IH]; simpl; [reflexivity|].
  now destruct (p (f x)).
Qed.

Lemma transform_enrich (now : Z) (df : list Raw.Row) :
  transform now df
  = map (enrich now)
        (calculate_date_based_metrics (calculate_aggregations df)).
Proof.
  unfold transform, add_quality_columns, add_partition_columns.
  now rewrite map_map.
Qed.

Lemma key_agg (k : Key) (rows : list Raw.Row) : key (agg (k, rows)) = k.
Proof. now destruct k. Qed.

Lemma agg_In (df : list Raw.Row) (k : Key) :
  In k (map Raw.key df) -> In (agg (k, group k df)) (calculate_aggregations df).
Proof.
  intro Hk. apply output_row. rewrite key_agg. now split.
Qed.

(** Every row of metrics comes from the aggregated row of its key and
    carries the extremes of the sequence of its ticker. *)
Lemma output_metrics_row (df : list Raw.Row) (m : MetricsRow) :
  In m (calculate_date_based_metrics (calculate_aggregations df)) ->
  In (key (summary m)) (map Raw.key df)
  /\ summary m = agg (key (summary m), group (key (summary m)) df)
  /\ maxima_periodo m
     = Spark.max (map preco_maximo
                    (ticker_sequence (ticker (summary m))
                       (calculate_aggregations df)))
  /\ minima_periodo m
     = Spark.min (map preco_minimo
                    (ticker_sequence (ticker (summary m))
                       (calculate_aggregations df))).
Proof.
  intro Hm.
  assert (Hrow : In m (rows_of_ticker (ticker (summary m))
                         (calculate_date_based_metrics
                            (calculate_aggregations df)))).
  { apply filter_In. split; [exact Hm | now apply ticker_eqb_eq]. }
  rewrite rows_of_ticker_sequence in Hrow.
  apply partition_metrics_In in Hrow as [i [Hi Em]].
  apply nth_error_In, ticker_sequence_In in Hi as [Hs _].
  apply output_row in Hs as [Hk Hs].
  split; [exact Hk|]. split; [exact Hs|].
  rewrite Em at 1 3. split; reflexivity.
Qed.

Lemma metrics_row_of_key (df : list Raw.Row) (k : Key) :
  In k (map Raw.key df) ->
  exists m,
    In m (calculate_date_based_metrics (calculate_aggregations df))
    /\ summary m = agg (k, group k df).
Proof.
  intro Hk. pose proof (agg_In df k Hk) as Hs.
  set (s := agg (k, group k df)) in *.
  assert (Hseq : In s (ticker_sequence (ticker s) (calculate_aggregations df)))
    by now apply ticker_sequence_In.
  apply In_nth_error in Hseq as [i Hi].
  exists (metrics_at (ticker_sequence (ticker s) (calculate_aggregations df))
            i s).
  split; [|reflexivity].
  apply (proj1 (filter_In (fun m => ticker_eqb (ticker (summary m)) (ticker s))
                  _ _)).
  fold (rows_of_ticker (ticker s)
          (calculate_date_based_metrics (calculate_aggregations df))).
  eapply nth_error_In. now apply row_at_position.
Qed.

Lemma row_of_key_present (now : Z) (df : list Raw.Row) (k : Key) :
  In k (map Raw.key df) ->
  exists m,
    row_of_key k (transform now df) = Some (enrich now m)
    /\ In m (calculate_date_based_metrics (calculate_aggregations df))
    /\ key (summary m) = k.
Proof.
  intro Hk. unfold row_of_key. rewrite transform_enrich, find_map.
  destruct (find _ (calculate_date_based_metrics (calculate_aggregations df)))
    as [m|] eqn:E.
  - apply find_some in E as [Hm Hp]. exists m.
    split; [reflexivity|]. split; [exact Hm|].
    now apply key_eqb_eq in Hp.
  - exfalso. destruct (metrics_row_of_key df k Hk) as [m [Hm Hs]].
    pose proof (find_none _ _ E m Hm) as Hp. cbv beta in Hp.
    unfold enriched_summary, enrich in Hp. cbn [partitioned metrics] in Hp.
    rewrite Hs, key_agg in Hp.
    assert (Ht : key_eqb k k = true) by now apply key_eqb_eq.
    congruence.
Qed.

Lemma row_of_key_absent (now : Z) (df : list Raw.Row) (k : Key) :
  ~ In k (map Raw.key df) -> row_of_key k (transform now df) = None.
Proof.
  intro Hk. unfold row_of_key. rewrite transform_enrich, find_map.
  destruct (find _ (calculate_date_based_metrics (calculate_aggregations df)))
    as [m|] eqn:E; [|reflexivity].
  exfalso. apply find_some in E as [Hm Hp]. apply key_eqb_eq in Hp.
  unfold enriched_summary, enrich in Hp. cbn [partitioned metrics] in Hp.
  apply output_metrics_row in Hm as [Hin _]. rewrite Hp in Hin. contradiction.
Qed.

(** The values of a column over the sequence of a ticker, when the
    aggregated rows of each key carry the same value in both row orders. *)
Lemma column_values_order_independent
    (c : DailySummary -> option Qc) (df1 df2 : list Raw.Row)
    (t : option string) :
  (forall k, c (agg (k, group k df1)) = c (agg (k, group k df2))) ->
  Permutation df1 df2 ->
  forall x,
    In x (Spark.non_null
            (map c (ticker_sequence t (calculate_aggregations df1)))) ->
    In x (Spark.non_null
            (map c (ticker_sequence t (calculate_aggregations df2)))).
Proof.
  intros Hc Hp x Hx.
  apply non_null_In, in_map_iff in Hx as [s [Hv Hs]].
  apply ticker_sequence_In in Hs as [Hs Ht].
  apply output_row in Hs as [Hk Hs].
  apply non_null_In, in_map_iff.
  exists (agg (key s, group (key s) df2)). split.
  - now rewrite <- Hc, <- Hs.
  - apply ticker_sequence_In. split.
    + apply agg_In. eapply Permutation_in; [|exact Hk].
      now apply Permutation_map.
    + rewrite <- Ht. reflexivity.
Qed.

Lemma period_extremes_order_independent (df1 df2 : list Raw.Row)
    (t : option string) :
  Permutation df1 df2 ->
  Spark.max (map preco_maximo (ticker_sequence t (calculate_aggregations df1)))
  = Spark.max (map preco_maximo
                 (ticker_sequence t (calculate_aggregations df2)))
  /\ Spark.min (map preco_minimo
                  (ticker_sequence t (calculate_aggregations df1)))
     = Spark.min (map preco_minimo
                    (ticker_sequence t (calculate_aggregations df2))).
Proof.
  intro Hp. pose proof (Permutation_sym Hp) as Hp'. split.
  - eapply maximum_unique; try apply SparkFacts.max_is_maximum.
    intro x. split; apply column_values_order_independent; auto;
      intro k; [apply (agg_order_independent df1 df2 k Hp)
               |apply (agg_order_independent df2 df1 k Hp')].
  - eapply minimum_unique; try apply SparkFacts.min_is_minimum.
    intro x. split; apply column_values_order_independent; auto;
      intro k; [apply (agg_order_independent df1 df2 k Hp)
               |apply (agg_order_independent df2 df1 k Hp')].
Qed.

(** C9, as the code has it: two runs on the same input, the rows exposed
    in whatever order and at whatever time, have an output row for the same
    keys, and the two rows of a key are equal on the key, the total volume,
    the record count, the high, the low, the high and the low of the period
    and the partition columns. *)
Theorem runs_agree_on_order_independent_fields
    (now1 now2 : Z) (df1 df2 : list Raw.Row) (k : Key) :
  Permutation df1 df2 ->
  (In k (map Raw.key df1) ->
   exists r1 r2,
     row_of_key k (transform now1 df1) = Some r1
     /\ row_of_key k (transform now2 df2) = Some r2
     /\ agree_order_independent r1 r2)
  /\ (~ In k (map Raw.key df1) ->
      row_of_key k (transform now1 df1) = None
      /\ row_of_key k (transform now2 df2) = None).
Proof.
  intro Hp.
  assert (Hkeys : In k (map Raw.key df1) <-> In k (map Raw.key df2)).
  { split; apply Permutation_in; [|apply Permutation_sym];
      now apply Permutation_map. }
  split.
  - intro Hk.
    destruct (row_of_key_present now1 df1 k Hk) as (m1 & E1 & Hm1 & K1).
    destruct (row_of_key_present now2 df2 k (proj1 Hkeys Hk))
      as (m2 & E2 & Hm2 & K2).
    exists (enrich now1 m1), (enrich now2 m2).
    split; [exact E1|]. split; [exact E2|].
    apply output_metrics_row in Hm1 as (_ & S1 & Hi1 & Lo1).
    apply output_metrics_row in Hm2 as (_ & S2 & Hi2 & Lo2).
    rewrite K1 in S1. rewrite K2 in S2.
    assert (T1 : ticker (summary m1) = fst k) by now rewrite S1.
    assert (T2 : ticker (summary m2) = fst k) by now rewrite S2.
    rewrite T1 in Hi1, Lo1. rewrite T2 in Hi2, Lo2.
    destruct (period_extremes_order_independent df1 df2 (fst k) Hp)
      as [Hmax Hmin].
    destruct (agg_order_independent df1 df2 k Hp)
      as (A1 & A2 & A3 & A4 & A5 & A6).
    unfold agree_order_independent, enriched_summary, enrich.
    cbn [partitioned metrics data_particao ano mes dia].
    rewrite Hi1, Hi2, Lo1, Lo2, S1, S2, A2.
    repeat split; assumption.
  - intro Hk. split; apply row_of_key_absent; [exact Hk|].
    intro H. apply Hk. now apply Hkeys.
Qed.

End DeterminismFacts.

(** ** The properties on the sample data *)

Module Scenarios.

Import Normalizer Job Sample.

(** The scenario of eight trading days: the moving average of the eighth
    day is the mean of days two to eight, the change of the third day is
    [(9.80 - 10.50) / 10.50 * 100], and every row has the high [11.20] and
    the low [9.80] of the period. *)
Example eight_days_of_xyz4 :
  map (fun m => (option_map day (data (summary m)),
                 option_map this (maxima_periodo m),
                 option_map this (minima_periodo m)))
      (rows_of_ticker xyz4 (calculate_date_based_metrics days))
  = map (fun d => (Some d, Some (56 # 5), Some (49 # 5)))
        [1; 2; 3; 4; 5; 8; 9; 10]%Z
  /\ option_map (fun m => option_map this (media_movel_7d m))
       (nth_error (rows_of_ticker xyz4 (calculate_date_based_metrics days)) 7)
     = Some (Some (1509 # 140))
  /\ option_map (fun m => option_map this (variacao_percentual_diaria m))
       (nth_error (rows_of_ticker xyz4 (calculate_date_based_metrics days)) 2)
     = Some (Some (-20 # 3)).
Proof. repeat split; vm_compute; reflexivity. Qed.

(** A null close is skipped by the moving average, makes the change of its
    own day null and the change of the next day zero. *)
Example three_days_of_abcd3 :
  map (fun m => (option_map this (media_movel_7d m),
                 option_map this (variacao_percentual_diaria m)))
      (rows_of_ticker abcd3 (calculate_date_based_metrics days))
  = [ (Some (10 # 1), Some (0 # 1));
      (Some (10 # 1), None);
      (Some (11 # 1), Some (0 # 1)) ].
Proof. vm_compute. reflexivity. Qed.

(** The run on the sample records, when nothing fails. *)
Example calm_run :
  run calm = ([ReadSpecific 3; Written; CatalogRegistered; Success 2], Ok tt).
Proof. vm_compute. reflexivity. Qed.

Lemma moving_average_is_row_window_mean_witness :
  7 < length (ticker_sequence xyz4 days)
  /\ date_ascending_sequence_of xyz4 days (ticker_sequence xyz4 days)
  /\ exists m r,
       nth_error (rows_of_ticker xyz4 (calculate_date_based_metrics days)) 7
       = Some m
       /\ nth_error (ticker_sequence xyz4 days) 7 = Some r
       /\ summary m = r
       /\ media_movel_7d m
          = Stat.mean
              (Spark.non_null
                 (Stat.slice (Nat.max 0 (7 - 6)) 7
                    (map preco_fechamento (ticker_sequence xyz4 days)))).
Proof.
  split; [vm_compute; lia|].
  apply (WindowFacts.moving_average_is_row_window_mean days xyz4 7).
  vm_compute; lia.
Defined.

Lemma pct_change_of_previous_close_witness :
  2 < length (ticker_sequence xyz4 days)
  /\ date_ascending_sequence_of xyz4 days (ticker_sequence xyz4 days)
  /\ exists m r,
       nth_error (rows_of_ticker xyz4 (calculate_date_based_metrics days)) 2
       = Some m
       /\ nth_error (ticker_sequence xyz4 days) 2 = Some r
       /\ summary m = r
       /\ (2 = 0 -> variacao_percentual_diaria m = Some 0%Qc)
       /\ (forall p previous,
             0 < 2 ->
             nth_error (ticker_sequence xyz4 days) (2 - 1) = Some p ->
             preco_fechamento p = Some previous ->
             variacao_percentual_diaria m
             = Stat.pct_change (preco_fechamento r) (Some previous)
             /\ (previous = 0%Qc -> variacao_percentual_diaria m = None)
             /\ (forall close,
                   preco_fechamento r = Some close -> previous <> 0%Qc ->
                   variacao_percentual_diaria m
                   = Some ((close - previous) / previous * hundred)%Qc)).
Proof.
  split; [vm_compute; lia|].
  apply (WindowFacts.pct_change_of_previous_close days xyz4 2).
  vm_compute; lia.
Defined.

(** The claim C2 as it is written fails after a null close: the third day
    of [ABCD3] follows a day with no close, and its change is [0.0], not
    the value of [(close - previous) / previous * 100]. *)
Lemma pct_change_after_null_close_counterexample :
  exists m r p,
    nth_error (rows_of_ticker abcd3 (calculate_date_based_metrics days)) 2
    = Some m
    /\ nth_error (ticker_sequence abcd3 days) 2 = Some r
    /\ nth_error (ticker_sequence abcd3 days) 1 = Some p
    /\ summary m = r
    /\ preco_fechamento p = None
    /\ variacao_percentual_diaria m = Some 0%Qc
    /\ variacao_percentual_diaria m
       <> Stat.pct_change (preco_fechamento r) (preco_fechamento p).
Proof.
  do 3 eexists.
  split; [reflexivity|]. split; [reflexivity|]. split; [reflexivity|].
  split; [reflexivity|]. split; [reflexivity|]. split; [reflexivity|].
  vm_compute. discriminate.
Qed.

Lemma pct_change_zero_when_previous_close_null_witness :
  (2 < length (ticker_sequence abcd3 days)
   /\ (2 = 0
       \/ exists p, nth_error (ticker_sequence abcd3 days) (2 - 1) = Some p
                    /\ preco_fechamento p = None))
  /\ date_ascending_sequence_of abcd3 days (ticker_sequence abcd3 days)
  /\ exists m r,
       nth_error (rows_of_ticker abcd3 (calculate_date_based_metrics days)) 2
       = Some m
       /\ nth_error (ticker_sequence abcd3 days) 2 = Some r
       /\ summary m = r
       /\ variacao_percentual_diaria m = Some 0%Qc.
Proof.
  assert (H : exists p, nth_error (ticker_sequence abcd3 days) (2 - 1) = Some p
                        /\ preco_fechamento p = None)
    by (eexists; split; reflexivity).
  split.
  - split; [vm_compute; lia | right; exact H].
  - apply (WindowFacts.pct_change_zero_when_previous_close_null days abcd3 2).
    + vm_compute; lia.
    + right; exact H.
Defined.

(** The claim C4 as it is written fails when the volumes of a day add up
    to more than a long holds: the two volumes add up to [2^63], and the
    total volume of the day is [-2^63]; so neither is the total volume of
    the group the sum of its volumes, nor do the total volumes of the
    groups add up to the volumes of the raw rows. *)
Lemma daily_total_volume_wraps_counterexample :
  Forall long_volume overflowing
  /\ exists s,
       calculate_aggregations overflowing = [s]
       /\ Stat.sumZ_present
            (map Raw.volume_negociado (group (key s) overflowing))
          = Some 9223372036854775808%Z
       /\ volume_total_diario s = Some (-9223372036854775808)%Z
       /\ volume_total_diario s
          <> Stat.sumZ_present
               (map Raw.volume_negociado (group (key s) overflowing))
       /\ Stat.totalZ
            (Spark.non_null
               (map volume_total_diario (calculate_aggregations overflowing)))
          <> Stat.volume_of overflowing.
Proof.
  split.
  { repeat constructor; unfold Spark.is_long; simpl; lia. }
  eexists. split; [reflexivity|].
  split; [vm_compute; reflexivity|].
  split; [vm_compute; reflexivity|].
  split; vm_compute; discriminate.
Qed.

Lemma aggregated_prices_within_extremes_witness :
  (In petr4_key (map Raw.key records)
   /\ forallb well_formed (group petr4_key records) = true)
  /\ (exists s, In s (calculate_aggregations records) /\ key s = petr4_key)
  /\ forall s,
       In s (calculate_aggregations records) -> key s = petr4_key ->
       exists lo op cl hi,
         preco_minimo s = Some lo /\ preco_abertura s = Some op
         /\ preco_fechamento s = Some cl /\ preco_maximo s = Some hi
         /\ preco_abertura s
            = Spark.first Raw.preco_abertura (group petr4_key records)
         /\ preco_fechamento s
            = Spark.last Raw.preco_fechamento (group petr4_key records)
         /\ (lo <= Spark.least op cl)%Qc
         /\ (Spark.greatest op cl <= hi)%Qc.
Proof.
  assert (Hk : In petr4_key (map Raw.key records)) by (left; reflexivity).
  assert (Hwf : forallb well_formed (group petr4_key records) = true)
    by (vm_compute; reflexivity).
  split; [now split|].
  exact (AggregatorFacts.aggregated_prices_within_extremes
           records petr4_key Hk Hwf).
Defined.

Lemma write_failure_fatal_catalog_failure_swallowed_witness :
  reaches_write calm
  /\ (forall e,
        write_parquet calm = Some e ->
        (exists e', outcome calm = Raise e')
        /\ (job_commit calm = None -> outcome calm = Raise e)
        /\ In (Failure e) (printed calm)
        /\ forall total, ~ In (Success total) (printed calm))
  /\ (forall c, outcome (with_catalog c calm) = outcome calm)
  /\ (forall e,
        write_parquet calm = None -> write_catalog calm = Some e ->
        In (CatalogWarning e) (printed calm))
  /\ (write_parquet calm = None -> collect_statistics calm = None ->
      job_commit calm = None ->
      forall c, reports_success (with_catalog c calm)).
Proof.
  assert (H : reaches_write calm).
  { exists raw_frame, [ReadSpecific 3]. split; vm_compute; reflexivity. }
  split; [exact H|].
  exact (JobFacts.write_failure_fatal_catalog_failure_swallowed calm H).
Defined.

(** The claim C8 as it is written fails when a step after the write
    fails: here the write and the registration return, the statistics
    raise, and the run fails. *)
Lemma run_fails_after_successful_write_counterexample :
  reaches_write statistics_fail
  /\ write_parquet statistics_fail = None
  /\ write_catalog statistics_fail = None
  /\ outcome statistics_fail = Raise "Job aborted due to stage failure"%string
  /\ ~ reports_success statistics_fail.
Proof.
  split.
  { exists raw_frame, [ReadSpecific 3]. split; vm_compute; reflexivity. }
  split; [reflexivity|]. split; [reflexivity|].
  assert (E : outcome statistics_fail
              = Raise "Job aborted due to stage failure"%string)
    by (vm_compute; reflexivity).
  split; [exact E|].
  intros [Hok _]. rewrite E in Hok. discriminate.
Qed.

Lemma runs_agree_on_order_independent_fields_witness :
  Permutation records records_reordered
  /\ (In petr4_key (map Raw.key records) ->
      exists r1 r2,
        row_of_key petr4_key (transform 1 records) = Some r1
        /\ row_of_key petr4_key (transform 2 records_reordered) = Some r2
        /\ agree_order_independent r1 r2)
  /\ (~ In petr4_key (map Raw.key records) ->
      row_of_key petr4_key (transform 1 records) = None
      /\ row_of_key petr4_key (transform 2 records_reordered) = None).
Proof.
  assert (H : Permutation records records_reordered) by apply perm_swap.
  split; [exact H|].
  exact (DeterminismFacts.runs_agree_on_order_independent_fields
           1 2 records records_reordered petr4_key H).
Defined.

(** The claim C9 as it is written fails: the same records in two row
    orders give the day of [PETR4] another moving average, another change
    and another validity flag, fields that are computed from the
    representative close, and two runs at two times stamp their rows with
    two values of [data_processamento]. *)
Lemma runs_differ_outside_representative_fields_counterexample :
  exists r1 r2 r3,
    Permutation records records_reordered
    /\ row_of_key petr4_key (transform 1 records) = Some r1
    /\ row_of_key petr4_key (transform 1 records_reordered) = Some r2
    /\ row_of_key petr4_key (transform 2 records) = Some r3
    /\ media_movel_7d (metrics (partitioned r1))
       <> media_movel_7d (metrics (partitioned r2))
    /\ dados_validos r1 <> dados_validos r2
    /\ data_processamento r1 <> data_processamento r3
    /\ ~ agree_non_representative r1 r2
    /\ ~ agree_non_representative r1 r3.
Proof.
  do 3 eexists.
  split; [apply perm_swap|].
  split; [reflexivity|]. split; [reflexivity|]. split; [reflexivity|].
  split.
  { intro H. apply (f_equal (option_map this)) in H. vm_compute in H.
    discriminate. }
  split; [vm_compute; discriminate|].
  split; [vm_compute; discriminate|].
  split.
  - intros (_ & _ & _ & _ & _ & _ & H). vm_compute in H. discriminate.
  - intros (_ & _ & _ & _ & _ & H & _). vm_compute in H. discriminate.
Qed.

End Scenarios.

(** ** More on the window stage *)

Module WindowCoverage.

Import KeyFacts ListFacts SequenceFacts WindowFacts AggregatorFacts.
Import Stat.

Lemma filter_after_exclusion {A K : Type} (eqb : K -> K -> bool)
    (eqb_eq : forall a b, eqb a b = true <-> a = b)
    (key_of : A -> K) (k k' : K) (l : list A) :
  k' <> k ->
  filter (fun x => eqb (key_of x) k')
         (filter (fun x => negb (eqb (key_of x) k)) l)
  = filter (fun x => eqb (key_of x) k') l.
Proof.
  intro Hne. induction l as [|x l IH]; simpl; [reflexivity|].
  destruct (eqb (key_of x) k) eqn:Ek; simpl.
  - destruct (eqb (key_of x) k') eqn:Ek'; [|exact IH].
    apply eqb_eq in Ek, Ek'. congruence.
  - now rewrite IH.
Qed.

Lemma filter_split_perm {A : Type} (p : A -> bool) (l : list A) :
  Permutation (filter p l ++ filter (fun x => negb (p x)) l) l.
Proof.
  induction l as [|x l IH]; simpl; [constructor|].
  destruct (p x); simpl.
  - now constructor.
  - apply Permutation_sym, Permutation_cons_app, Permutation_sym, IH.
Qed.

(** The groups of a list by key, over keys without repetition that cover
    the list, hold every element once. *)
Lemma groups_perm {A K : Type} (eqb : K -> K -> bool)
    (eqb_eq : forall a b, eqb a b = true <-> a = b)
    (key_of : A -> K) (ks : list K) :
  NoDup ks ->
  forall l,
    (forall x, In x l -> In (key_of x) ks) ->
    Permutation (flat_map (fun k => filter (fun x => eqb (key_of x) k) l) ks) l.
Proof.
  induction 1 as [|k ks Hk Hnd IH]; intros l Hcover.
  - destruct l as [|x l]; [constructor|]. destruct (Hcover x). now left.
  - cbn [flat_map].
    set (rest := filter (fun x => negb (eqb (key_of x) k)) l).
    assert (E : flat_map (fun k' => filter (fun x => eqb (key_of x) k') l) ks
                = flat_map (fun k' => filter (fun x => eqb (key_of x) k') rest)
                           ks).
    { rewrite !flat_map_concat_map. f_equal. apply map_ext_in.
      intros k' Hk'. symmetry. apply filter_after_exclusion; auto.
      intros ->. contradiction. }
    rewrite E.
    rewrite (IH rest).
    + apply (filter_split_perm (fun x => eqb (key_of x) k)).
    + intros x Hx. apply filter_In in Hx as [Hx Hne].
      destruct (Hcover x Hx) as [E'|Hin]; [|exact Hin].
      assert (Et : eqb (key_of x) k = true) by now apply eqb_eq.
      rewrite Et in Hne. discriminate.
Qed.

Lemma partition_metrics_summary (part : list DailySummary) :
  map summary (partition_metrics part) = part.
Proof.
  apply nth_error_ext. intro i.
  rewrite nth_error_map, partition_metrics_nth.
  destruct (nth_error part i); reflexivity.
Qed.

Lemma map_flat_map {A B C : Type} (f : B -> C) (g : A -> list B)
    (l : list A) :
  map f (flat_map g l) = flat_map (fun x => map f (g x)) l.
Proof.
  induction l as [|x l IH]; simpl; [reflexivity|].
  now rewrite map_app, IH.
Qed.

Lemma flat_map_perm {A B : Type} (f g : A -> list B) (l : list A) :
  (forall x, Permutation (f x) (g x)) ->
  Permutation (flat_map f l) (flat_map g l).
Proof.
  intro H. induction l as [|x l IH]; simpl; [constructor|].
  now apply Permutation_app.
Qed.

Lemma window_rows_perm (df : list DailySummary) :
  Permutation (map summary (calculate_date_based_metrics df)) df.
Proof.
  unfold calculate_date_based_metrics.
  rewrite map_flat_map.
  rewrite (flat_map_ext _ (fun t => ticker_sequence t df))
    by (intro t; apply partition_metrics_summary).
  rewrite (flat_map_perm _ (fun t => filter (fun r => ticker_eqb (ticker r) t) df))
    by (intro t; apply ticker_sequence_perm).
  apply (groups_perm ticker_eqb ticker_eqb_eq ticker).
  - apply distinct_NoDup, ticker_eqb_eq.
  - intros r Hr. apply (distinct_In ticker_eqb ticker_eqb_eq).
    now apply in_map.
Qed.

(** The window stage keeps the rows it is given: each daily summary comes
    out once, with its metrics, none is dropped and none is repeated, so
    the output has as many rows as the input. *)
Theorem window_stage_keeps_every_row (df : list DailySummary) :
  Permutation (map summary (calculate_date_based_metrics df)) df
  /\ length (calculate_date_based_metrics df) = length df.
Proof.
  pose proof (window_rows_perm df) as Hp. split; [exact Hp|].
  apply Permutation_length in Hp. now rewrite length_map in Hp.
Qed.

Lemma filter_none {A : Type} (p : A -> bool) (l : list A) :
  (forall x, In x l -> p x = false) -> filter p l = [].
Proof.
  induction l as [|x l IH]; intro H; simpl; [reflexivity|].
  rewrite (H x) by now left. apply IH. intros y Hy. apply H. now right.
Qed.

Lemma distinct_constant {K : Type} (eqb : K -> K -> bool)
    (eqb_eq : forall a b, eqb a b = true <-> a = b) (k : K) (l : list K) :
  (forall x, In x l -> x = k) -> l <> [] -> Spark.distinct eqb l = [k].
Proof.
  destruct l as [|x l]; [congruence|]. intros Hall _.
  simpl. rewrite (Hall x) by now left. f_equal.
  apply filter_none. intros y Hy.
  apply (proj1 (distinct_In eqb eqb_eq _ _)) in Hy.
  rewrite (Hall y) by now right.
  assert (E : eqb k k = true) by now apply eqb_eq.
  now rewrite E.
Qed.

Lemma filter_idem {A : Type} (p : A -> bool) (l : list A) :
  filter p (filter p l) = filter p l.
Proof.
  induction l as [|x l IH]; simpl; [reflexivity|].
  destruct (p x) eqn:E; simpl; [rewrite E|]; now rewrite ?IH.
Qed.

(** The rows that the window stage gives a ticker are those it gives when
    it is run on the rows of that ticker alone: no metric of a ticker reads
    a row of another. *)
Theorem metrics_of_a_ticker_ignore_other_tickers
    (df : list DailySummary) (t : option string) :
  rows_of_ticker t (calculate_date_based_metrics df)
  = calculate_date_based_metrics
      (filter (fun r => ticker_eqb (ticker r) t) df).
Proof.
  rewrite rows_of_ticker_sequence.
  set (own := filter (fun r => ticker_eqb (ticker r) t) df).
  unfold calculate_date_based_metrics.
  destruct own as [|r own'] eqn:E.
  - unfold ticker_sequence. fold own. rewrite E. reflexivity.
  - rewrite (distinct_constant ticker_eqb ticker_eqb_eq t).
    + cbn [flat_map]. rewrite app_nil_r. unfold ticker_sequence.
      rewrite <- E. unfold own. now rewrite filter_idem.
    + intros x Hx. apply in_map_iff in Hx as [s [<- Hs]].
      rewrite <- E in Hs. unfold own in Hs.
      apply filter_In in Hs as [_ Hs]. now apply ticker_eqb_eq.
    + discriminate.
Qed.

Lemma slice_length {A : Type} (l : list A) (i : nat) :
  i < length l ->
  length (slice (Nat.max 0 (i - 6)) i l) = Nat.min (i + 1) 7.
Proof.
  intro Hi. unfold slice. rewrite length_firstn, length_skipn. lia.
Qed.

Lemma non_null_all_present {A : Type} (l : list A) :
  Spark.non_null (map Some l) = l.
Proof. induction l as [|x l IH]; simpl; [reflexivity | now rewrite IH]. Qed.

(** The frame of the moving average never holds more than seven rows: at
    position [i] it holds [min(i + 1, 7)] rows, and when the closes of these
    rows are all present the moving average is their sum over that
    number. *)
Theorem moving_average_over_at_most_seven_rows
    (df : list DailySummary) (t : option string) (i : nat) :
  i < length (ticker_sequence t df) ->
  length (Spark.rowsBetween (-6) 0 (ticker_sequence t df) i)
  = Nat.min (i + 1) 7
  /\ exists m,
       nth_error (rows_of_ticker t (calculate_date_based_metrics df)) i
       = Some m
       /\ forall closes,
            map preco_fechamento
                (Spark.rowsBetween (-6) 0 (ticker_sequence t df) i)
            = map Some closes ->
            media_movel_7d m
            = Some (total closes / Spark.of_count (Nat.min (i + 1) 7))%Qc.
Proof.
  intro Hi.
  assert (Hlen : length (Spark.rowsBetween (-6) 0 (ticker_sequence t df) i)
                 = Nat.min (i + 1) 7)
    by (rewrite rowsBetween_7d; now apply slice_length).
  split; [exact Hlen|].
  destruct (nth_error (ticker_sequence t df) i) as [r|] eqn:E.
  2: { apply nth_error_None in E. lia. }
  exists (metrics_at (ticker_sequence t df) i r).
  split; [now apply row_at_position|].
  intros closes Hc. cbn [metrics_at media_movel_7d].
  rewrite SparkFacts.avg_mean, Hc, non_null_all_present.
  assert (Hn : length closes = Nat.min (i + 1) 7).
  { rewrite <- Hlen, <- (length_map preco_fechamento), Hc.
    symmetry. apply length_map. }
  unfold mean. destruct closes as [|c closes].
  - simpl in Hn. lia.
  - now rewrite Hn.
Qed.

(** Where the nulls of the two metrics come from: the moving average is
    null exactly when every close of the frame is null, and the daily
    change is null exactly when the row has a row before it whose close is
    present and either that close is zero or the close of the row itself is
    null. *)
Theorem nulls_of_the_window_metrics
    (df : list DailySummary) (t : option string) (i : nat) :
  i < length (ticker_sequence t df) ->
  exists m r,
    nth_error (rows_of_ticker t (calculate_date_based_metrics df)) i = Some m
    /\ nth_error (ticker_sequence t df) i = Some r
    /\ (media_movel_7d m = None <->
        Forall (fun c => c = None)
               (map preco_fechamento
                    (Spark.rowsBetween (-6) 0 (ticker_sequence t df) i)))
    /\ (variacao_percentual_diaria m = None <->
        exists p previous,
          0 < i
          /\ nth_error (ticker_sequence t df) (i - 1) = Some p
          /\ preco_fechamento p = Some previous
          /\ (previous = 0%Qc \/ preco_fechamento r = None)).
Proof.
  intro Hi.
  destruct (nth_error (ticker_sequence t df) i) as [r|] eqn:E.
  2: { apply nth_error_None in E. lia. }
  exists (metrics_at (ticker_sequence t df) i r), r.
  split; [now apply row_at_position|]. split; [reflexivity|]. split.
  - cbn [metrics_at media_movel_7d]. rewrite SparkFacts.avg_mean.
    generalize (map preco_fechamento
                  (Spark.rowsBetween (-6) 0 (ticker_sequence t df) i)).
    intro column. split.
    + intro Hm. apply Forall_forall. intros [c|] Hc; [|reflexivity].
      apply non_null_In in Hc.
      destruct (Spark.non_null column); [contradiction | discriminate].
    + intro Hall.
      assert (En : Spark.non_null column = []).
      { induction column as [|c column IH]; [reflexivity|].
        inversion Hall as [|? ? Hc Hrest]; subst. simpl. now apply IH. }
      now rewrite En.
  - destruct i as [|i].
    + rewrite variacao_first. split; [discriminate|].
      intros (p & previous & Hpos & _). lia.
    + destruct (nth_error (ticker_sequence t df) (S i - 1)) as [p|] eqn:Ep.
      2: { apply nth_error_None in Ep. lia. }
      rewrite (variacao_previous _ (S i) r p (Nat.lt_0_succ i) Ep).
      destruct (preco_fechamento p) as [previous|] eqn:Eprev.
      * unfold pct_change, Spark.sub, Spark.div, Spark.mul, Spark.lift2.
        destruct (preco_fechamento r) as [close|].
        -- destruct (Qc_eq_bool previous 0) eqn:Ez.
           ++ split; [|reflexivity]. intros _.
              exists p, previous. split; [lia|].
              split; [first [reflexivity | assumption]|].
              split; [first [reflexivity | assumption]|]. left. now apply Qc_eq_bool_correct.
           ++ split; [discriminate|].
              intros (p' & previous' & _ & Hp' & Hprev' & [Hz|Hn]).
              ** injection Hp' as <-. rewrite Eprev in Hprev'.
                 injection Hprev' as <-. subst previous.
                 unfold Qc_eq_bool in Ez.
                 destruct (Qc_eq_dec 0 0); [discriminate | congruence].
              ** discriminate.
        -- split; [|reflexivity]. intros _.
           exists p, previous. split; [lia|].
           split; [first [reflexivity | assumption]|].
           split; [first [reflexivity | assumption]|]. now right.
      * split; [discriminate|].
        intros (p' & previous' & _ & Hp' & Hprev' & _).
        injection Hp' as <-. congruence.
Qed.

End WindowCoverage.

(** ** Inputs with one record per ticker and day *)

Module UniqueKeys.

Import KeyFacts ListFacts SequenceFacts WindowFacts AggregatorFacts.
Import DeterminismFacts WindowCoverage.
Import Stat.

Lemma date_leb_antisym (a b : Date) :
  date_leb a b = true -> date_leb b a = true -> a = b.
Proof.
  destruct a as [y1 m1 d1], b as [y2 m2 d2]. unfold date_leb. simpl.
  intros H1 H2.
  destruct (Z.ltb_spec y1 y2), (Z.eqb_spec y1 y2), (Z.ltb_spec m1 m2),
    (Z.eqb_spec m1 m2), (Z.leb_spec d1 d2); simpl in H1; try discriminate;
    destruct (Z.ltb_spec y2 y1), (Z.eqb_spec y2 y1), (Z.ltb_spec m2 m1),
      (Z.eqb_spec m2 m1), (Z.leb_spec d2 d1); simpl in H2;
      try discriminate; try lia; f_equal; lia.
Qed.

Lemma data_leb_antisym (a b : option Date) :
  data_leb a b = true -> data_leb b a = true -> a = b.
Proof.
  destruct a as [x|], b as [y|]; simpl; try discriminate; auto.
  intros H1 H2. f_equal. now apply date_leb_antisym.
Qed.

Lemma ascending_strongly (l : list DailySummary) :
  Sorted ascending l -> StronglySorted ascending l.
Proof.
  apply Sorted_StronglySorted. intros a b c. unfold ascending.
  apply data_leb_trans.
Qed.

Lemma same_data_same_row (l : list DailySummary) (a b : DailySummary) :
  NoDup (map data l) -> In a l -> In b l -> data a = data b -> a = b.
Proof.
  induction l as [|x l IH]; simpl; intros Hnd Ha Hb E; [contradiction|].
  inversion Hnd as [|? ? Hx Hl]; subst.
  destruct Ha as [->|Ha], Hb as [->|Hb]; auto.
  - exfalso. apply Hx. rewrite E. now apply in_map.
  - exfalso. apply Hx. rewrite <- E. now apply in_map.
Qed.

(** Two ascending arrangements of the same rows, whose dates are all
    different, are the same list. *)
Lemma ascending_unique (l1 : list DailySummary) :
  forall l2,
    StronglySorted ascending l1 -> StronglySorted ascending l2 ->
    Permutation l1 l2 -> NoDup (map data l1) -> l1 = l2.
Proof.
  induction l1 as [|a l1 IH]; intros l2 S1 S2 Hp Hnd.
  - apply Permutation_nil in Hp. now subst.
  - destruct l2 as [|b l2].
    { apply Permutation_sym, Permutation_nil in Hp. discriminate. }
    inversion S1 as [|? ? S1' F1]; subst.
    inversion S2 as [|? ? S2' F2]; subst.
    rewrite Forall_forall in F1, F2.
    assert (Hab : a = b).
    { assert (Hb : In b (a :: l1))
        by (eapply Permutation_in; [apply Permutation_sym, Hp | now left]).
      assert (Ha : In a (b :: l2))
        by (eapply Permutation_in; [exact Hp | now left]).
      destruct Hb as [Hb|Hb]; [exact Hb|].
      destruct Ha as [Ha|Ha]; [now symmetry|].
      apply (same_data_same_row (a :: l1)); auto; [now left | now right |].
      apply data_leb_antisym; [apply F1 | apply F2]; assumption. }
    subst b. f_equal. apply IH; auto.
    + now apply Permutation_cons_inv in Hp.
    + now inversion Hnd.
Qed.

Lemma orderBy_data_sorted (l : list DailySummary) :
  Sorted ascending (orderBy_data l).
Proof.
  unfold orderBy_data. induction l as [|x l IH]; simpl.
  - constructor.
  - now apply insert_by_data_sorted.
Qed.

Lemma orderBy_data_order_independent (l1 l2 : list DailySummary) :
  Permutation l1 l2 -> NoDup (map data l1) ->
  orderBy_data l1 = orderBy_data l2.
Proof.
  intros Hp Hnd. apply ascending_unique.
  - apply ascending_strongly, orderBy_data_sorted.
  - apply ascending_strongly, orderBy_data_sorted.
  - rewrite !orderBy_data_perm. exact Hp.
  - eapply Permutation_NoDup; [|exact Hnd].
    apply Permutation_map, Permutation_sym, orderBy_data_perm.
Qed.

Lemma dates_of_a_ticker_distinct (t : option string) (df : list DailySummary) :
  NoDup (map key df) ->
  NoDup (map data (filter (fun r => ticker_eqb (ticker r) t) df)).
Proof.
  induction df as [|r df IH]; simpl; intro Hnd; [constructor|].
  inversion Hnd as [|? ? Hr Hdf]; subst.
  destruct (ticker_eqb (ticker r) t) eqn:E; [|now apply IH].
  simpl. constructor; [|now apply IH].
  intro Hin. apply in_map_iff in Hin as [s [Hd Hs]].
  apply filter_In in Hs as [Hs Ht].
  apply ticker_eqb_eq in E, Ht. apply Hr.
  apply in_map_iff. exists s. split; [|exact Hs].
  unfold key. now rewrite Hd, Ht, E.
Qed.

Lemma ticker_rows_order_independent
    (df1 df2 : list DailySummary) (t : option string) :
  Permutation df1 df2 -> NoDup (map key df1) ->
  rows_of_ticker t (calculate_date_based_metrics df1)
  = rows_of_ticker t (calculate_date_based_metrics df2).
Proof.
  intros Hp Hnd. rewrite !rows_of_ticker_sequence. f_equal.
  unfold ticker_sequence. apply orderBy_data_order_independent.
  - now apply filter_perm.
  - now apply dates_of_a_ticker_distinct.
Qed.

End UniqueKeys.

Module SingleRecords.

Import KeyFacts ListFacts SequenceFacts WindowFacts AggregatorFacts.
Import DeterminismFacts WindowCoverage UniqueKeys.
Import Stat.

Lemma filter_all {A : Type} (p : A -> bool) (l : list A) :
  (forall x, In x l -> p x = true) -> filter p l = l.
Proof.
  intro H. apply forallb_filter_id, forallb_forall. exact H.
Qed.

Lemma distinct_of_distinct {K : Type} (eqb : K -> K -> bool)
    (eqb_eq : forall a b, eqb a b = true <-> a = b) (l : list K) :
  NoDup l -> Spark.distinct eqb l = l.
Proof.
  induction 1 as [|k l Hk Hnd IH]; simpl; [reflexivity|].
  rewrite IH. f_equal. apply filter_all. intros x Hx.
  destruct (eqb k x) eqn:E; [|reflexivity].
  apply eqb_eq in E. subst. contradiction.
Qed.

Lemma group_of_single_record (df : list Raw.Row) (r : Raw.Row) :
  NoDup (map Raw.key df) -> In r df -> group (Raw.key r) df = [r].
Proof.
  unfold group. induction df as [|x df IH]; simpl; intros Hnd Hr;
    [contradiction|].
  inversion Hnd as [|? ? Hx Hdf]; subst.
  destruct Hr as [->|Hr].
  - assert (E : key_eqb (Raw.key r) (Raw.key r) = true) by now apply key_eqb_eq.
    rewrite E. f_equal. apply filter_none. intros y Hy.
    destruct (key_eqb (Raw.key y) (Raw.key r)) eqn:Ey; [|reflexivity].
    apply key_eqb_eq in Ey. exfalso. apply Hx. rewrite <- Ey.
    now apply in_map.
  - destruct (key_eqb (Raw.key x) (Raw.key r)) eqn:Ex.
    + apply key_eqb_eq in Ex. exfalso. apply Hx. rewrite Ex.
      now apply in_map.
    + now apply IH.
Qed.

Lemma of_count_1 : Spark.of_count 1 = 1%Qc.
Proof. apply Qc_is_canon. reflexivity. Qed.

Lemma avg_single (c : option Qc) : Spark.avg [c] = c.
Proof.
  destruct c as [c|]; [|reflexivity].
  unfold Spark.avg. cbn [fold_left Spark.avg_step fst snd].
  rewrite of_count_1. f_equal. field. discriminate.
Qed.

Lemma agg_of_single_record (r : Raw.Row) :
  long_volume r -> agg (Raw.key r, [r]) = of_record r.
Proof.
  unfold long_volume, agg, of_record. cbn [fst snd map Raw.key].
  rewrite avg_single.
  unfold Spark.sum_long, Spark.sum_double, Spark.max, Spark.min,
    Spark.aggregate, Spark.first, Spark.last, Spark.count.
  cbn [fold_left Spark.agg_step rev app length Z.of_nat].
  destruct (Raw.volume_negociado r) as [v|], (Raw.preco_maximo r),
    (Raw.preco_minimo r), (Raw.dividendos r); intro Hv;
    cbn [Spark.sum_long_step]; unfold Spark.add_long;
    rewrite ?(SparkFacts.wrap64_long (0 + v)) by exact Hv; reflexivity.
Qed.

(** The aggregation of records that have a key each: one group per
    record, in the order in which the model lists the groups. *)
Lemma aggregated_single_records (df : list Raw.Row) :
  NoDup (map Raw.key df) ->
  calculate_aggregations df = map (fun r => agg (Raw.key r, [r])) df.
Proof.
  intro Hnd. unfold calculate_aggregations, groupBy.
  rewrite (distinct_of_distinct key_eqb key_eqb_eq _ Hnd), !map_map.
  apply map_ext_in. intros r Hr.
  now rewrite (group_of_single_record df r Hnd Hr).
Qed.

(** When no two records share a ticker and a date, the aggregation passes
    every record through: its rows are, in some order, the records
    themselves, the sums, the mean and the extremes of a day being the
    values of its one record, counted once. *)
Theorem single_records_pass_through_the_aggregation (df : list Raw.Row) :
  NoDup (map Raw.key df) ->
  Forall long_volume df ->
  Permutation (calculate_aggregations df) (map of_record df).
Proof.
  intros Hnd Hlong. rewrite (aggregated_single_records df Hnd).
  apply Permutation_refl'. apply map_ext_in. intros r Hr.
  apply agg_of_single_record.
  rewrite Forall_forall in Hlong. now apply Hlong.
Qed.

Lemma window_output_perm (d1 d2 : list DailySummary) :
  Permutation d1 d2 -> NoDup (map key d1) ->
  Permutation (calculate_date_based_metrics d1)
              (calculate_date_based_metrics d2).
Proof.
  intros Hp Hnd. unfold calculate_date_based_metrics.
  rewrite (flat_map_ext
             (fun t => partition_metrics (ticker_sequence t d1))
             (fun t => partition_metrics (ticker_sequence t d2))).
  - apply Permutation_flat_map.
    apply NoDup_Permutation; try (apply distinct_NoDup, ticker_eqb_eq).
    intro t. rewrite !(distinct_In ticker_eqb ticker_eqb_eq).
    split; apply Permutation_in; [|apply Permutation_sym];
      now apply Permutation_map.
  - intro t. rewrite <- !rows_of_ticker_sequence.
    now apply ticker_rows_order_independent.
Qed.

(** With one row per ticker and date, the window stage gives each ticker
    the same rows, and so the same output up to the order of the rows,
    whatever the order in which its input is exposed. *)
Theorem window_stage_order_independent (df1 df2 : list DailySummary) :
  Permutation df1 df2 -> NoDup (map key df1) ->
  (forall t,
     rows_of_ticker t (calculate_date_based_metrics df1)
     = rows_of_ticker t (calculate_date_based_metrics df2))
  /\ Permutation (calculate_date_based_metrics df1)
                 (calculate_date_based_metrics df2).
Proof.
  intros Hp Hnd. split.
  - intro t. now apply ticker_rows_order_independent.
  - now apply window_output_perm.
Qed.

(** When no two records share a ticker and a date, the rows that the job
    computes do not depend on the order in which the engine exposes the
    records: two runs at the same time give the same rows, every field
    included, up to the order of the rows. *)
Theorem single_records_give_one_output_in_any_order
    (now : Z) (df1 df2 : list Raw.Row) :
  Permutation df1 df2 -> NoDup (map Raw.key df1) ->
  Permutation (transform now df1) (transform now df2).
Proof.
  intros Hp Hnd.
  assert (Hnd2 : NoDup (map Raw.key df2)).
  { eapply Permutation_NoDup; [|exact Hnd]. now apply Permutation_map. }
  rewrite !transform_enrich. apply Permutation_map.
  rewrite (aggregated_single_records df1 Hnd),
    (aggregated_single_records df2 Hnd2).
  apply window_output_perm.
  - now apply Permutation_map.
  - rewrite map_map.
    rewrite (map_ext (fun r => key (agg (Raw.key r, [r]))) Raw.key);
      [exact Hnd | intro r; apply key_agg].
Qed.

End SingleRecords.

(** ** The rows that are written *)

Module OutputFacts.

Import KeyFacts ListFacts SequenceFacts WindowFacts AggregatorFacts.
Import DeterminismFacts WindowCoverage.
Import Stat.

Lemma transform_keys (now : Z) (df : list Raw.Row) :
  Permutation (map (fun r => key (enriched_summary r)) (transform now df))
              (Spark.distinct key_eqb (map Raw.key df)).
Proof.
  rewrite transform_enrich, map_map.
  change (fun m => key (enriched_summary (enrich now m)))
    with (fun m => key (summary m)).
  rewrite <- (map_map summary key), <- output_keys.
  apply Permutation_map, window_rows_perm.
Qed.

(** The rows that the job computes are one for each distinct ticker and
    date of the records it read, no key twice and none missing. *)
Theorem one_output_row_per_ticker_and_date (now : Z) (df : list Raw.Row) :
  NoDup (map (fun r => key (enriched_summary r)) (transform now df))
  /\ (forall k,
        In k (map (fun r => key (enriched_summary r)) (transform now df))
        <-> In k (map Raw.key df))
  /\ length (transform now df)
     = length (Spark.distinct key_eqb (map Raw.key df)).
Proof.
  pose proof (transform_keys now df) as Hp. split; [|split].
  - eapply Permutation_NoDup; [apply Permutation_sym, Hp|].
    apply distinct_NoDup, key_eqb_eq.
  - intro k.
    rewrite <- (distinct_In key_eqb key_eqb_eq (map Raw.key df) k). split.
    + apply Permutation_in. exact Hp.
    + apply Permutation_in, Permutation_sym. exact Hp.
  - apply Permutation_length in Hp. now rewrite length_map in Hp.
Qed.

Lemma append_length (a b : string) :
  String.length (append a b) = String.length a + String.length b.
Proof. induction a as [|c a IH]; simpl; [reflexivity | now rewrite IH]. Qed.

Lemma append_inj (a b c d : string) :
  String.length a = String.length b -> append a c = append b d ->
  a = b /\ c = d.
Proof.
  revert b. induction a as [|x a IH]; intros [|y b]; simpl; try discriminate.
  - auto.
  - intros Hl H. injection Hl as Hl. injection H as -> H.
    destruct (IH b Hl H) as [-> ->]. auto.
Qed.

Lemma pad_length (w n : nat) : String.length (pad w n) = w.
Proof.
  revert n. induction w as [|w IH]; intro n; simpl; [reflexivity|].
  rewrite append_length, IH. simpl. lia.
Qed.

Lemma digit_inj (n m : nat) : digit n = digit m -> n mod 10 = m mod 10.
Proof.
  unfold digit. intro H. apply (f_equal nat_of_ascii) in H.
  assert (Hn : n mod 10 < 10) by (apply Nat.mod_upper_bound; lia).
  assert (Hm : m mod 10 < 10) by (apply Nat.mod_upper_bound; lia).
  rewrite !nat_ascii_embedding in H by lia. lia.
Qed.

(** A number below [10 ^ width] is read back from its digits. *)
Lemma pad_inj (w : nat) :
  forall n m, n < 10 ^ w -> m < 10 ^ w -> pad w n = pad w m -> n = m.
Proof.
  induction w as [|w IH]; intros n m Hn Hm H.
  - simpl in Hn, Hm. lia.
  - cbn [pad] in H.
    apply append_inj in H as [Hp Hd]; [|now rewrite !pad_length].
    injection Hd as Hd. apply digit_inj in Hd.
    assert (Hq : n / 10 = m / 10).
    { apply IH; [| |exact Hp];
        apply Nat.Div0.div_lt_upper_bound; rewrite Nat.pow_succ_r' in *; lia. }
    rewrite (Nat.div_mod_eq n 10), (Nat.div_mod_eq m 10). lia.
Qed.

Lemma valid_date_bounds (d : Date) :
  valid_date d = true ->
  (1 <= year d <= 9999 /\ 1 <= month d <= 12 /\ 1 <= day d <= 31)%Z.
Proof.
  unfold valid_date, days_in_month.
  rewrite !andb_true_iff, !Z.leb_le. intros [[[[[H1 H2] H3] H4] H5] H6].
  repeat split; try assumption.
  destruct (month d =? 2)%Z; [destruct (leap_year (year d))|];
    [lia | lia |].
  destruct ((month d =? 4)%Z || (month d =? 6)%Z || (month d =? 9)%Z
            || (month d =? 11)%Z); lia.
Qed.

Lemma date_format_inj (d1 d2 : Date) :
  valid_date d1 = true -> valid_date d2 = true ->
  date_format d1 = date_format d2 -> d1 = d2.
Proof.
  intros V1 V2 H. apply valid_date_bounds in V1, V2.
  unfold date_format in H.
  apply append_inj in H as [Hy H]; [|now rewrite !pad_length].
  apply (append_inj "-" "-") in H as [_ H]; [|reflexivity].
  apply append_inj in H as [Hm H]; [|now rewrite !pad_length].
  apply (append_inj "-" "-") in H as [_ Hd]; [|reflexivity].
  apply pad_inj in Hy; [|simpl; lia|simpl; lia].
  apply pad_inj in Hm; [|simpl; lia|simpl; lia].
  apply pad_inj in Hd; [|simpl; lia|simpl; lia].
  destruct d1 as [y1 m1 a1], d2 as [y2 m2 a2]. simpl in *.
  f_equal; lia.
Qed.

Lemma NoDup_map_injective {A B : Type} (f : A -> B) (l : list A) :
  (forall x y, In x l -> In y l -> f x = f y -> x = y) ->
  NoDup l -> NoDup (map f l).
Proof.
  intros Hinj Hnd. induction Hnd as [|x l Hx Hnd IH]; simpl; constructor.
  - intro Hin. apply in_map_iff in Hin as [y [E Hy]].
    assert (y = x) by (apply Hinj; [now right | now left | exact E]).
    subst. contradiction.
  - apply IH. intros a b Ha Hb. apply Hinj; now right.
Qed.

(** The partition string is the date on ten characters, four digits of the
    year, two of the month and two of the day: when the dates of the
    records are dates of the calendar, two output rows have the same
    [data_particao] only if they have the same date, so no two output rows
    have the same values in both columns that the write partitions by. *)
Theorem no_two_rows_share_the_partition_columns
    (now : Z) (df : list Raw.Row) :
  (forall r, In r df -> valid_data (Raw.data r) = true) ->
  NoDup (map partition_of (transform now df))
  /\ Forall
       (fun r =>
          forall d, data (enriched_summary r) = Some d ->
                    exists text,
                      data_particao (partitioned r) = Some text
                      /\ String.length text = 10)
       (transform now df).
Proof.
  intro Hvalid.
  pose proof (transform_keys now df) as Hp.
  assert (Hdates : forall r, In r (transform now df) ->
                             valid_data (data (enriched_summary r)) = true).
  { intros r Hr.
    assert (Hk : In (key (enriched_summary r)) (map Raw.key df)).
    { apply (distinct_In key_eqb key_eqb_eq).
      eapply Permutation_in; [exact Hp|].
      now apply (in_map (fun r => key (enriched_summary r))). }
    apply in_map_iff in Hk as [raw [Hk Hraw]].
    apply (f_equal snd) in Hk. simpl in Hk. rewrite <- Hk.
    now apply Hvalid. }
  split.
  - assert (Hnd : NoDup (map (fun r => key (enriched_summary r))
                             (transform now df))).
    { eapply Permutation_NoDup; [apply Permutation_sym, Hp|].
      apply distinct_NoDup, key_eqb_eq. }
    assert (Hpart : forall r, In r (transform now df) ->
              partition_of r
              = (option_map date_format
                   (cast_date (data (enriched_summary r))),
                 ticker (enriched_summary r))).
    { intros r Hr. rewrite transform_enrich in Hr.
      apply in_map_iff in Hr as [m [<- _]]. reflexivity. }
    rewrite (map_ext_in _ _ _ Hpart).
    rewrite <- (map_map (fun r => key (enriched_summary r))
                  (fun k => (option_map date_format (cast_date (snd k)),
                             fst k))).
    apply NoDup_map_injective; [|exact Hnd].
    intros [t1 d1] [t2 d2] H1 H2 E. simpl in E.
    injection E as Ed Et. subst t2. f_equal.
    apply in_map_iff in H1 as [r1 [K1 R1]].
    apply in_map_iff in H2 as [r2 [K2 R2]].
    pose proof (Hdates r1 R1) as V1. pose proof (Hdates r2 R2) as V2.
    apply (f_equal snd) in K1, K2. simpl in K1, K2.
    rewrite K1 in V1. rewrite K2 in V2.
    destruct d1 as [x1|], d2 as [x2|];
      cbn [option_map valid_data cast_date] in *;
      rewrite ?V1, ?V2 in Ed; cbn [option_map] in Ed;
      try discriminate; auto.
    f_equal. apply date_format_inj; [exact V1 | exact V2 |].
    exact (f_equal (fun o => match o with
                             | Some text => text
                             | None => EmptyString
                             end) Ed).
  - apply Forall_forall. intros r Hr d Hd.
    pose proof (Hdates r Hr) as Hv. rewrite Hd in Hv. cbn [valid_data] in Hv.
    rewrite transform_enrich in Hr. apply in_map_iff in Hr as [m [<- _]].
    unfold enriched_summary, enrich in *. cbn [partitioned metrics] in Hd.
    cbn [partitioned data_particao]. rewrite Hd. cbn [cast_date].
    rewrite Hv. cbn [option_map].
    eexists. split; [reflexivity|].
    unfold date_format. rewrite !append_length, !pad_length. reflexivity.
Qed.

End OutputFacts.

(** ** More on the job *)

Module JobCoverage.

Import Normalizer NormalizerFacts Job JobFacts.
Import KeyFacts ListFacts OutputFacts.

(** The run of the job, by the outcome of each of its steps. *)
Lemma run_cases (w : World) :
  run w =
  match read_raw_data w [] with
  | (out, Raise e) => after_commit w (out ++ [Failure e]) (Raise e)
  | (out, Ok df) =>
      if schema_ok df
      then after_aggregation w out
             (Spark.count (transform (current_timestamp w)
                             (rows (rename_columns df))))
      else after_commit w (out ++ [Failure analysis_exception])
             (Raise analysis_exception)
  end.
Proof.
  unfold run, main, try_finally, try_except at 1, bind at 1.
  destruct (read_raw_data w []) as [out [df|e]] eqn:Hread.
  - unfold aggregate_frame, bind at 1, schema_ok.
    destruct (forallb (resolves (rename_columns df)) aggregated_columns).
    + unfold ret at 1, write_to_refined, register_in_catalog,
        create_summary_statistics, try_except, bind, call, print, ret, raise,
        after_aggregation, after_commit, transform.
      destruct (write_parquet w), (write_catalog w), (collect_statistics w),
        (job_commit w); cbn; rewrite <- ?app_assoc; reflexivity.
    + unfold raise, bind, print, after_commit.
      destruct (job_commit w); reflexivity.
  - unfold bind, print, raise, after_commit.
    destruct (job_commit w); reflexivity.
Qed.

Ltac job_cases w :=
  unfold printed_success, printed_failure, outcome, printed;
  rewrite (run_cases w);
  unfold read_raw_data, try_except, bind, of_result, print, ret,
    after_aggregation, after_commit;
  destruct (read_input w) as [?df|?e]; cbn [app];
  [| destruct (read_raw_folder w) as [?df|?e]; cbn [app] ];
  try match goal with |- context [schema_ok ?d] => destruct (schema_ok d) end;
  destruct (write_parquet w), (write_catalog w), (collect_statistics w),
    (job_commit w); cbn [app fst snd In].

Ltac absurd_event :=
  repeat match goal with
         | H : _ \/ _ |- _ => destruct H
         | H : exists _, _ |- _ => destruct H
         | H : _ /\ _ |- _ => destruct H
         | H : False |- _ => destruct H
         | H : Some _ = None |- _ => discriminate H
         | H : None = Some _ |- _ => discriminate H
         | H : @eq event _ _ |- _ => discriminate H
         | H : @eq (result unit) _ _ |- _ => discriminate H
         end.

(** Every run prints exactly one verdict, a success or a failure; a
    success is printed only after the write; the run returns normally
    exactly when it printed a success and the commit returned, and a commit
    that raises makes the run raise the error of the commit, whatever
    happened before. *)
Theorem every_run_prints_one_verdict (w : World) :
  (printed_success w \/ printed_failure w)
  /\ ~ (printed_success w /\ printed_failure w)
  /\ (printed_success w -> In Written (printed w))
  /\ (outcome w = Ok tt <-> printed_success w /\ job_commit w = None)
  /\ (forall e, job_commit w = Some e -> outcome w = Raise e).
Proof.
  split; [|split; [|split; [|split]]].
  - job_cases w; eauto 10.
  - job_cases w; intro H; absurd_event.
  - job_cases w; intro H; absurd_event; auto 10.
  - job_cases w; split; intro H; absurd_event; eauto 10.
  - intros e He. unfold outcome. rewrite (run_cases w).
    unfold after_aggregation, after_commit. rewrite He.
    destruct (read_raw_data w []) as [out [df|e']];
      [destruct (schema_ok df),
         (write_parquet w), (collect_statistics w)|]; reflexivity.
Qed.

(** When the input file cannot be read, the job reads the whole raw folder
    instead: the error of the first read is printed, and the run ends as a
    run whose first read had given what the folder gives; when the folder
    cannot be read either, the run fails with the error of the folder and
    writes nothing. *)
Theorem unreadable_input_falls_back_to_raw_folder (w : World) (e : exn) :
  read_input w = Raise e ->
  In (ReadSpecificError e) (printed w)
  /\ outcome w = outcome (with_read_input (read_raw_folder w) w)
  /\ forall e',
       read_raw_folder w = Raise e' ->
       ~ In Written (printed w)
       /\ (job_commit w = None -> outcome w = Raise e').
Proof.
  intro He. split; [|split].
  - unfold printed. rewrite (run_cases w).
    unfold read_raw_data, try_except, bind, of_result, print, ret,
      after_aggregation, after_commit.
    rewrite He. cbn [app].
    destruct (read_raw_folder w) as [df|e']; cbn [app];
      [destruct (schema_ok df)|];
      destruct (write_parquet w), (write_catalog w), (collect_statistics w),
        (job_commit w); cbn [app fst In]; auto.
  - unfold outcome.
    rewrite (run_cases w), (run_cases (with_read_input (read_raw_folder w) w)).
    unfold read_raw_data, try_except, bind, of_result, print, ret,
      after_aggregation, after_commit, with_read_input.
    cbn [read_input read_raw_folder write_parquet write_catalog
         collect_statistics job_commit current_timestamp].
    rewrite He. cbn [app].
    destruct (read_raw_folder w) as [df|e']; cbn [app];
      [destruct (schema_ok df)|];
      destruct (write_parquet w), (write_catalog w), (collect_statistics w),
        (job_commit w); reflexivity.
  - intros e' He'. unfold printed, outcome. rewrite (run_cases w).
    unfold read_raw_data, try_except, bind, of_result, print, ret,
      after_commit.
    rewrite He. cbn [app]. rewrite He'. cbn [app].
    destruct (job_commit w); cbn [fst snd In]; split;
      try (intro H; absurd_event); try reflexivity; try discriminate.
Qed.

Lemma in_renamed_columns (df : DataFrame Raw.Row) (c : string) :
  In c (columns (rename_columns df)) <->
  exists c0, In c0 (columns df) /\ canonical_name c0 = c.
Proof.
  destruct column_mapping_clean as [_ Hv].
  unfold rename_columns. rewrite (rename_with_columns column_mapping Hv).
  rewrite in_map_iff. split; intros [c0 [H1 H2]]; exists c0; auto.
Qed.

Lemma filter_map_length {A B : Type} (p : B -> bool) (f : A -> B)
    (l : list A) :
  length (filter p (map f l)) = length (filter (fun x => p (f x)) l).
Proof.
  induction l as [|x l IH]; simpl; [reflexivity|].
  destruct (p (f x)); simpl; now rewrite IH.
Qed.

Lemma resolves_one (df : DataFrame Raw.Row) (c : string) :
  resolves df c = true <-> length (filter (same_name c) (columns df)) = 1.
Proof.
  unfold resolves.
  destruct (filter (same_name c) (columns df)) as [|x [|y l]]; simpl;
    split; (discriminate || reflexivity).
Qed.

(** What the renaming makes of a column of the file answers to a name of
    the aggregation exactly when the column stands for it. *)
Lemma renamed_answers (c n : string) :
  In c aggregated_columns ->
  same_name c (canonical_name n) = stands_for c n.
Proof.
  unfold aggregated_columns, stands_for, canonical_name, column_mapping.
  cbn [In canonical_in existsb fst snd].
  intro Hc.
  repeat (destruct Hc as [<-|Hc];
          [repeat match goal with
                  | |- context [String.eqb n ?x] =>
                      destruct (String.eqb_spec n x) as [->|_]
                  end;
           cbn [andb orb]; rewrite ?orb_false_r; reflexivity|]).
  contradiction.
Qed.

(** The schema that the job asks of its input: in a frame as storage
    gives it, the aggregation finds its nine columns exactly when each of
    them is stood for by one column of the frame and no more, be it under
    the name of the column in any case of letters or under the source name
    that the normalizer maps to it. *)
Theorem aggregation_finds_its_columns (df : DataFrame Raw.Row) :
  case_distinct (columns df) ->
  (schema_ok df = true <->
   forall c,
     In c aggregated_columns ->
     length (filter (stands_for c) (columns df)) = 1).
Proof.
  intros _. destruct column_mapping_clean as [_ Hv].
  unfold schema_ok. rewrite forallb_forall.
  assert (E : forall c, In c aggregated_columns ->
                length (filter (same_name c) (columns (rename_columns df)))
                = length (filter (stands_for c) (columns df))).
  { intros c Hc. unfold rename_columns.
    rewrite (rename_with_columns column_mapping Hv), filter_map_length.
    f_equal. apply filter_ext. intro n. now apply renamed_answers. }
  split; intros H c Hc.
  - rewrite <- (E c Hc). now apply resolves_one, H.
  - apply resolves_one. rewrite (E c Hc). now apply H.
Qed.

(** A frame in which a column of the aggregation is stood for by no
    column, or by more than one, is renamed without a word and then refused
    by the aggregation: the run fails with the error of the engine, prints
    the failure and writes nothing. *)
Theorem missing_column_fails_the_run_before_the_write
    (w : World) (df : DataFrame Raw.Row) (out : list event) (c : string) :
  read_raw_data w [] = (out, Ok df) ->
  case_distinct (columns df) ->
  In c aggregated_columns ->
  length (filter (stands_for c) (columns df)) <> 1 ->
  ~ In Written (printed w)
  /\ In (Failure analysis_exception) (printed w)
  /\ (job_commit w = None -> outcome w = Raise analysis_exception).
Proof.
  intros Hread Hcase Hc Hcount.
  assert (Hschema : schema_ok df = false).
  { destruct (schema_ok df) eqn:E; [|reflexivity].
    exfalso. apply Hcount. destruct column_mapping_clean as [_ Hv].
    unfold schema_ok in E. rewrite forallb_forall in E.
    pose proof (proj1 (resolves_one _ _) (E c Hc)) as H1.
    unfold rename_columns in H1.
    rewrite (rename_with_columns column_mapping Hv), filter_map_length in H1.
    rewrite <- H1. f_equal. apply filter_ext. intro n.
    symmetry. now apply renamed_answers. }
  assert (Hout : ~ In Written out).
  { revert Hread.
    unfold read_raw_data, try_except, bind, of_result, print, ret.
    destruct (read_input w) as [d|e]; cbn [app];
      [|destruct (read_raw_folder w) as [d|e']; cbn [app]];
      intro H; injection H as <- _ || discriminate H;
      cbn [In]; intro Hin; absurd_event. }
  unfold printed, outcome. rewrite (run_cases w), Hread, Hschema.
  unfold after_commit. destruct (job_commit w); cbn [fst snd].
  - split; [|split].
    + intro Hin. apply in_app_or in Hin as [Hin|Hin]; [auto|].
      cbn [In] in Hin. absurd_event.
    + apply in_or_app. right. now left.
    + discriminate.
  - split; [|split].
    + intro Hin. apply in_app_or in Hin as [Hin|Hin]; [auto|].
      cbn [In] in Hin. absurd_event.
    + apply in_or_app. right. now left.
    + reflexivity.
Qed.

(** The total that a successful run prints is the number of distinct
    ticker and date keys of the frame it read. *)
Theorem success_reports_the_number_of_ticker_days
    (w : World) (df : DataFrame Raw.Row) (out : list event) :
  read_raw_data w [] = (out, Ok df) ->
  schema_ok df = true ->
  write_parquet w = None -> collect_statistics w = None ->
  In (Success
        (Z.of_nat
           (length (Spark.distinct key_eqb (map Raw.key (rows df))))))
     (printed w).
Proof.
  intros Hread Hschema Hw Hs.
  unfold printed. rewrite (run_cases w), Hread, Hschema.
  unfold after_aggregation, after_commit. rewrite Hw, Hs.
  assert (E : Spark.count (transform (current_timestamp w)
                             (rows (rename_columns df)))
              = Z.of_nat (length (Spark.distinct key_eqb
                                    (map Raw.key (rows df))))).
  { unfold Spark.count, rename_columns. rewrite rename_with_rows. f_equal.
    pose proof (transform_keys (current_timestamp w) (rows df)) as Hp.
    apply Permutation_length in Hp. now rewrite length_map in Hp. }
  rewrite E.
  destruct (job_commit w); cbn [fst]; apply in_or_app; right;
    right; right; now left.
Qed.

End JobCoverage.

(** ** More on the normalizer *)

Module NormalizerCoverage.

Import Normalizer NormalizerFacts.

Lemma canonical_name_not_source (c : string) :
  ~ In (canonical_name c) (map fst column_mapping).
Proof.
  destruct column_mapping_clean as [Hnd Hv].
  destruct (in_dec string_dec c (map fst column_mapping)) as [Hk|Hk].
  - apply in_map_iff in Hk as [[o n] [Ho He]]. simpl in Ho. subst o.
    unfold canonical_name.
    rewrite (canonical_in_entry column_mapping c n Hnd He).
    exact (Hv (c, n) He).
  - unfold canonical_name. now rewrite canonical_in_other.
Qed.

(** After the normalizer no column bears a source name of the table any
    more, and normalizing a normalized frame changes nothing. *)
Theorem rename_columns_leaves_no_source_name {R : Type} (df : DataFrame R) :
  (forall c, In c (columns (rename_columns df)) ->
             ~ In c (map fst column_mapping))
  /\ rename_columns (rename_columns df) = rename_columns df.
Proof.
  destruct column_mapping_clean as [Hnd Hv].
  assert (Hcols : forall d : DataFrame R,
            columns (rename_columns d) = map canonical_name (columns d))
    by (intro d; apply rename_with_columns; exact Hv).
  split.
  - intros c Hc. rewrite Hcols in Hc.
    apply in_map_iff in Hc as [c0 [<- _]]. apply canonical_name_not_source.
  - apply frame_eq.
    + rewrite !Hcols, map_map. apply map_ext. intro c.
      apply canonical_in_other, canonical_name_not_source.
    + unfold rename_columns. now rewrite !rename_with_rows.
Qed.

End NormalizerCoverage.

(** ** The trigger of the job *)

Module TriggerFacts.

Import Trigger.

Section Handler.

Variable unquote_plus : string -> string.
Variable glue : list Call -> Call -> answer.
Variable cfg : Config.

Local Abbreviation process := (process unquote_plus glue cfg).
Local Abbreviation lambda_handler := (lambda_handler unquote_plus glue cfg).
Local Abbreviation eligible := (eligible unquote_plus).
Local Abbreviation call_of := (call_of unquote_plus cfg).

Lemma start_glue_job_raises (reply : answer) (name : string) :
  match raises reply with
  | Some e => start_glue_job reply name = Raise e
  | None => exists started, start_glue_job reply name = Ok started
  end.
Proof. destruct reply; simpl; eauto. Qed.

(** One turn of the loop, by the kind of the record. *)
Lemma process_skip (r : S3Record) (rest : list S3Record) (calls : list Call) :
  eligible r = false -> process (r :: rest) calls = process rest calls.
Proof.
  unfold Trigger.eligible, is_raw_parquet. intro H. cbn [Trigger.process].
  destruct (is_creation r); cbn [negb andb] in *; [|reflexivity].
  destruct (startswith (unquote_plus (object_key r)) "raw/"),
    (endswith (unquote_plus (object_key r)) ".parquet");
    cbn [negb andb orb] in *; try reflexivity; discriminate.
Qed.

Lemma process_start (r : S3Record) (rest : list S3Record) (calls : list Call) :
  eligible r = true ->
  process (r :: rest) calls
  = match raises (glue calls (call_of r)) with
    | Some e => (calls ++ [call_of r], Some e)
    | None => process rest (calls ++ [call_of r])
    end.
Proof.
  unfold Trigger.eligible, is_raw_parquet. intro H. cbn [Trigger.process].
  apply andb_true_iff in H as [Hc Hk]. apply andb_true_iff in Hk as [Hp Hs].
  rewrite Hc, Hp, Hs. cbn [negb orb].
  pose proof (start_glue_job_raises (glue calls (call_of r))
                (GLUE_JOB_NAME cfg)) as Hstart.
  destruct (raises (glue calls (call_of r))).
  - now rewrite Hstart.
  - destruct Hstart as [started ->]. reflexivity.
Qed.

Lemma process_quiet (records : list S3Record) :
  forall calls,
    (forall h c, In c (map call_of (filter eligible records)) ->
                 raises (glue h c) = None) ->
    process records calls
    = (calls ++ map call_of (filter eligible records), None).
Proof.
  induction records as [|r rest IH]; intros calls Hq.
  - simpl. now rewrite app_nil_r.
  - cbn [filter] in *. destruct (eligible r) eqn:E.
    + rewrite (process_start r rest calls E).
      rewrite (Hq calls (call_of r)) by now left.
      rewrite IH by (intros h c Hc; apply Hq; now right).
      cbn [map]. now rewrite <- app_assoc.
    + rewrite (process_skip r rest calls E). now apply IH.
Qed.

Lemma process_app (before rest : list S3Record) :
  forall calls,
    (forall h c, In c (map call_of (filter eligible before)) ->
                 raises (glue h c) = None) ->
    process (before ++ rest) calls
    = process rest (calls ++ map call_of (filter eligible before)).
Proof.
  induction before as [|r before IH]; intros calls Hq.
  - simpl. now rewrite app_nil_r.
  - cbn [app filter] in *. destruct (eligible r) eqn:E.
    + rewrite (process_start r (before ++ rest) calls E).
      rewrite (Hq calls (call_of r)) by now left.
      rewrite IH by (intros h c Hc; apply Hq; now right).
      cbn [map]. now rewrite <- app_assoc.
    + rewrite (process_skip r (before ++ rest) calls E). now apply IH.
Qed.

Lemma process_calls (records : list S3Record) :
  forall calls c,
    In c (fst (process records calls)) ->
    In c calls
    \/ exists r, In r records /\ eligible r = true /\ c = call_of r.
Proof.
  induction records as [|r rest IH]; intros calls c Hc.
  - now left.
  - destruct (eligible r) eqn:E.
    + rewrite (process_start r rest calls E) in Hc.
      assert (Hnew : In c (calls ++ [call_of r]) ->
                     In c calls
                     \/ exists r', In r' (r :: rest) /\ eligible r' = true
                                   /\ c = call_of r').
      { intro H. apply in_app_or in H as [H|[<-|[]]]; [now left|].
        right. exists r. repeat split; [now left | exact E]. }
      destruct (raises (glue calls (call_of r))); [now apply Hnew|].
      apply IH in Hc as [Hc|(r' & Hr' & E' & ->)]; [now apply Hnew|].
      right. exists r'. repeat split; [now right | exact E'].
    + rewrite (process_skip r rest calls E) in Hc.
      apply IH in Hc as [Hc|(r' & Hr' & E' & ->)]; [now left|].
      right. exists r'. repeat split; [now right | exact E'].
Qed.

(** When no call to the service raises (each one starts a run, or finds
    the job at its limit of concurrent runs), the handler calls the service
    once for each record that is the creation of a parquet object under
    [raw/], in the order of the event, skips every other record, and
    answers with status 200, also when no record gets through. *)
Theorem handler_starts_one_run_per_raw_parquet (records : list S3Record) :
  (forall h c, In c (map call_of (filter eligible records)) ->
               raises (glue h c) = None) ->
  lambda_handler records
  = (map call_of (filter eligible records),
     Ok {| statusCode := 200;
           message := "Processamento concluído com sucesso";
           glue_job := GLUE_JOB_NAME cfg |}).
Proof.
  intro Hq. unfold Trigger.lambda_handler.
  now rewrite (process_quiet records [] Hq).
Qed.

(** The first call that the service refuses (job not found, or any other
    error than the limit of concurrent runs) ends the handler: it raises
    the error of that call, and the records that come after it in the
    event are not looked at. *)
Theorem handler_stops_at_the_first_refused_call
    (before after : list S3Record) (r : S3Record) (e : string) :
  eligible r = true ->
  (forall h c, In c (map call_of (filter eligible before)) ->
               raises (glue h c) = None) ->
  raises (glue (map call_of (filter eligible before)) (call_of r)) = Some e ->
  lambda_handler (before ++ r :: after)
  = (map call_of (filter eligible before) ++ [call_of r], Raise e).
Proof.
  intros E Hq He. unfold Trigger.lambda_handler.
  rewrite (process_app before (r :: after) [] Hq). cbn [app].
  rewrite (process_start r after _ E), He. reflexivity.
Qed.

(** Whatever the service answers, every call that the handler makes is for
    a record of the event that is the creation of a parquet object under
    [raw/], and carries the name of the job and the five arguments that the
    job resolves: the bucket and the decoded key of the object, the output
    bucket of the environment, or the bucket of the object when the
    environment names none, the output prefix and the database. *)
Theorem handler_calls_only_for_raw_parquet (records : list S3Record)
    (c : Call) :
  In c (fst (lambda_handler records)) ->
  exists r,
    In r records
    /\ startswith (eventName r) "ObjectCreated" = true
    /\ startswith (unquote_plus (object_key r)) "raw/" = true
    /\ endswith (unquote_plus (object_key r)) ".parquet" = true
    /\ fst c = GLUE_JOB_NAME cfg
    /\ lookup "--input_bucket" (snd c) = Some (bucket_name r)
    /\ lookup "--input_key" (snd c) = Some (unquote_plus (object_key r))
    /\ lookup "--output_bucket" (snd c)
       = Some (if String.eqb (OUTPUT_BUCKET cfg) ""
               then bucket_name r else OUTPUT_BUCKET cfg)
    /\ lookup "--output_prefix" (snd c) = Some (OUTPUT_PREFIX cfg)
    /\ lookup "--database_name" (snd c) = Some (DATABASE_NAME cfg).
Proof.
  intro Hc.
  assert (Hin : In c (fst (process records []))).
  { unfold Trigger.lambda_handler in Hc.
    destruct (process records []) as [calls [e|]]; exact Hc. }
  apply process_calls in Hin as [[]|(r & Hr & E & ->)].
  exists r. split; [exact Hr|].
  unfold Trigger.eligible, is_raw_parquet, is_creation in E.
  apply andb_true_iff in E as [Hc1 Hk]. apply andb_true_iff in Hk as [Hp Hs].
  repeat split; auto.
Qed.

End Handler.

(** *** The partitions in the key of an object *)

Lemma split_nonempty (c : ascii) (a : string) : split c a <> [].
Proof.
  destruct a as [|x a]; simpl; [discriminate|].
  destruct (Ascii.eqb x c); [discriminate|].
  destruct (split c a); discriminate.
Qed.

Lemma split_app (c : ascii) (a b : string) :
  split c (append a (String c b)) = split c a ++ split c b.
Proof.
  induction a as [|x a IH]; simpl.
  - now rewrite Ascii.eqb_refl.
  - destruct (Ascii.eqb x c); [now rewrite IH|].
    rewrite IH. pose proof (split_nonempty c a) as Hne.
    destruct (split c a); [contradiction | reflexivity].
Qed.

Lemma split_whole (c : ascii) (a : string) :
  contains c a = false -> split c a = [a].
Proof.
  induction a as [|x a IH]; simpl; [reflexivity|].
  intro H. apply orb_false_iff in H as [Hx Ha].
  rewrite Hx, (IH Ha). reflexivity.
Qed.

Lemma split_pieces_without (c d : ascii) (s : string) :
  contains d s = false ->
  forall piece, In piece (split c s) -> contains d piece = false.
Proof.
  induction s as [|x s IH]; simpl.
  - intros _ piece [<-|[]]. reflexivity.
  - intro H. apply orb_false_iff in H as [Hx Hs]. specialize (IH Hs).
    destruct (Ascii.eqb x c).
    + intros piece [<-|Hp]; [reflexivity | now apply IH].
    + destruct (split c s) as [|p ps].
      * intros piece [<-|[]]. simpl. now rewrite Hx.
      * intros piece [<-|Hp].
        -- simpl. rewrite Hx. apply IH. now left.
        -- apply IH. now right.
Qed.

Lemma scan_without_equals (pieces : list string) :
  (forall piece, In piece pieces -> contains "=" piece = false) ->
  forall info, fold_left scan_part pieces info = info.
Proof.
  induction pieces as [|p pieces IH]; intros H info; [reflexivity|].
  cbn [fold_left]. unfold scan_part at 2. rewrite (H p) by now left.
  apply IH. intros piece Hp. apply H. now right.
Qed.

Lemma split_first_app (c : ascii) (a b : string) :
  contains c a = false -> split_first c (append a (String c b)) = Some (a, b).
Proof.
  induction a as [|x a IH]; simpl.
  - now rewrite Ascii.eqb_refl.
  - intro H. apply orb_false_iff in H as [Hx Ha].
    now rewrite Hx, (IH Ha).
Qed.

Lemma append_append (a b c : string) :
  append (append a b) c = append a (append b c).
Proof. induction a as [|x a IH]; simpl; [reflexivity | now rewrite IH]. Qed.

Lemma contains_app (c : ascii) (a b : string) :
  contains c (append a b) = contains c a || contains c b.
Proof.
  induction a as [|x a IH]; simpl; [reflexivity|].
  now rewrite IH, orb_assoc.
Qed.

(** A key in which no part is written [name=value] has no partitions:
    the function answers [None], as for the file of all the days that the
    extraction leaves at the root of [raw/]. *)
Theorem key_without_equals_has_no_partition (object_key : string) :
  contains "=" object_key = false ->
  extract_partition_info object_key = None.
Proof.
  intro H. unfold extract_partition_info.
  rewrite scan_without_equals; [reflexivity|].
  now apply split_pieces_without.
Qed.

(** The layout that the extraction writes and the upload keeps,
    [.../ano=A/mes=M/dia=D/file], is read back: the function answers the
    three values [A], [M] and [D], for every prefix and file name without
    an equals sign and every values without a slash. *)
Theorem partitions_of_a_key_are_read_back
    (prefix a m d file : string) :
  contains "=" prefix = false -> contains "=" file = false ->
  contains "/" a = false -> contains "/" m = false ->
  contains "/" d = false ->
  extract_partition_info
    (append prefix
       (append "/ano=" (append a
          (append "/mes=" (append m
             (append "/dia=" (append d (append "/" file))))))))
  = Some {| ano := Some a; mes := Some m; dia := Some d |}.
Proof.
  intros Hprefix Hfile Ha Hm Hd. unfold extract_partition_info.
  change (append "/ano=" ?x) with (String "/" (append "ano=" x)).
  rewrite split_app, fold_left_app.
  rewrite (scan_without_equals (split "/" prefix))
    by now apply split_pieces_without.
  assert (Hpart : forall name value rest,
            contains "/" name = false -> contains "=" name = false ->
            contains "/" value = false ->
            split "/" (append name (String "=" (append value (String "/" rest))))
            = append name (String "=" value) :: split "/" rest).
  { intros name value rest Hn _ Hv.
    replace (append name (String "=" (append value (String "/" rest))))
      with (append (append name (String "=" value)) (String "/" rest)).
    - rewrite split_app, split_whole; [reflexivity|].
      rewrite contains_app. simpl. now rewrite Hn, Hv.
    - rewrite append_append. reflexivity. }
  assert (Hscan : forall info name value,
            contains "=" name = false ->
            scan_part info (append name (String "=" value))
            = assign info name value).
  { intros info name value Hn. unfold scan_part.
    rewrite contains_app. cbn [contains].
    rewrite Ascii.eqb_refl. cbn [orb]. rewrite orb_true_r.
    now rewrite split_first_app. }
  change (append "ano=" ?x) with (append "ano" (String "=" x)).
  change (append "/mes=" ?x) with (String "/" (append "mes" (String "=" x))).
  change (append "/dia=" ?x) with (String "/" (append "dia" (String "=" x))).
  change (append "/" file) with (String "/" file).
  rewrite (Hpart "ano"%string a) by (reflexivity || assumption).
  rewrite (Hpart "mes"%string m) by (reflexivity || assumption).
  rewrite (Hpart "dia"%string d) by (reflexivity || assumption).
  cbn [fold_left].
  rewrite !Hscan by reflexivity.
  rewrite scan_without_equals by now apply split_pieces_without.
  reflexivity.
Qed.

End TriggerFacts.

(** ** The trigger and the job together *)

Module TriggerJobFacts.

Import Trigger JobConfig.

Lemma prefix_append (a p s : string) :
  String.prefix (append a p) (append a s) = String.prefix p s.
Proof.
  induction a as [|x a IH]; simpl; [reflexivity|].
  destruct (ascii_dec x x); [exact IH | contradiction].
Qed.

(** Two beginnings of one text: one is a beginning of the other. *)
Lemma prefix_common (s : string) :
  forall p q,
    String.prefix p s = true -> String.prefix q s = true ->
    String.prefix p q = true \/ String.prefix q p = true.
Proof.
  induction s as [|c s IH]; intros [|a p] [|b q]; simpl; auto;
    try discriminate.
  destruct (ascii_dec a c), (ascii_dec b c); try discriminate.
  subst. intros Hp Hq. destruct (ascii_dec c c); [|contradiction].
  now apply IH.
Qed.

Section Handler.

Variable unquote_plus : string -> string.
Variable glue : list Call -> Call -> answer.
Variable cfg : Config.

Lemma calls_are_for_eligible_records (records : list S3Record) (c : Call) :
  In c (fst (lambda_handler unquote_plus glue cfg records)) ->
  exists r, In r records /\ eligible unquote_plus r = true
            /\ c = call_of unquote_plus cfg r.
Proof.
  intro Hc.
  assert (Hin : In c (fst (process unquote_plus glue cfg records []))).
  { unfold lambda_handler in Hc.
    destruct (process unquote_plus glue cfg records []) as [calls [e|]];
      exact Hc. }
  apply TriggerFacts.process_calls in Hin as [[]|H]. exact H.
Qed.

(** Every run that the handler starts gets arguments that the job
    resolves; the file that the job reads first is the one that the handler
    announces as [--source_file], and it lies in the folder [raw/] of the
    same bucket, which is what the job reads when the file cannot be
    read. *)
Theorem started_job_reads_the_announced_file (records : list S3Record)
    (c : Call) :
  In c (fst (lambda_handler unquote_plus glue cfg records)) ->
  exists args,
    getResolvedOptions (snd c) = Some args
    /\ lookup "--source_file" (snd c) = Some (INPUT_PATH args)
    /\ startswith (INPUT_PATH args) (RAW_PATH args) = true
    /\ OUTPUT_PATH args
       = append "s3://"
           (append (if String.eqb (OUTPUT_BUCKET cfg) ""
                    then input_bucket args else OUTPUT_BUCKET cfg)
              (append "/" (append (OUTPUT_PREFIX cfg) "/"))).
Proof.
  intro Hc. apply calls_are_for_eligible_records in Hc as (r & _ & E & ->).
  unfold eligible, is_raw_parquet in E.
  apply andb_true_iff in E as [_ Hk]. apply andb_true_iff in Hk as [Hp _].
  eexists. split; [reflexivity|]. split; [reflexivity|]. split; [|reflexivity].
  unfold INPUT_PATH, RAW_PATH, startswith. cbn [input_bucket input_key].
  rewrite prefix_append, prefix_append.
  change (String.prefix (String "/" "raw/")
            (String "/" (unquote_plus (object_key r))) = true).
  cbn [String.prefix]. destruct (ascii_dec "/" "/"); [|contradiction].
  exact Hp.
Qed.

(** No loop: an object under a prefix that neither begins with [raw/] nor
    begins it, such as the folder that the job writes to, never makes the
    handler start a run, whatever its name and the kind of the event; an
    event of such objects alone gets status 200 and no call. *)
Theorem objects_outside_raw_start_no_run (folder : string)
    (records : list S3Record) :
  startswith (append folder "/") "raw/" = false ->
  startswith "raw/" (append folder "/") = false ->
  (forall r, In r records ->
             startswith (unquote_plus (object_key r)) (append folder "/")
             = true) ->
  fst (lambda_handler unquote_plus glue cfg records) = []
  /\ exists response,
       snd (lambda_handler unquote_plus glue cfg records) = Ok response
       /\ statusCode response = 200%Z.
Proof.
  intros H1 H2 Hall.
  assert (Hnone : filter (eligible unquote_plus) records = []).
  { apply WindowCoverage.filter_none. intros r Hr.
    unfold eligible, is_raw_parquet.
    destruct (startswith (unquote_plus (object_key r)) "raw/") eqn:E;
      [|now rewrite andb_false_r].
    exfalso. unfold startswith in *.
    destruct (prefix_common _ _ _ E (Hall r Hr)) as [H|H]; congruence. }
  unfold lambda_handler.
  rewrite (TriggerFacts.process_quiet unquote_plus glue cfg records [])
    by (rewrite Hnone; intros h c []).
  rewrite Hnone. split; [reflexivity|]. eexists. split; reflexivity.
Qed.

End Handler.

End TriggerJobFacts.

(** ** The further properties on the sample data *)

Module CoverageScenarios.

Import Normalizer Job Sample Sample2.
Import Stat.

Lemma moving_average_over_at_most_seven_rows_witness :
  7 < length (ticker_sequence xyz4 days)
  /\ length (Spark.rowsBetween (-6) 0 (ticker_sequence xyz4 days) 7)
     = Nat.min (7 + 1) 7
  /\ exists m,
       nth_error (rows_of_ticker xyz4 (calculate_date_based_metrics days)) 7
       = Some m
       /\ forall closes,
            map preco_fechamento
                (Spark.rowsBetween (-6) 0 (ticker_sequence xyz4 days) 7)
            = map Some closes ->
            media_movel_7d m
            = Some (total closes / Spark.of_count (Nat.min (7 + 1) 7))%Qc.
Proof.
  split; [vm_compute; lia|].
  apply (WindowCoverage.moving_average_over_at_most_seven_rows days xyz4 7).
  vm_compute; lia.
Defined.

Lemma nulls_of_the_window_metrics_witness :
  1 < length (ticker_sequence abcd3 days)
  /\ exists m r,
       nth_error (rows_of_ticker abcd3 (calculate_date_based_metrics days)) 1
       = Some m
       /\ nth_error (ticker_sequence abcd3 days) 1 = Some r
       /\ (media_movel_7d m = None <->
           Forall (fun c => c = None)
                  (map preco_fechamento
                       (Spark.rowsBetween (-6) 0
                          (ticker_sequence abcd3 days) 1)))
       /\ (variacao_percentual_diaria m = None <->
           exists p previous,
             0 < 1
             /\ nth_error (ticker_sequence abcd3 days) (1 - 1) = Some p
             /\ preco_fechamento p = Some previous
             /\ (previous = 0%Qc \/ preco_fechamento r = None)).
Proof.
  split; [vm_compute; lia|].
  apply (WindowCoverage.nulls_of_the_window_metrics days abcd3 1).
  vm_compute; lia.
Defined.

Lemma window_stage_order_independent_witness :
  (Permutation days (rev days) /\ NoDup (map key days))
  /\ (forall t,
        rows_of_ticker t (calculate_date_based_metrics days)
        = rows_of_ticker t (calculate_date_based_metrics (rev days)))
  /\ Permutation (calculate_date_based_metrics days)
                 (calculate_date_based_metrics (rev days)).
Proof.
  assert (Hp : Permutation days (rev days)) by apply Permutation_rev.
  assert (Hnd : NoDup (map key days)).
  { change (map key days) with (Spark.distinct key_eqb (map key days)).
    apply ListFacts.distinct_NoDup, KeyFacts.key_eqb_eq. }
  split; [now split|].
  exact (SingleRecords.window_stage_order_independent days (rev days) Hp Hnd).
Defined.

Lemma single_records_pass_through_the_aggregation_witness :
  (NoDup (map Raw.key single_records) /\ Forall long_volume single_records)
  /\ Permutation (calculate_aggregations single_records)
                 (map of_record single_records).
Proof.
  assert (Hnd : NoDup (map Raw.key single_records)).
  { change (map Raw.key single_records)
      with (Spark.distinct key_eqb (map Raw.key single_records)).
    apply ListFacts.distinct_NoDup, KeyFacts.key_eqb_eq. }
  assert (Hlong : Forall long_volume single_records).
  { repeat constructor; unfold Spark.is_long; simpl; lia. }
  split; [now split|].
  exact (SingleRecords.single_records_pass_through_the_aggregation
           single_records Hnd Hlong).
Defined.

Lemma single_records_give_one_output_in_any_order_witness :
  (Permutation single_records single_records_reordered
   /\ NoDup (map Raw.key single_records))
  /\ Permutation (transform 1 single_records)
                 (transform 1 single_records_reordered).
Proof.
  assert (Hp : Permutation single_records single_records_reordered)
    by apply perm_swap.
  assert (Hnd : NoDup (map Raw.key single_records)).
  { change (map Raw.key single_records)
      with (Spark.distinct key_eqb (map Raw.key single_records)).
    apply ListFacts.distinct_NoDup, KeyFacts.key_eqb_eq. }
  split; [now split|].
  exact (SingleRecords.single_records_give_one_output_in_any_order
           1 single_records single_records_reordered Hp Hnd).
Defined.

(** The partition columns of a text that is no date of the calendar are
    null: February has 29 days in 2024 and in 2000, 28 in 2023 and in
    1900. *)
Example no_partition_for_the_thirtieth_of_february :
  map (fun d => option_map date_format (cast_date (Some d)))
      [ mkDate 2024 2 29; mkDate 2024 2 30; mkDate 2023 2 29;
        mkDate 2000 2 29; mkDate 1900 2 29; mkDate 2024 4 31;
        mkDate 2024 12 31 ]
  = [ Some "2024-02-29"; None; None; Some "2000-02-29"; None; None;
      Some "2024-12-31" ]%string.
Proof. reflexivity. Qed.

Lemma no_two_rows_share_the_partition_columns_witness :
  (forall r, In r records -> valid_data (Raw.data r) = true)
  /\ NoDup (map partition_of (transform 1 records))
  /\ Forall
       (fun r =>
          forall d, data (enriched_summary r) = Some d ->
                    exists text,
                      data_particao (partitioned r) = Some text
                      /\ String.length text = 10)
       (transform 1 records).
Proof.
  assert (Hv : forall r, In r records -> valid_data (Raw.data r) = true).
  { intros r [<-|[<-|[<-|[]]]]; reflexivity. }
  split; [exact Hv|].
  exact (OutputFacts.no_two_rows_share_the_partition_columns 1 records Hv).
Defined.

Lemma unreadable_input_falls_back_to_raw_folder_witness :
  read_input file_missing = Raise "Path does not exist"%string
  /\ In (ReadSpecificError "Path does not exist"%string) (printed file_missing)
  /\ outcome file_missing
     = outcome (with_read_input (read_raw_folder file_missing) file_missing)
  /\ forall e',
       read_raw_folder file_missing = Raise e' ->
       ~ In Written (printed file_missing)
       /\ (job_commit file_missing = None -> outcome file_missing = Raise e').
Proof.
  split; [reflexivity|].
  apply (JobCoverage.unreadable_input_falls_back_to_raw_folder file_missing).
  reflexivity.
Defined.

(** The engine finds a column whatever the case of its letters, and
    refuses a name that two columns have after the renaming. *)
Example columns_in_capitals_and_twice :
  schema_ok frame_in_capitals = true
  /\ schema_ok frame_with_two_volumes = false
  /\ schema_ok frame_without_volume = false.
Proof. repeat split; vm_compute; reflexivity. Qed.

Lemma aggregation_finds_its_columns_witness :
  case_distinct (columns raw_frame)
  /\ (schema_ok raw_frame = true <->
      forall c,
        In c aggregated_columns ->
        length (filter (stands_for c) (columns raw_frame)) = 1).
Proof.
  assert (H : case_distinct (columns raw_frame)).
  { unfold case_distinct.
    change (map lower (columns raw_frame))
      with (Spark.distinct String.eqb (map lower (columns raw_frame))).
    apply ListFacts.distinct_NoDup, String.eqb_eq. }
  split; [exact H|].
  exact (JobCoverage.aggregation_finds_its_columns raw_frame H).
Defined.

Lemma missing_column_fails_the_run_before_the_write_witness :
  (read_raw_data drifted [] = ([ReadSpecific 3], Ok frame_without_volume)
   /\ case_distinct (columns frame_without_volume)
   /\ In "volume_negociado"%string aggregated_columns
   /\ length (filter (stands_for "volume_negociado")
                     (columns frame_without_volume)) <> 1)
  /\ ~ In Written (printed drifted)
  /\ In (Failure analysis_exception) (printed drifted)
  /\ (job_commit drifted = None -> outcome drifted = Raise analysis_exception).
Proof.
  assert (Hr : read_raw_data drifted []
               = ([ReadSpecific 3], Ok frame_without_volume))
    by (vm_compute; reflexivity).
  assert (Hd : case_distinct (columns frame_without_volume)).
  { unfold case_distinct.
    change (map lower (columns frame_without_volume))
      with (Spark.distinct String.eqb
              (map lower (columns frame_without_volume))).
    apply ListFacts.distinct_NoDup, String.eqb_eq. }
  assert (Hc : In "volume_negociado"%string aggregated_columns)
    by (right; right; left; reflexivity).
  assert (Hn : length (filter (stands_for "volume_negociado")
                         (columns frame_without_volume)) <> 1)
    by (vm_compute; discriminate).
  split; [repeat split; assumption|].
  exact (JobCoverage.missing_column_fails_the_run_before_the_write
           drifted frame_without_volume [ReadSpecific 3]
           "volume_negociado" Hr Hd Hc Hn).
Defined.

Lemma success_reports_the_number_of_ticker_days_witness :
  (read_raw_data calm [] = ([ReadSpecific 3], Ok raw_frame)
   /\ schema_ok raw_frame = true
   /\ write_parquet calm = None /\ collect_statistics calm = None)
  /\ In (Success
           (Z.of_nat
              (length (Spark.distinct key_eqb
                         (map Raw.key (rows raw_frame))))))
        (printed calm).
Proof.
  assert (Hr : read_raw_data calm [] = ([ReadSpecific 3], Ok raw_frame))
    by (vm_compute; reflexivity).
  assert (Hs : schema_ok raw_frame = true) by (vm_compute; reflexivity).
  split; [repeat split; assumption || reflexivity|].
  exact (JobCoverage.success_reports_the_number_of_ticker_days
           calm raw_frame [ReadSpecific 3] Hr Hs eq_refl eq_refl).
Defined.

End CoverageScenarios.

Module TriggerScenarios.

Import Trigger TriggerSample.

(** The sample event: two of its four records get through. *)
Example sample_event_starts_two_runs :
  map (fun c => lookup "--input_key" (snd c))
      (fst (lambda_handler plain willing environment event))
  = [ Some "raw/ano=2024/mes=01/dia=05/dados_b3_2024-01-05.parquet"%string;
      Some "raw/dados_completos.parquet"%string ]
  /\ map (fun c => lookup "--dia" (snd c))
         (fst (lambda_handler plain willing environment event))
     = [ Some "05"%string; None ].
Proof. split; vm_compute; reflexivity. Qed.

Lemma handler_starts_one_run_per_raw_parquet_witness :
  (forall h c,
     In c (map (call_of plain environment) (filter (eligible plain) event)) ->
     raises (willing h c) = None)
  /\ lambda_handler plain willing environment event
     = (map (call_of plain environment) (filter (eligible plain) event),
        Ok {| statusCode := 200;
              message := "Processamento concluído com sucesso";
              glue_job := GLUE_JOB_NAME environment |}).
Proof.
  assert (H : forall h c,
            In c (map (call_of plain environment)
                      (filter (eligible plain) event)) ->
            raises (willing h c) = None) by (intros h c _; reflexivity).
  split; [exact H|].
  exact (TriggerFacts.handler_starts_one_run_per_raw_parquet
           plain willing environment event H).
Defined.

Lemma handler_stops_at_the_first_refused_call_witness :
  (eligible plain complete_file = true
   /\ (forall h c,
         In c (map (call_of plain environment)
                   (filter (eligible plain) [daily_file; removal; note])) ->
         raises (unwilling h c) = None)
   /\ raises (unwilling
                (map (call_of plain environment)
                     (filter (eligible plain) [daily_file; removal; note]))
                (call_of plain environment complete_file))
      = Some "Job not found"%string)
  /\ lambda_handler plain unwilling environment
       ([daily_file; removal; note] ++ complete_file :: [daily_file])
     = (map (call_of plain environment)
            (filter (eligible plain) [daily_file; removal; note])
        ++ [call_of plain environment complete_file],
        Raise "Job not found"%string).
Proof.
  assert (H1 : eligible plain complete_file = true) by reflexivity.
  assert (H2 : forall h c,
            In c (map (call_of plain environment)
                      (filter (eligible plain) [daily_file; removal; note])) ->
            raises (unwilling h c) = None).
  { intros h c [<-|[]]. reflexivity. }
  assert (H3 : raises (unwilling
                (map (call_of plain environment)
                     (filter (eligible plain) [daily_file; removal; note]))
                (call_of plain environment complete_file))
               = Some "Job not found"%string) by reflexivity.
  split; [repeat split; assumption|].
  exact (TriggerFacts.handler_stops_at_the_first_refused_call
           plain unwilling environment
           [daily_file; removal; note] [daily_file] complete_file
           "Job not found"%string H1 H2 H3).
Defined.

Lemma handler_calls_only_for_raw_parquet_witness :
  In (call_of plain environment daily_file)
     (fst (lambda_handler plain unwilling environment event))
  /\ exists r,
       In r event
       /\ startswith (eventName r) "ObjectCreated" = true
       /\ startswith (plain (object_key r)) "raw/" = true
       /\ endswith (plain (object_key r)) ".parquet" = true
       /\ fst (call_of plain environment daily_file)
          = GLUE_JOB_NAME environment
       /\ lookup "--input_bucket" (snd (call_of plain environment daily_file))
          = Some (bucket_name r)
       /\ lookup "--input_key" (snd (call_of plain environment daily_file))
          = Some (plain (object_key r))
       /\ lookup "--output_bucket" (snd (call_of plain environment daily_file))
          = Some (if String.eqb (OUTPUT_BUCKET environment) ""
                  then bucket_name r else OUTPUT_BUCKET environment)
       /\ lookup "--output_prefix" (snd (call_of plain environment daily_file))
          = Some (OUTPUT_PREFIX environment)
       /\ lookup "--database_name"
                 (snd (call_of plain environment daily_file))
          = Some (DATABASE_NAME environment).
Proof.
  assert (H : In (call_of plain environment daily_file)
                 (fst (lambda_handler plain unwilling environment event)))
    by (left; reflexivity).
  split; [exact H|].
  exact (TriggerFacts.handler_calls_only_for_raw_parquet
           plain unwilling environment event
           (call_of plain environment daily_file) H).
Defined.

Lemma key_without_equals_has_no_partition_witness :
  contains "=" "raw/dados_completos.parquet" = false
  /\ extract_partition_info "raw/dados_completos.parquet" = None.
Proof.
  split; [reflexivity|].
  apply (TriggerFacts.key_without_equals_has_no_partition
           "raw/dados_completos.parquet").
  reflexivity.
Defined.

Lemma partitions_of_a_key_are_read_back_witness :
  (contains "=" "raw" = false
   /\ contains "=" "dados_b3_2024-01-05.parquet" = false
   /\ contains "/" "2024" = false /\ contains "/" "01" = false
   /\ contains "/" "05" = false)
  /\ extract_partition_info
       (append "raw"
          (append "/ano=" (append "2024"
             (append "/mes=" (append "01"
                (append "/dia=" (append "05"
                   (append "/" "dados_b3_2024-01-05.parquet"))))))))
     = Some {| ano := Some "2024"%string; mes := Some "01"%string;
               dia := Some "05"%string |}.
Proof.
  split; [repeat split; reflexivity|].
  exact (TriggerFacts.partitions_of_a_key_are_read_back
           "raw" "2024" "01" "05" "dados_b3_2024-01-05.parquet"
           eq_refl eq_refl eq_refl eq_refl eq_refl).
Defined.

End TriggerScenarios.

Module TriggerJobScenarios.

Import Trigger JobConfig TriggerSample.

Lemma started_job_reads_the_announced_file_witness :
  In (call_of plain environment daily_file)
     (fst (lambda_handler plain willing environment event))
  /\ exists args,
       getResolvedOptions (snd (call_of plain environment daily_file))
       = Some args
       /\ lookup "--source_file" (snd (call_of plain environment daily_file))
          = Some (INPUT_PATH args)
       /\ startswith (INPUT_PATH args) (RAW_PATH args) = true
       /\ OUTPUT_PATH args
          = append "s3://"
              (append (if String.eqb (OUTPUT_BUCKET environment) ""
                       then input_bucket args else OUTPUT_BUCKET environment)
                 (append "/" (append (OUTPUT_PREFIX environment) "/"))).
Proof.
  assert (H : In (call_of plain environment daily_file)
                 (fst (lambda_handler plain willing environment event)))
    by (left; reflexivity).
  split; [exact H|].
  exact (TriggerJobFacts.started_job_reads_the_announced_file
           plain willing environment event
           (call_of plain environment daily_file) H).
Defined.

Lemma objects_outside_raw_start_no_run_witness :
  (startswith (append "refined" "/") "raw/" = false
   /\ startswith "raw/" (append "refined" "/") = false
   /\ forall r, In r written_objects ->
                startswith (plain (object_key r)) (append "refined" "/")
                = true)
  /\ fst (lambda_handler plain willing environment written_objects) = []
  /\ exists response,
       snd (lambda_handler plain willing environment written_objects)
       = Ok response
       /\ statusCode response = 200%Z.
Proof.
  assert (H1 : startswith (append "refined" "/") "raw/" = false)
    by reflexivity.
  assert (H2 : startswith "raw/" (append "refined" "/") = false)
    by reflexivity.
  assert (H3 : forall r, In r written_objects ->
                 startswith (plain (object_key r)) (append "refined" "/")
                 = true).
  { intros r [<-|[<-|[]]]; reflexivity. }
  split; [repeat split; assumption|].
  exact (TriggerJobFacts.objects_outside_raw_start_no_run
           plain willing environment "refined" written_objects H1 H2 H3).
Defined.

End TriggerJobScenarios.
